(** * PLNmodels, [src/optimize.cpp]: parameter packer, nlopt driver and
      variational objectives

    A shallow embedding of the C++ translation unit: algorithm naming, the
    packing utilities, the nlopt wrapper, the eight exported optimizers with
    their objective closures, and then the properties.

    Conventions.
    - A [double] is a real number: rounding, overflow and underflow are not
      modelled.  Where exact arithmetic leaves the real numbers ([log] of a
      non-positive number, division by zero), and IEEE-754 arithmetic
      produces an infinity or a NaN, the evaluation ends with the outcome
      [NonFinite]; what the program does after that point is not followed.
      The formulas in the properties are those of exact arithmetic, which
      the doubles follow up to rounding.  The outcome [Ok] in a hypothesis
      reads: the call returned and no infinity or NaN came up.
    - [arma::uword] is [N] with the 64-bit wrap-around written out.
    - C++ exceptions are the outcome [Throw]; Armadillo's checks of bounds
      and of conforming sizes throw [arma_logic_error].
    - [arma::mat] is a record of the two sizes and the column-major storage;
      [arma::vec] in the packer is a list, and a one-column matrix inside
      the objectives.
    - The external optimizer is a record of functions ([nlopt_library]); one
      run of [nlopt_optimize] is a tree of objective evaluations.
    - The [loglik] expressions of the exported functions are not modelled;
      [logfact] and [ki], which they call, are. *)

From Stdlib Require Import String Ascii Bool Arith NArith ZArith Lia.
From Stdlib Require Import Reals Lra.
From Stdlib Require Import List.
Import ListNotations.

Set Warnings "-register-all".

(* ===================================================================== *)
(** * Outcomes of a call *)

(** What a C++ call of this file can raise.  [Rcpp_exception] is the
    [throw Rcpp::exception(msg)] written in the source; the others are
    raised inside the libraries the source calls. *)
Inductive exn : Type :=
| Rcpp_exception (msg : string)
| Rcpp_not_compatible
| Rcpp_index_out_of_bounds (name : string)
| arma_logic_error (what : string)
| arma_runtime_error (what : string).

(** [Ok a]: normal return.  [Throw e]: an exception escapes.  [NonFinite]:
    the evaluation left the domain of real arithmetic ([log] of a
    non-positive number, reciprocal of zero), where IEEE-754 yields an
    infinity or a NaN; what follows that point is not tracked. *)
Inductive result (A : Type) : Type :=
| Ok (a : A)
| NonFinite
| Throw (e : exn).

Arguments Ok {A} a.
Arguments NonFinite {A}.
Arguments Throw {A} e.

Definition bind {A B : Type} (c : result A) (k : A -> result B) : result B :=
  match c with
  | Ok a => k a
  | NonFinite => NonFinite
  | Throw e => Throw e
  end.

Declare Scope result_scope.
Delimit Scope result_scope with result.
Notation "x <- c ;; k" := (bind c (fun x => k))
  (at level 61, c at next level, right associativity) : result_scope.
Notation "' p <- c ;; k" := (bind c (fun p => k))
  (at level 61, p pattern, c at next level, right associativity) : result_scope.
Open Scope result_scope.

Definition is_ok {A : Type} (c : result A) : bool :=
  match c with Ok _ => true | _ => false end.

(* ===================================================================== *)
(** * Machine integers and Armadillo containers *)

(** [arma::uword] is a 64-bit unsigned integer. *)
Definition uword := N.
Definition uword_modulus : N := 2 ^ 64.
Definition uword_add (a b : uword) : uword := ((a + b) mod uword_modulus)%N.
Definition uword_mul (a b : uword) : uword := ((a * b) mod uword_modulus)%N.

(** [arma::vec]: a column of doubles. *)
Definition vec := list R.

(** [arma::mat]: dense, column-major storage. *)
Record mat : Type := Mat { n_rows : nat; n_cols : nat; mem : list R }.

Definition mat_wf (m : mat) : Prop := length (mem m) = n_rows m * n_cols m.

Definition vec_n_elem (v : vec) : uword := N.of_nat (length v).
Definition mat_n_rows (m : mat) : uword := N.of_nat (n_rows m).
Definition mat_n_cols (m : mat) : uword := N.of_nat (n_cols m).

(** [arma::vectorise(m)]: the column-major flattening. *)
Definition vectorise (m : mat) : vec := mem m.

(** [arma::reshape(v, arma::size(rows, cols))] for a [v] of [rows * cols]
    elements. *)
Definition reshape (v : vec) (rows cols : nat) : mat := Mat rows cols v.

(** The values a packer is built from and moves around: the two
    specialisations of [PackedInfo]. *)
Inductive arma_value : Type :=
| a_vec (v : vec)
| a_mat (m : mat).

Definition value_wf (x : arma_value) : Prop :=
  match x with a_vec _ => True | a_mat m => mat_wf m end.

Definition value_n_elem (x : arma_value) : N :=
  match x with
  | a_vec v => N.of_nat (length v)
  | a_mat m => (N.of_nat (n_rows m) * N.of_nat (n_cols m))%N
  end.

(* ===================================================================== *)
(** * Slices of the packed vector *)

(** [packed.subvec(offset, arma::size(size, 1))]: the elements
    [offset .. offset + size - 1]; Armadillo's bounds check raises when the
    slice does not lie inside [packed].  The source takes this form to be
    the one that is valid for slices of size zero (its comment above
    [PackedInfo<arma::vec>]); the embedding accepts an empty slice at every
    offset up to the end of the vector. *)
Definition subvec_in_bounds (packed : vec) (offset size : uword) : bool :=
  (uword_add offset size <=? N.of_nat (length packed))%N.

Definition subvec (packed : vec) (offset size : uword) : result vec :=
  if subvec_in_bounds packed offset size
  then Ok (firstn (N.to_nat size) (skipn (N.to_nat offset) packed))
  else Throw (arma_logic_error "subvec(): size out of bounds").

(** [packed.subvec(offset, arma::size(size, 1)) = x]: Armadillo also checks
    that [x] has as many elements as the slice. *)
Definition subvec_assign (packed : vec) (offset size : uword) (x : vec)
  : result vec :=
  if subvec_in_bounds packed offset size then
    if (N.of_nat (length x) =? size)%N
    then Ok (firstn (N.to_nat offset) packed ++ x
             ++ skipn (N.to_nat offset + N.to_nat size) packed)
    else Throw (arma_logic_error "copy into submatrix: incompatible dimensions")
  else Throw (arma_logic_error "subvec(): size out of bounds").

(** [packed.subvec(offset, arma::size(size, 1)).fill(x)]. *)
Definition subvec_fill (packed : vec) (offset size : uword) (x : R)
  : result vec :=
  if subvec_in_bounds packed offset size
  then Ok (firstn (N.to_nat offset) packed ++ repeat x (N.to_nat size)
           ++ skipn (N.to_nat offset + N.to_nat size) packed)
  else Throw (arma_logic_error "subvec(): size out of bounds").

(* ===================================================================== *)
(** * R values handed over by Rcpp *)

(** The part of [SEXP] the source looks at: numeric vectors (with an optional
    [dim] attribute, which makes them matrices), named lists, strings and
    integers. *)
Inductive SEXP : Type :=
| REALSXP (data : list R) (dim : option (nat * nat))
| VECSXP (elts : list (string * SEXP))
| STRSXP (s : string)
| INTSXP (z : Z)
| NILSXP.

(** [Rcpp::is<double>]: a numeric vector of length one. *)
Definition Rcpp_is_double (x : SEXP) : bool :=
  match x with
  | REALSXP [_] _ => true
  | _ => false
  end.

(** [Rcpp::is<Rcpp::List>]. *)
Definition Rcpp_is_List (x : SEXP) : bool :=
  match x with VECSXP _ => true | _ => false end.

(** [Rcpp::as<double>]. *)
Definition Rcpp_as_double (x : SEXP) : result R :=
  match x with
  | REALSXP [d] _ => Ok d
  | INTSXP z => Ok (IZR z)
  | _ => Throw Rcpp_not_compatible
  end.

(** [Rcpp::as<int>]. *)
Definition Rcpp_as_int (x : SEXP) : result Z :=
  match x with
  | INTSXP z => Ok z
  | _ => Throw Rcpp_not_compatible
  end.

(** [Rcpp::as<std::string>]. *)
Definition Rcpp_as_string (x : SEXP) : result string :=
  match x with
  | STRSXP s => Ok s
  | _ => Throw Rcpp_not_compatible
  end.

(** [Rcpp::as<Rcpp::List>]. *)
Definition Rcpp_as_List (x : SEXP) : result (list (string * SEXP)) :=
  match x with
  | VECSXP l => Ok l
  | _ => Throw Rcpp_not_compatible
  end.

(** [Rcpp::as<arma::vec>]: all the elements of a numeric vector. *)
Definition Rcpp_as_vec (x : SEXP) : result vec :=
  match x with
  | REALSXP data _ => Ok data
  | _ => Throw Rcpp_not_compatible
  end.

(** [Rcpp::as<arma::mat>]: a numeric vector with a [dim] attribute. *)
Definition Rcpp_as_mat (x : SEXP) : result mat :=
  match x with
  | REALSXP data (Some (r, c)) => Ok (Mat r c data)
  | _ => Throw Rcpp_not_compatible
  end.

(** [Rcpp::wrap] of a double, a vector and a matrix. *)
Definition Rcpp_wrap_double (x : R) : SEXP := REALSXP [x] None.
Definition Rcpp_wrap_vec (v : vec) : SEXP := REALSXP v None.
Definition Rcpp_wrap_mat (m : mat) : SEXP :=
  REALSXP (mem m) (Some (n_rows m, n_cols m)).

(** [list[name]] on an [Rcpp::List]. *)
Fixpoint List_get (l : list (string * SEXP)) (name : string) : result SEXP :=
  match l with
  | [] => Throw (Rcpp_index_out_of_bounds name)
  | (k, v) :: rest => if String.eqb k name then Ok v else List_get rest name
  end.

(* ===================================================================== *)
(** * Algorithm naming *)

Inductive nlopt_algorithm : Type :=
| NLOPT_LD_LBFGS_NOCEDAL
| NLOPT_LD_LBFGS
| NLOPT_LD_VAR1
| NLOPT_LD_VAR2
| NLOPT_LD_TNEWTON
| NLOPT_LD_TNEWTON_RESTART
| NLOPT_LD_TNEWTON_PRECOND
| NLOPT_LD_TNEWTON_PRECOND_RESTART
| NLOPT_LD_MMA
| NLOPT_LD_CCSAQ.

Record AlgorithmNameAssociation : Type :=
  { name : string; enum_value : nlopt_algorithm }.

(** List of all supported algorithms and associated names. *)
Definition supported_algorithms : list AlgorithmNameAssociation :=
  [ {| name := "LBFGS_NOCEDAL"; enum_value := NLOPT_LD_LBFGS_NOCEDAL |};
    {| name := "LBFGS"; enum_value := NLOPT_LD_LBFGS |};
    {| name := "VAR1"; enum_value := NLOPT_LD_VAR1 |};
    {| name := "VAR2"; enum_value := NLOPT_LD_VAR2 |};
    {| name := "TNEWTON"; enum_value := NLOPT_LD_TNEWTON |};
    {| name := "TNEWTON_RESTART"; enum_value := NLOPT_LD_TNEWTON_RESTART |};
    {| name := "TNEWTON_PRECOND"; enum_value := NLOPT_LD_TNEWTON_PRECOND |};
    {| name := "TNEWTON_PRECOND_RESTART";
       enum_value := NLOPT_LD_TNEWTON_PRECOND_RESTART |};
    {| name := "MMA"; enum_value := NLOPT_LD_MMA |};
    {| name := "CCSAQ"; enum_value := NLOPT_LD_CCSAQ |} ].

Definition supported_names : list string := map name supported_algorithms.

(** The first loop of [algorithm_from_name]: the first association whose
    name equals the argument. *)
Fixpoint lookup_algorithm (l : list AlgorithmNameAssociation) (nm : string)
  : option nlopt_algorithm :=
  match l with
  | [] => None
  | association :: rest =>
      if String.eqb nm (name association) then Some (enum_value association)
      else lookup_algorithm rest nm
  end.

Definition double_quote : string := String "034"%char EmptyString.
Definition newline : string := String "010"%char EmptyString.

(** The message built when none matched: the second loop appends a space and
    each supported name. *)
Definition unsupported_algorithm_message (nm : string) : string :=
  fold_left (fun msg association => msg ++ " " ++ name association)%string
    supported_algorithms
    ("Unsupported algorithm name: " ++ double_quote ++ nm ++ double_quote
       ++ newline ++ "Supported:")%string.

(** Retrieve the algorithm enum value associated to a name, or throw. *)
Definition algorithm_from_name (nm : string) : result nlopt_algorithm :=
  match lookup_algorithm supported_algorithms nm with
  | Some a => Ok a
  | None => Throw (Rcpp_exception (unsupported_algorithm_message nm))
  end.

(* ===================================================================== *)
(** * Packing / unpacking utils *)

(** [PackedInfo<arma::vec>]. *)
Module VecInfo.
Record t : Type := mk { offset : uword; size : uword }.

Definition make (v : vec) (current_offset : uword) : t * uword :=
  (mk current_offset (vec_n_elem v),
   uword_add current_offset (vec_n_elem v)).

Definition unpack (i : t) (packed : vec) : result vec :=
  subvec packed (offset i) (size i).

Definition pack (i : t) (packed : vec) (expr : vec) : result vec :=
  subvec_assign packed (offset i) (size i) expr.

Definition pack_double_or_arma (i : t) (packed : vec) (r_value : SEXP)
  : result vec :=
  if Rcpp_is_double r_value then
    x <- Rcpp_as_double r_value ;;
    subvec_fill packed (offset i) (size i) x
  else
    v <- Rcpp_as_vec r_value ;;
    pack i packed v.
End VecInfo.

(** [PackedInfo<arma::mat>]. *)
Module MatInfo.
Record t : Type := mk { offset : uword; rows : uword; cols : uword }.

Definition make (m : mat) (current_offset : uword) : t * uword :=
  (mk current_offset (mat_n_rows m) (mat_n_cols m),
   uword_add current_offset (uword_mul (mat_n_rows m) (mat_n_cols m))).

Definition unpack (i : t) (packed : vec) : result mat :=
  v <- subvec packed (offset i) (uword_mul (rows i) (cols i)) ;;
  Ok (reshape v (N.to_nat (rows i)) (N.to_nat (cols i))).

(** Handles mat expressions and vec expressions: whatever it is given is
    flattened first. *)
Definition pack (i : t) (packed : vec) (expr : mat) : result vec :=
  subvec_assign packed (offset i) (uword_mul (rows i) (cols i))
    (vectorise expr).

Definition pack_double_or_arma (i : t) (packed : vec) (r_value : SEXP)
  : result vec :=
  if Rcpp_is_double r_value then
    x <- Rcpp_as_double r_value ;;
    subvec_fill packed (offset i) (uword_mul (rows i) (cols i)) x
  else
    m <- Rcpp_as_mat r_value ;;
    pack i packed m.
End MatInfo.

(** One element of the tuple [std::tuple<PackedInfo<Types>...>]. *)
Inductive PackedInfo : Type :=
| info_vec (i : VecInfo.t)
| info_mat (i : MatInfo.t).

Definition info_offset (info : PackedInfo) : uword :=
  match info with
  | info_vec i => VecInfo.offset i
  | info_mat i => MatInfo.offset i
  end.

(** Number of elements of the slice the group owns. *)
Definition info_n_elem (info : PackedInfo) : uword :=
  match info with
  | info_vec i => VecInfo.size i
  | info_mat i => uword_mul (MatInfo.rows i) (MatInfo.cols i)
  end.

(** The constructor [PackedInfo<T>(reference_object, current_offset)]:
    records the offset, then advances it. *)
Definition PackedInfo_make (value : arma_value) (current_offset : uword)
  : PackedInfo * uword :=
  match value with
  | a_vec v => let (i, o) := VecInfo.make v current_offset in (info_vec i, o)
  | a_mat m => let (i, o) := MatInfo.make m current_offset in (info_mat i, o)
  end.

(** Stores packing information for multiple objects. *)
Record Packer : Type := { elements : list PackedInfo; size : uword }.

(** The brace initialisation of [make_packer]: one constructor call per
    value, in order, threading [current_offset]. *)
Fixpoint make_elements (values : list arma_value) (current_offset : uword)
  : list PackedInfo * uword :=
  match values with
  | [] => ([], current_offset)
  | value :: rest =>
      let (info, o) := PackedInfo_make value current_offset in
      let (infos, final) := make_elements rest o in
      (info :: infos, final)
  end.

Definition make_packer (values : list arma_value) : Packer :=
  let (infos, final) := make_elements values 0%N in
  {| elements := infos; size := final |}.

(** An expression of vector type converted to a matrix: one column. *)
Definition col_of_vec (v : vec) : mat := Mat (length v) 1 v.

(** [std::get<Index>(elements)].  An index past the tuple does not
    compile; the embedding makes it a logic error. *)
Definition get (packer : Packer) (Index : nat) : result PackedInfo :=
  match nth_error (elements packer) Index with
  | Some info => Ok info
  | None => Throw (arma_logic_error "std::get: no such element")
  end.

Definition unpack (packer : Packer) (Index : nat) (packed : vec)
  : result arma_value :=
  info <- get packer Index ;;
  match info with
  | info_vec i => v <- VecInfo.unpack i packed ;; Ok (a_vec v)
  | info_mat i => m <- MatInfo.unpack i packed ;; Ok (a_mat m)
  end.

Definition pack (packer : Packer) (Index : nat) (packed : vec)
  (expr : arma_value) : result vec :=
  info <- get packer Index ;;
  match info, expr with
  | info_vec i, a_vec v => VecInfo.pack i packed v
  | info_vec i, a_mat m =>
      if Nat.eqb (n_cols m) 1 then VecInfo.pack i packed (mem m)
      else Throw (arma_logic_error
                    "copy into submatrix: incompatible dimensions")
  | info_mat i, a_vec v => MatInfo.pack i packed (col_of_vec v)
  | info_mat i, a_mat m => MatInfo.pack i packed m
  end.

Definition pack_double_or_arma (packer : Packer) (Index : nat) (packed : vec)
  (r_value : SEXP) : result vec :=
  info <- get packer Index ;;
  match info with
  | info_vec i => VecInfo.pack_double_or_arma i packed r_value
  | info_mat i => MatInfo.pack_double_or_arma i packed r_value
  end.

(* ===================================================================== *)
(** * nlopt wrapper *)

(** Termination codes of nlopt ([nlopt.h]). *)
Inductive nlopt_result : Type :=
| NLOPT_FAILURE
| NLOPT_INVALID_ARGS
| NLOPT_OUT_OF_MEMORY
| NLOPT_ROUNDOFF_LIMITED
| NLOPT_FORCED_STOP
| NLOPT_SUCCESS
| NLOPT_STOPVAL_REACHED
| NLOPT_FTOL_REACHED
| NLOPT_XTOL_REACHED
| NLOPT_MAXEVAL_REACHED
| NLOPT_MAXTIME_REACHED.

(** [static_cast<int>(status)]. *)
Definition nlopt_result_code (r : nlopt_result) : Z :=
  match r with
  | NLOPT_FAILURE => -1
  | NLOPT_INVALID_ARGS => -2
  | NLOPT_OUT_OF_MEMORY => -3
  | NLOPT_ROUNDOFF_LIMITED => -4
  | NLOPT_FORCED_STOP => -5
  | NLOPT_SUCCESS => 1
  | NLOPT_STOPVAL_REACHED => 2
  | NLOPT_FTOL_REACHED => 3
  | NLOPT_XTOL_REACHED => 4
  | NLOPT_MAXEVAL_REACHED => 5
  | NLOPT_MAXTIME_REACHED => 6
  end%Z.

Definition is_NLOPT_SUCCESS (r : nlopt_result) : bool :=
  match r with NLOPT_SUCCESS => true | _ => false end.

(** Required configuration values for using an optimizer. *)
Record OptimizerConfiguration : Type :=
  { algorithm : nlopt_algorithm;
    xtol_abs : vec;
    xtol_rel : R;
    ftol_abs : R;
    ftol_rel : R;
    maxeval : Z;
    maxtime : R }.

(** [arma::vec(n)]: fresh storage of [n] elements. *)
Definition arma_vec_new (n : uword) : vec := repeat 0%R (N.to_nat n).

(** [OptimizerConfiguration::from_r_list].  The members are initialised in
    declaration order, after the special handling of [xtol_abs]. *)
Definition from_r_list (r_list : list (string * SEXP)) (packer_size : uword)
  (pack_xtol_abs : vec -> list (string * SEXP) -> result vec)
  : result OptimizerConfiguration :=
  let xtol_abs0 := arma_vec_new packer_size in
  xtol_abs_r_value <- List_get r_list "xtol_abs" ;;
  xtol_abs1 <-
    (if Rcpp_is_double xtol_abs_r_value then
       x <- Rcpp_as_double xtol_abs_r_value ;;
       Ok (repeat x (length xtol_abs0))
     else if Rcpp_is_List xtol_abs_r_value then
       l <- Rcpp_as_List xtol_abs_r_value ;;
       pack_xtol_abs xtol_abs0 l
     else
       Throw (Rcpp_exception
         "unsupported config[xtol_abs] type: must be double or list of by-parameter values")) ;;
  algorithm_r <- List_get r_list "algorithm" ;;
  algorithm_name <- Rcpp_as_string algorithm_r ;;
  a <- algorithm_from_name algorithm_name ;;
  xtol_rel_r <- List_get r_list "xtol_rel" ;;
  xr <- Rcpp_as_double xtol_rel_r ;;
  ftol_abs_r <- List_get r_list "ftol_abs" ;;
  fa <- Rcpp_as_double ftol_abs_r ;;
  ftol_rel_r <- List_get r_list "ftol_rel" ;;
  fr <- Rcpp_as_double ftol_rel_r ;;
  maxeval_r <- List_get r_list "maxeval" ;;
  me <- Rcpp_as_int maxeval_r ;;
  maxtime_r <- List_get r_list "maxtime" ;;
  mt <- Rcpp_as_double maxtime_r ;;
  Ok {| algorithm := a; xtol_abs := xtol_abs1; xtol_rel := xr;
        ftol_abs := fa; ftol_rel := fr; maxeval := me; maxtime := mt |}.

Record OptimizerResult : Type :=
  { status : nlopt_result; objective : R; nb_iterations : Z }.

(** What the objective callback hands back to nlopt: a finite value with the
    gradient array it filled, or values that are not finite. *)
Definition evaluation : Type := option (R * vec).

(** One run of [nlopt_optimize], seen from the callback: the optimizer either
    asks for the objective at a trial point [x], passing the gradient array
    [grad] to fill, and goes on with what it receives, or stops with a
    status, its final point and the objective value there. *)
Inductive optimizer_run : Type :=
| Finished (st : nlopt_result) (x : vec) (minf : R)
| Evaluate (x : vec) (grad : vec) (k : evaluation -> optimizer_run).

(** The capabilities of the external optimizer this file uses.  [nlopt_opt]
    is the state behind the handle; [nlopt_create] yields no handle when the
    library refuses. *)
Record nlopt_library : Type :=
  { nlopt_opt : Type;
    nlopt_create : nlopt_algorithm -> N -> option nlopt_opt;
    nlopt_set_xtol_abs : nlopt_opt -> vec -> nlopt_result * nlopt_opt;
    nlopt_set_xtol_rel : nlopt_opt -> R -> nlopt_result * nlopt_opt;
    nlopt_set_ftol_abs : nlopt_opt -> R -> nlopt_result * nlopt_opt;
    nlopt_set_ftol_rel : nlopt_opt -> R -> nlopt_result * nlopt_opt;
    nlopt_set_maxeval : nlopt_opt -> Z -> nlopt_result * nlopt_opt;
    nlopt_set_maxtime : nlopt_opt -> R -> nlopt_result * nlopt_opt;
    nlopt_set_min_objective : nlopt_opt -> nlopt_result * nlopt_opt;
    nlopt_optimize : nlopt_opt -> vec -> optimizer_run }.

(** What happened to the optimizer during a call, in order. *)
Inductive event : Type :=
| ev_create (a : nlopt_algorithm) (n : N)
| ev_destroy
| ev_objective (x : vec).

(** The state a call of the driver leaves behind: the parameters vector it
    was given by reference, the events, and what it returned or threw. *)
Record driver_outcome : Type :=
  { out_parameters : vec;
    out_events : list event;
    out_result : result OptimizerResult }.

(** [unsigned] is 32 bits wide: the conversion of [parameters.n_elem] in the
    call of [nlopt_create]. *)
Definition unsigned_of_uword (n : uword) : N := (n mod 2 ^ 32)%N.

(** The data behind the [void *] of the callback. *)
Record OptimData : Type :=
  { od_nb_iterations : Z;
    od_objective_and_grad_fn : vec -> vec -> result (R * vec) }.

(** The adapter [optim_fn]: views the raw arrays as vectors, counts the
    call, and runs the closure. *)
Definition optim_fn (x grad : vec) (data : OptimData)
  : result (R * vec) * OptimData :=
  let data' := {| od_nb_iterations := od_nb_iterations data + 1;
                  od_objective_and_grad_fn := od_objective_and_grad_fn data |}
  in (od_objective_and_grad_fn data' x grad, data').

(** [nlopt_optimize] driving [optim_fn].  Returns what the optimizer returned
    (or the exception that escaped the closure), the callback data and the
    trial points, latest first. *)
Fixpoint run_optimizer (run : optimizer_run) (data : OptimData)
  (trace : list vec) : result (nlopt_result * vec * R) * OptimData * list vec :=
  match run with
  | Finished st x minf => (Ok (st, x, minf), data, trace)
  | Evaluate x grad k =>
      let (answer, data') := optim_fn x grad data in
      match answer with
      | Ok (value, grad') =>
          run_optimizer (k (Some (value, grad'))) data' (x :: trace)
      | NonFinite => run_optimizer (k None) data' (x :: trace)
      | Throw e => (Throw e, data', x :: trace)
      end
  end.

(** The lambda [check]: a setter that does not report success becomes an
    exception carrying [reason]. *)
Definition check (r : nlopt_result) (reason : string) : result unit :=
  if is_NLOPT_SUCCESS r then Ok tt else Throw (Rcpp_exception reason).

Section Driver.
Variable lib : nlopt_library.

(** Set optimizer configuration, with error checking. *)
Definition configure (optimizer : nlopt_opt lib)
  (config : OptimizerConfiguration) : result (nlopt_opt lib) :=
  let (r1, o1) := nlopt_set_xtol_abs lib optimizer (xtol_abs config) in
  _ <- check r1 "nlopt_set_xtol_abs" ;;
  let (r2, o2) := nlopt_set_xtol_rel lib o1 (xtol_rel config) in
  _ <- check r2 "nlopt_set_xtol_rel" ;;
  let (r3, o3) := nlopt_set_ftol_abs lib o2 (ftol_abs config) in
  _ <- check r3 "nlopt_set_ftol_abs" ;;
  let (r4, o4) := nlopt_set_ftol_rel lib o3 (ftol_rel config) in
  _ <- check r4 "nlopt_set_ftol_rel" ;;
  let (r5, o5) := nlopt_set_maxeval lib o4 (maxeval config) in
  _ <- check r5 "nlopt_set_maxeval" ;;
  let (r6, o6) := nlopt_set_maxtime lib o5 (maxtime config) in
  _ <- check r6 "nlopt_set_maxtime" ;;
  let (r7, o7) := nlopt_set_min_objective lib o6 in
  _ <- check r7 "nlopt_set_min_objective" ;;
  Ok o7.

(** Find parameters minimizing the given objective function, under the
    given configuration.  The handle lives in a [unique_ptr]: once created
    it is destroyed on every way out.  When an exception escapes the
    closure, what the optimizer had written to [parameters] by then is not
    tracked: the outcome keeps the initial vector. *)
Definition minimize_objective_on_parameters (parameters : vec)
  (config : OptimizerConfiguration)
  (objective_and_grad_fn : vec -> vec -> result (R * vec))
  : driver_outcome :=
  if negb (N.eqb (vec_n_elem (xtol_abs config)) (vec_n_elem parameters))
  then {| out_parameters := parameters; out_events := [];
          out_result := Throw (Rcpp_exception "config.xtol_abs size") |}
  else
    let n := unsigned_of_uword (vec_n_elem parameters) in
    match nlopt_create lib (algorithm config) n with
    | None =>
        {| out_parameters := parameters; out_events := [];
           out_result := Throw (Rcpp_exception "nlopt_create") |}
    | Some optimizer =>
        let created := ev_create (algorithm config) n in
        match configure optimizer config with
        | Ok optimizer' =>
            let optim_data :=
              {| od_nb_iterations := 0;
                 od_objective_and_grad_fn := objective_and_grad_fn |} in
            match run_optimizer (nlopt_optimize lib optimizer' parameters)
                    optim_data [] with
            | (Ok (st, x, minf), optim_data', trace) =>
                {| out_parameters := x;
                   out_events := created :: map ev_objective (rev trace)
                                 ++ [ev_destroy];
                   out_result :=
                     Ok {| status := st; objective := minf;
                           nb_iterations := od_nb_iterations optim_data' |}
                |}
            | (NonFinite, _, trace) =>
                {| out_parameters := parameters;
                   out_events := created :: map ev_objective (rev trace)
                                 ++ [ev_destroy];
                   out_result := NonFinite |}
            | (Throw e, _, trace) =>
                {| out_parameters := parameters;
                   out_events := created :: map ev_objective (rev trace)
                                 ++ [ev_destroy];
                   out_result := Throw e |}
            end
        | NonFinite =>
            {| out_parameters := parameters;
               out_events := [created; ev_destroy];
               out_result := NonFinite |}
        | Throw e =>
            {| out_parameters := parameters;
               out_events := [created; ev_destroy];
               out_result := Throw e |}
        end
    end.
End Driver.

(* ===================================================================== *)
(** * Armadillo expressions used by the objectives *)

(** In Armadillo a vector is a matrix with one column (or one row): the
    objectives below use the single type [mat] for [arma::mat], [arma::vec]
    and [arma::rowvec].  Operations that Armadillo checks for conforming
    sizes throw [arma_logic_error]. *)

Open Scope R_scope.

(** [m(i, j)], without bounds check. *)
Definition mat_at (m : mat) (i j : nat) : R :=
  nth (i + j * n_rows m) (mem m) 0.

(** The [r x c] matrix with entry [f i j] at [(i, j)], stored column by
    column. *)
Definition mat_init (r c : nat) (f : nat -> nat -> R) : mat :=
  Mat r c (map (fun k => f (k mod r)%nat (k / r)%nat) (seq 0 (r * c))).

(** Sum of [f 0 .. f (n - 1)]. *)
Definition big_sum (n : nat) (f : nat -> R) : R :=
  fold_right Rplus 0 (map f (seq 0 n)).

Definition same_size (a b : mat) : bool :=
  Nat.eqb (n_rows a) (n_rows b) && Nat.eqb (n_cols a) (n_cols b).

(** Element-wise binary operations: [a + b], [a - b], [a % b]. *)
Definition elementwise (what : string) (op : R -> R -> R) (a b : mat)
  : result mat :=
  if same_size a b
  then Ok (mat_init (n_rows a) (n_cols a)
             (fun i j => op (mat_at a i j) (mat_at b i j)))
  else Throw (arma_logic_error what).

Definition mat_plus : mat -> mat -> result mat := elementwise "addition" Rplus.
Definition mat_minus : mat -> mat -> result mat :=
  elementwise "subtraction" Rminus.
Definition schur : mat -> mat -> result mat :=
  elementwise "element-wise multiplication" Rmult.

(** Element-wise unary operations. *)
Definition mat_map (f : R -> R) (a : mat) : mat :=
  Mat (n_rows a) (n_cols a) (map f (mem a)).

(** [s * a], [a * s], [a + s], [a - s], [exp(a)], [pow(a, 2)]. *)
Definition scale (s : R) (a : mat) : mat := mat_map (fun x => s * x) a.
Definition scale_right (a : mat) (s : R) : mat := mat_map (fun x => x * s) a.
Definition minus_scalar (a : mat) (s : R) : mat := mat_map (fun x => x - s) a.
Definition mat_exp (a : mat) : mat := mat_map exp a.
Definition pow2 (a : mat) : mat := mat_map (fun x => x * x) a.

(** Tests on doubles. *)
Definition Rpositive (x : R) : bool := if Rlt_dec 0 x then true else false.
Definition Rnonzero (x : R) : bool := if Req_dec_T x 0 then false else true.

(** [std::log(x)]: finite for positive [x] only. *)
Definition log_double (x : R) : result R :=
  if Rpositive x then Ok (ln x) else NonFinite.

(** [x / y] on doubles: finite for non-zero [y] only. *)
Definition div_double (x y : R) : result R :=
  if Rnonzero y then Ok (x / y) else NonFinite.

(** [log(a)]: finite when every element is positive. *)
Definition mat_log (a : mat) : result mat :=
  if forallb Rpositive (mem a) then Ok (mat_map ln a) else NonFinite.

(** [pow(a, -1)] and [1. / a]: finite when no element is zero. *)
Definition pow_m1 (a : mat) : result mat :=
  if forallb Rnonzero (mem a) then Ok (mat_map Rinv a) else NonFinite.

(** [a / s] for a double [s]. *)
Definition div_scalar (a : mat) (s : R) : result mat :=
  if Rnonzero s then Ok (mat_map (fun x => x / s) a) else NonFinite.

(** [a.t()]. *)
Definition trans (a : mat) : mat :=
  mat_init (n_cols a) (n_rows a) (fun i j => mat_at a j i).

(** [a * b], the matrix product. *)
Definition mat_mul (a b : mat) : result mat :=
  if Nat.eqb (n_cols a) (n_rows b)
  then Ok (mat_init (n_rows a) (n_cols b)
             (fun i j => big_sum (n_cols a)
                           (fun k => mat_at a i k * mat_at b k j)))
  else Throw (arma_logic_error "matrix multiplication").

(** [a.each_col() % v], [a.each_col() + v]: [v] is a column of [a.n_rows]
    elements. *)
Definition each_col (what : string) (op : R -> R -> R) (a v : mat)
  : result mat :=
  if Nat.eqb (n_rows v) (n_rows a) && Nat.eqb (n_cols v) 1
  then Ok (mat_init (n_rows a) (n_cols a)
             (fun i j => op (mat_at a i j) (mat_at v i 0)))
  else Throw (arma_logic_error what).

Definition each_col_schur : mat -> mat -> result mat :=
  each_col "each_col(): incompatible size" Rmult.
Definition each_col_plus : mat -> mat -> result mat :=
  each_col "each_col(): incompatible size" Rplus.

(** [a.each_row() % v]: [v] is a row of [a.n_cols] elements. *)
Definition each_row_schur (a v : mat) : result mat :=
  if Nat.eqb (n_rows v) 1 && Nat.eqb (n_cols v) (n_cols a)
  then Ok (mat_init (n_rows a) (n_cols a)
             (fun i j => mat_at a i j * mat_at v 0 j))
  else Throw (arma_logic_error "each_row(): incompatible size").

(** [a.each_row() / v]: finite when no element of [v] is zero. *)
Definition each_row_div (a v : mat) : result mat :=
  if Nat.eqb (n_rows v) 1 && Nat.eqb (n_cols v) (n_cols a)
  then if forallb Rnonzero (mem v)
       then Ok (mat_init (n_rows a) (n_cols a)
                  (fun i j => mat_at a i j / mat_at v 0 j))
       else NonFinite
  else Throw (arma_logic_error "each_row(): incompatible size").

Definition is_vector (a : mat) : bool :=
  Nat.eqb (n_rows a) 1 || Nat.eqb (n_cols a) 1.

(** [diagmat(a)]: for a vector, the square matrix with the vector on its
    diagonal; for a matrix, the matrix with everything off the diagonal set
    to zero. *)
Definition diagmat (a : mat) : mat :=
  if is_vector a
  then mat_init (length (mem a)) (length (mem a))
         (fun i j => if Nat.eqb i j then nth i (mem a) 0 else 0)
  else mat_init (n_rows a) (n_cols a)
         (fun i j => if Nat.eqb i j then mat_at a i j else 0).

(** [diagvec(a)]: the main diagonal, as a column. *)
Definition diagvec (a : mat) : mat :=
  mat_init (Nat.min (n_rows a) (n_cols a)) 1 (fun i _ => mat_at a i i).

(** [accu(a)]: the sum of all elements. *)
Definition accu (a : mat) : R := fold_right Rplus 0 (mem a).

(** [sum(a, 0)]: the row of column sums; [sum(a, 1)]: the column of row
    sums. *)
Definition sum0 (a : mat) : mat :=
  mat_init 1 (n_cols a) (fun _ j => big_sum (n_rows a) (fun i => mat_at a i j)).
Definition sum1 (a : mat) : mat :=
  mat_init (n_rows a) 1 (fun i _ => big_sum (n_cols a) (fun j => mat_at a i j)).

(** [trace(a)]. *)
Definition trace (a : mat) : R :=
  big_sum (Nat.min (n_rows a) (n_cols a)) (fun i => mat_at a i i).

(** [dot(a, b)]: both with the same number of elements. *)
Definition dot (a b : mat) : result R :=
  if Nat.eqb (length (mem a)) (length (mem b))
  then Ok (big_sum (length (mem a))
             (fun k => nth k (mem a) 0 * nth k (mem b) 0))
  else Throw (arma_logic_error "dot(): objects must have the same number of elements").

(** [as_scalar(a)]: the element of a 1x1 matrix. *)
Definition as_scalar (a : mat) : result R :=
  if Nat.eqb (length (mem a)) 1 then Ok (nth 0 (mem a) 0)
  else Throw (arma_logic_error "as_scalar(): expression must evaluate to exactly one element").

(** [a(i, j)], with bounds check. *)
Definition mat_elem (a : mat) (i j : nat) : result R :=
  if Nat.ltb i (n_rows a) && Nat.ltb j (n_cols a) then Ok (mat_at a i j)
  else Throw (arma_logic_error "Mat::operator(): index out of bounds").

Close Scope R_scope.

(* ===================================================================== *)
(** * Writing Armadillo expressions *)

Definition lift2 {A B C : Type} (f : A -> B -> result C)
  (a : result A) (b : result B) : result C :=
  x <- a ;; y <- b ;; f x y.

Definition fmap {A B : Type} (f : A -> B) (a : result A) : result B :=
  x <- a ;; Ok (f x).

(** A matrix that is already evaluated, inside an expression. *)
Definition evaluated (m : mat) : result mat := Ok m.
Coercion evaluated : mat >-> result.

Declare Scope arma_scope.
Delimit Scope arma_scope with arma.
Notation "a [+] b" := (lift2 mat_plus a b)
  (at level 50, left associativity) : arma_scope.
Notation "a [-] b" := (lift2 mat_minus a b)
  (at level 50, left associativity) : arma_scope.
Notation "a [*] b" := (lift2 mat_mul a b)
  (at level 40, left associativity) : arma_scope.
Notation "a [%] b" := (lift2 schur a b)
  (at level 40, left associativity) : arma_scope.
Notation "f <$> a" := (fmap f a)
  (at level 55, left associativity) : arma_scope.
Open Scope arma_scope.

(** The two routines of Armadillo whose results the objectives only pass
    on: [inv_sympd] and the real part of [log_det]. *)
Record arma_solvers : Type :=
  { inv_sympd : mat -> result mat;
    real_log_det : mat -> result R }.

(** A value unpacked into a variable of type [arma::mat] or [arma::vec]. *)
Definition as_mat (x : arma_value) : mat :=
  match x with
  | a_vec v => col_of_vec v
  | a_mat m => m
  end.

Definition unpack_mat (packer : Packer) (Index : nat) (packed : vec)
  : result mat :=
  as_mat <$> unpack packer Index packed.

Definition pack_mat (packer : Packer) (Index : nat) (packed : vec)
  (expr : result mat) : result vec :=
  e <- expr ;; pack packer Index packed (a_mat e).

(** The local variables of an objective closure that the statements below
    refer to, with the gradient array as the closure leaves it. *)
Record locals : Type :=
  { loc_S : mat;
    loc_Z : mat;
    loc_A : mat;
    loc_objective : R;
    loc_grad_storage : vec }.

(** What the closure itself hands back: the objective value and the
    gradient array. *)
Definition closure_return (l : result locals) : result (R * vec) :=
  (fun l => (loc_objective l, loc_grad_storage l)) <$> l.

(** [double(p)] for [p = Y.n_cols]. *)
Definition double_of_uword (n : nat) : R := INR n.

(* ===================================================================== *)
(** * What an exported function leaves behind *)

(** The events on the optimizer and what the function returned or threw. *)
Record entry_outcome (A : Type) : Type :=
  { eo_events : list event; eo_result : result A }.
Arguments eo_events {A} _.
Arguments eo_result {A} _.

(** Everything an exported function does before it calls the driver happens
    without an optimizer. *)
Definition before_optimizer {A B : Type} (prepared : result A)
  (k : A -> entry_outcome B) : entry_outcome B :=
  match prepared with
  | Ok a => k a
  | NonFinite => {| eo_events := []; eo_result := NonFinite |}
  | Throw e => {| eo_events := []; eo_result := Throw e |}
  end.

(** [Rcpp::as<arma::mat>(list[name])] and [Rcpp::as<arma::vec>(list[name])],
    the latter as a one-column matrix. *)
Definition List_get_mat (l : list (string * SEXP)) (nm : string) : result mat :=
  x <- List_get l nm ;; Rcpp_as_mat x.
Definition List_get_vec (l : list (string * SEXP)) (nm : string) : result vec :=
  x <- List_get l nm ;; Rcpp_as_vec x.

(** The local variables of the step after the optimization that the
    statements below refer to.  The log-likelihood vector is not modelled. *)
Record post_locals : Type :=
  { post_M : mat;
    post_S : mat;
    post_S2 : mat;
    post_Z : mat;
    post_A : mat;
    post_Sigma : option mat;
    post_Omega : option mat }.

(** What the exported functions return: the status and iteration count of
    the driver, and the values computed from the final parameters. *)
Record fit (P : Type) : Type :=
  { fit_status : Z; fit_iterations : Z; fit_post : P }.
Arguments fit_status {P} _.
Arguments fit_iterations {P} _.
Arguments fit_post {P} _.

(** [arma::eye(p, p)]. *)
Definition eye (p : nat) : mat :=
  mat_init p p (fun i j => if Nat.eqb i j then 1%R else 0%R).

(** The common tail of the exported functions: run the driver on the
    closure, then the step after the optimization on the final parameters. *)
Definition optimize_then {P : Type} (lib : nlopt_library) (parameters : vec)
  (config : OptimizerConfiguration)
  (objective_and_grad : vec -> vec -> result (R * vec))
  (post_run : vec -> result P) : entry_outcome (fit P) :=
  let out := minimize_objective_on_parameters lib parameters config
               objective_and_grad in
  {| eo_events := out_events out;
     eo_result :=
       r <- out_result out ;;
       post <- post_run (out_parameters out) ;;
       Ok {| fit_status := nlopt_result_code (status r);
             fit_iterations := nb_iterations r;
             fit_post := post |} |}.

(* ===================================================================== *)
(** * Fully parametrized covariance *)

Module Full.
Definition THETA_ID := 0%nat.
Definition M_ID := 1%nat.
Definition S_ID := 2%nat.

Section Closure.
Variables (la : arma_solvers) (packer : Packer) (Y X O w : mat) (w_bar : R).
Open Scope R_scope.

(** The lambda [objective_and_grad] of [cpp_optimize_full]
    (lines 331-347), with its local variables as result. *)
Definition objective_and_grad_locals (parameters grad_storage : vec)
  : result locals :=
  Theta <- unpack_mat packer THETA_ID parameters ;;
  M <- unpack_mat packer M_ID parameters ;;
  S <- unpack_mat packer S_ID parameters ;;
  S2 <- S [%] S ;;
  Z <- O [+] X [*] trans Theta [+] M ;;
  A <- mat_exp <$> (Z [+] scale 0.5 S2) ;;
  Omega <- scale w_bar <$>
    (nSigma <- trans M [*] each_col_schur M w
               [+] (diagmat <$> (trans w [*] S2)) ;;
     inv_sympd la nSigma) ;;
  sum_term <- accu <$>
    (trans w [*] (A [-] Y [%] Z [-] (scale 0.5 <$> mat_log S2))) ;;
  log_det_Omega <- real_log_det la Omega ;;
  let objective := sum_term - 0.5 * w_bar * log_det_Omega in
  g1 <- pack_mat packer THETA_ID grad_storage
          ((trans <$> (A [-] Y)) [*] each_col_schur X w) ;;
  g2 <- pack_mat packer M_ID g1
          (diagmat w [*] (M [*] Omega [+] A [-] Y)) ;;
  g3 <- pack_mat packer S_ID g2
          (diagmat w [*] (each_row_schur S (trans (diagvec Omega))
                          [+] S [%] A [-] pow_m1 S)) ;;
  Ok {| loc_S := S; loc_Z := Z; loc_A := A;
        loc_objective := objective; loc_grad_storage := g3 |}.

(** The lambda itself. *)
Definition objective_and_grad (parameters grad_storage : vec)
  : result (R * vec) :=
  closure_return (objective_and_grad_locals parameters grad_storage).
End Closure.

(** Conversion from R, prepare optimization. *)
Definition prepare (init_parameters configuration : list (string * SEXP))
  : result (Packer * vec * OptimizerConfiguration) :=
  init_Theta <- List_get_mat init_parameters "Theta" ;;
  init_M <- List_get_mat init_parameters "M" ;;
  init_S <- List_get_mat init_parameters "S" ;;
  let packer := make_packer [a_mat init_Theta; a_mat init_M; a_mat init_S] in
  let parameters := arma_vec_new (size packer) in
  parameters <- pack packer THETA_ID parameters (a_mat init_Theta) ;;
  parameters <- pack packer M_ID parameters (a_mat init_M) ;;
  parameters <- pack packer S_ID parameters (a_mat init_S) ;;
  let pack_xtol_abs := fun (packed : vec) (l : list (string * SEXP)) =>
    r_Theta <- List_get l "Theta" ;;
    packed <- pack_double_or_arma packer THETA_ID packed r_Theta ;;
    r_M <- List_get l "M" ;;
    packed <- pack_double_or_arma packer M_ID packed r_M ;;
    r_S <- List_get l "S" ;;
    pack_double_or_arma packer S_ID packed r_S in
  config <- from_r_list configuration (size packer) pack_xtol_abs ;;
  Ok (packer, parameters, config).

(** The step after the optimization. *)
Definition post_run (la : arma_solvers) (packer : Packer) (Y X O w : mat)
  (w_bar : R) (parameters : vec) : result post_locals :=
  M <- unpack_mat packer M_ID parameters ;;
  S <- unpack_mat packer S_ID parameters ;;
  S2 <- S [%] S ;;
  Theta <- unpack_mat packer THETA_ID parameters ;;
  inv_w_bar <- div_double 1 w_bar ;;
  Sigma <- scale inv_w_bar <$>
    (trans M [*] each_col_schur M w
     [+] (diagmat <$> (sum0 <$> each_col_schur S2 w))) ;;
  Omega <- inv_sympd la Sigma ;;
  Z <- O [+] X [*] trans Theta [+] M ;;
  A <- mat_exp <$> (Z [+] scale 0.5 S2) ;;
  Ok {| post_M := M; post_S := S; post_S2 := S2; post_Z := Z; post_A := A;
        post_Sigma := Some Sigma; post_Omega := Some Omega |}.
End Full.

Definition cpp_optimize_full (lib : nlopt_library) (la : arma_solvers)
  (init_parameters : list (string * SEXP)) (Y X O w : mat)
  (configuration : list (string * SEXP)) : entry_outcome (fit post_locals) :=
  before_optimizer (Full.prepare init_parameters configuration)
    (fun '(packer, parameters, config) =>
       let w_bar := accu w in
       optimize_then lib parameters config
         (Full.objective_and_grad la packer Y X O w w_bar)
         (Full.post_run la packer Y X O w w_bar)).

(* ===================================================================== *)
(** * Spherical covariance *)

Module Spherical.
Definition THETA_ID := 0%nat.
Definition M_ID := 1%nat.
Definition S_ID := 2%nat.

Section Closure.
Variables (packer : Packer) (Y X O w : mat) (w_bar : R).
Open Scope R_scope.

(** The lambda [objective_and_grad] of [cpp_optimize_spherical]
    (lines 413-431), with its local variables as result. *)
Definition objective_and_grad_locals (parameters grad_storage : vec)
  : result locals :=
  Theta <- unpack_mat packer THETA_ID parameters ;;
  M <- unpack_mat packer M_ID parameters ;;
  S <- unpack_mat packer S_ID parameters ;;
  S2 <- S [%] S ;;
  let p := double_of_uword (n_cols Y) in
  Z <- O [+] X [*] trans Theta [+] M ;;
  A <- mat_exp <$> each_col_plus Z (scale 0.5 S2) ;;
  accu_M <- accu <$> (M [%] each_col_schur M w) ;;
  q_M <- div_double accu_M (w_bar * p) ;;
  accu_S <- accu <$> (w [%] S2) ;;
  q_S <- div_double accu_S w_bar ;;
  let sigma2 := q_M + q_S in
  sum_term <- accu <$> (diagmat w [*] (A [-] Y [%] Z)) ;;
  log_term <- accu <$> (w [%] mat_log S2) ;;
  log_sigma2 <- log_double sigma2 ;;
  let objective :=
    sum_term - 0.5 * p * log_term + 0.5 * w_bar * p * log_sigma2 in
  g1 <- pack_mat packer THETA_ID grad_storage
          ((trans <$> (A [-] Y)) [*] each_col_schur X w) ;;
  g2 <- pack_mat packer M_ID g1
          (diagmat w [*] (div_scalar M sigma2 [+] A [-] Y)) ;;
  g3 <- pack_mat packer S_ID g2
          (w [%] (S [%] sum1 A [-] (scale p <$> pow_m1 S)
                  [-] div_scalar (scale p S) sigma2)) ;;
  Ok {| loc_S := S; loc_Z := Z; loc_A := A;
        loc_objective := objective; loc_grad_storage := g3 |}.

(** The lambda itself. *)
Definition objective_and_grad (parameters grad_storage : vec)
  : result (R * vec) :=
  closure_return (objective_and_grad_locals parameters grad_storage).
End Closure.

(** Conversion from R, prepare optimization. *)
Definition prepare (init_parameters configuration : list (string * SEXP))
  : result (Packer * vec * OptimizerConfiguration) :=
  init_Theta <- List_get_mat init_parameters "Theta" ;;
  init_M <- List_get_mat init_parameters "M" ;;
  init_S <- List_get_vec init_parameters "S" ;;
  let packer := make_packer [a_mat init_Theta; a_mat init_M; a_vec init_S] in
  let parameters := arma_vec_new (size packer) in
  parameters <- pack packer THETA_ID parameters (a_mat init_Theta) ;;
  parameters <- pack packer M_ID parameters (a_mat init_M) ;;
  parameters <- pack packer S_ID parameters (a_vec init_S) ;;
  let pack_xtol_abs := fun (packed : vec) (l : list (string * SEXP)) =>
    r_Theta <- List_get l "Theta" ;;
    packed <- pack_double_or_arma packer THETA_ID packed r_Theta ;;
    r_M <- List_get l "M" ;;
    packed <- pack_double_or_arma packer M_ID packed r_M ;;
    r_S <- List_get l "S" ;;
    pack_double_or_arma packer S_ID packed r_S in
  config <- from_r_list configuration (size packer) pack_xtol_abs ;;
  Ok (packer, parameters, config).

(** The step after the optimization; the second component is the local
    [sigma2]. *)
Definition post_run (packer : Packer) (Y X O w : mat) (w_bar : R)
  (parameters : vec) : result (post_locals * R) :=
  M <- unpack_mat packer M_ID parameters ;;
  S <- unpack_mat packer S_ID parameters ;;
  S2 <- S [%] S ;;
  Theta <- unpack_mat packer THETA_ID parameters ;;
  let p := double_of_uword (n_cols Y) in
  n_sigma2 <- lift2 dot w (sum1 (pow2 M) [+] scale p S2) ;;
  sigma2 <- div_double n_sigma2 (p * w_bar) ;;
  let Sigma := scale_right (eye (n_cols Y)) sigma2 in
  inv_sigma2 <- div_double 1 sigma2 ;;
  let Omega := scale_right (eye (n_cols Y)) inv_sigma2 in
  Z <- O [+] X [*] trans Theta [+] M ;;
  A <- mat_exp <$> each_col_plus Z (scale 0.5 S2) ;;
  Ok ({| post_M := M; post_S := S; post_S2 := S2; post_Z := Z; post_A := A;
         post_Sigma := Some Sigma; post_Omega := Some Omega |}, sigma2).
End Spherical.

Definition cpp_optimize_spherical (lib : nlopt_library)
  (init_parameters : list (string * SEXP)) (Y X O w : mat)
  (configuration : list (string * SEXP))
  : entry_outcome (fit (post_locals * R)) :=
  before_optimizer (Spherical.prepare init_parameters configuration)
    (fun '(packer, parameters, config) =>
       let w_bar := accu w in
       optimize_then lib parameters config
         (Spherical.objective_and_grad packer Y X O w w_bar)
         (Spherical.post_run packer Y X O w w_bar)).

(* ===================================================================== *)
(** * Diagonal covariance *)

Module Diagonal.
Definition THETA_ID := 0%nat.
Definition M_ID := 1%nat.
Definition S_ID := 2%nat.

Section Closure.
Variables (packer : Packer) (Y X O w : mat) (w_bar : R).
Open Scope R_scope.

(** The lambda [objective_and_grad] of [cpp_optimize_diagonal]
    (lines 500-516), with its local variables as result. *)
Definition objective_and_grad_locals (parameters grad_storage : vec)
  : result locals :=
  Theta <- unpack_mat packer THETA_ID parameters ;;
  M <- unpack_mat packer M_ID parameters ;;
  S <- unpack_mat packer S_ID parameters ;;
  S2 <- S [%] S ;;
  Z <- O [+] X [*] trans Theta [+] M ;;
  A <- mat_exp <$> (Z [+] scale 0.5 S2) ;;
  sums <- sum0 <$> (M [%] each_col_schur M w [+] each_col_schur S2 w) ;;
  diag_sigma <- div_scalar sums w_bar ;;
  sum_term <- accu <$>
    (diagmat w [*] (A [-] Y [%] Z [-] (scale 0.5 <$> mat_log S2))) ;;
  log_term <- accu <$> mat_log diag_sigma ;;
  let objective := sum_term + 0.5 * w_bar * log_term in
  g1 <- pack_mat packer THETA_ID grad_storage
          ((trans <$> (A [-] Y)) [*] each_col_schur X w) ;;
  g2 <- pack_mat packer M_ID g1
          (diagmat w [*] (each_row_div M diag_sigma [+] A [-] Y)) ;;
  g3 <- pack_mat packer S_ID g2
          (diagmat w [*] (lift2 each_row_schur S (pow_m1 diag_sigma)
                          [+] S [%] A [-] pow_m1 S)) ;;
  Ok {| loc_S := S; loc_Z := Z; loc_A := A;
        loc_objective := objective; loc_grad_storage := g3 |}.

(** The lambda itself. *)
Definition objective_and_grad (parameters grad_storage : vec)
  : result (R * vec) :=
  closure_return (objective_and_grad_locals parameters grad_storage).
End Closure.

(** Conversion from R, prepare optimization. *)
Definition prepare (init_parameters configuration : list (string * SEXP))
  : result (Packer * vec * OptimizerConfiguration) :=
  init_Theta <- List_get_mat init_parameters "Theta" ;;
  init_M <- List_get_mat init_parameters "M" ;;
  init_S <- List_get_mat init_parameters "S" ;;
  let packer := make_packer [a_mat init_Theta; a_mat init_M; a_mat init_S] in
  let parameters := arma_vec_new (size packer) in
  parameters <- pack packer THETA_ID parameters (a_mat init_Theta) ;;
  parameters <- pack packer M_ID parameters (a_mat init_M) ;;
  parameters <- pack packer S_ID parameters (a_mat init_S) ;;
  let pack_xtol_abs := fun (packed : vec) (l : list (string * SEXP)) =>
    r_Theta <- List_get l "Theta" ;;
    packed <- pack_double_or_arma packer THETA_ID packed r_Theta ;;
    r_M <- List_get l "M" ;;
    packed <- pack_double_or_arma packer M_ID packed r_M ;;
    r_S <- List_get l "S" ;;
    pack_double_or_arma packer S_ID packed r_S in
  config <- from_r_list configuration (size packer) pack_xtol_abs ;;
  Ok (packer, parameters, config).

(** The step after the optimization; the second component is the local
    row vector [sigma2]. *)
Definition post_run (packer : Packer) (Y X O w : mat) (w_bar : R)
  (parameters : vec) : result (post_locals * mat) :=
  M <- unpack_mat packer M_ID parameters ;;
  S <- unpack_mat packer S_ID parameters ;;
  S2 <- S [%] S ;;
  Theta <- unpack_mat packer THETA_ID parameters ;;
  weighted <- trans w [*] (pow2 M [+] S2) ;;
  sigma2 <- div_scalar weighted w_bar ;;
  omega2 <- pow_m1 (trans sigma2) ;;
  let Sigma := diagmat sigma2 in
  let Omega := diagmat omega2 in
  Z <- O [+] X [*] trans Theta [+] M ;;
  A <- mat_exp <$> (Z [+] scale 0.5 S2) ;;
  Ok ({| post_M := M; post_S := S; post_S2 := S2; post_Z := Z; post_A := A;
         post_Sigma := Some Sigma; post_Omega := Some Omega |}, sigma2).
End Diagonal.

Definition cpp_optimize_diagonal (lib : nlopt_library)
  (init_parameters : list (string * SEXP)) (Y X O w : mat)
  (configuration : list (string * SEXP))
  : entry_outcome (fit (post_locals * mat)) :=
  before_optimizer (Diagonal.prepare init_parameters configuration)
    (fun '(packer, parameters, config) =>
       let w_bar := accu w in
       optimize_then lib parameters config
         (Diagonal.objective_and_grad packer Y X O w w_bar)
         (Diagonal.post_run packer Y X O w w_bar)).

(* ===================================================================== *)
(** * Rank-constrained covariance *)

Module Rank.
Definition THETA_ID := 0%nat.
Definition B_ID := 1%nat.
Definition M_ID := 2%nat.
Definition S_ID := 3%nat.

Section Closure.
Variables (packer : Packer) (Y X O w : mat).
Open Scope R_scope.

(** The lambda [objective_and_grad] of [cpp_optimize_rank]
    (lines 587-604), with its local variables as result. *)
Definition objective_and_grad_locals (parameters grad_storage : vec)
  : result locals :=
  Theta <- unpack_mat packer THETA_ID parameters ;;
  B <- unpack_mat packer B_ID parameters ;;
  M <- unpack_mat packer M_ID parameters ;;
  S <- unpack_mat packer S_ID parameters ;;
  S2 <- S [%] S ;;
  Z <- O [+] X [*] trans Theta [+] M [*] trans B ;;
  A <- mat_exp <$> (Z [+] scale 0.5 S2 [*] (trans <$> (B [%] B))) ;;
  sum_term <- accu <$> (diagmat w [*] (A [-] Y [%] Z)) ;;
  kl_term <- accu <$>
    (diagmat w [*] ((fun m => minus_scalar m 1) <$>
                      (M [%] M [+] S2 [-] mat_log S2))) ;;
  let objective := sum_term + 0.5 * kl_term in
  g1 <- pack_mat packer THETA_ID grad_storage
          ((trans <$> (A [-] Y)) [*] each_col_schur X w) ;;
  g2 <- pack_mat packer B_ID g1
          ((trans <$> (diagmat w [*] (A [-] Y))) [*] M
           [+] (trans A [*] each_col_schur S2 w) [%] B) ;;
  g3 <- pack_mat packer M_ID g2
          (diagmat w [*] ((A [-] Y) [*] B [+] M)) ;;
  g4 <- pack_mat packer S_ID g3
          (diagmat w [*] (S [-] pow_m1 S [+] A [*] (B [%] B) [%] S)) ;;
  Ok {| loc_S := S; loc_Z := Z; loc_A := A;
        loc_objective := objective; loc_grad_storage := g4 |}.

(** The lambda itself. *)
Definition objective_and_grad (parameters grad_storage : vec)
  : result (R * vec) :=
  closure_return (objective_and_grad_locals parameters grad_storage).
End Closure.

(** Conversion from R, prepare optimization. *)
Definition prepare (init_parameters configuration : list (string * SEXP))
  : result (Packer * vec * OptimizerConfiguration) :=
  init_Theta <- List_get_mat init_parameters "Theta" ;;
  init_B <- List_get_mat init_parameters "B" ;;
  init_M <- List_get_mat init_parameters "M" ;;
  init_S <- List_get_mat init_parameters "S" ;;
  let packer :=
    make_packer [a_mat init_Theta; a_mat init_B; a_mat init_M; a_mat init_S] in
  let parameters := arma_vec_new (size packer) in
  parameters <- pack packer THETA_ID parameters (a_mat init_Theta) ;;
  parameters <- pack packer B_ID parameters (a_mat init_B) ;;
  parameters <- pack packer M_ID parameters (a_mat init_M) ;;
  parameters <- pack packer S_ID parameters (a_mat init_S) ;;
  let pack_xtol_abs := fun (packed : vec) (l : list (string * SEXP)) =>
    r_Theta <- List_get l "Theta" ;;
    packed <- pack_double_or_arma packer THETA_ID packed r_Theta ;;
    r_B <- List_get l "B" ;;
    packed <- pack_double_or_arma packer B_ID packed r_B ;;
    r_M <- List_get l "M" ;;
    packed <- pack_double_or_arma packer M_ID packed r_M ;;
    r_S <- List_get l "S" ;;
    pack_double_or_arma packer S_ID packed r_S in
  config <- from_r_list configuration (size packer) pack_xtol_abs ;;
  Ok (packer, parameters, config).

(** The step after the optimization. *)
Definition post_run (packer : Packer) (Y X O w : mat) (parameters : vec)
  : result post_locals :=
  Theta <- unpack_mat packer THETA_ID parameters ;;
  B <- unpack_mat packer B_ID parameters ;;
  M <- unpack_mat packer M_ID parameters ;;
  S <- unpack_mat packer S_ID parameters ;;
  S2 <- S [%] S ;;
  BnSigmaBt <- B [*] (trans M [*] each_col_schur M w
                      [+] (diagmat <$> (sum0 <$> each_col_schur S2 w)))
               [*] trans B ;;
  Sigma <- div_scalar BnSigmaBt (accu w) ;;
  Z <- O [+] X [*] trans Theta [+] M [*] trans B ;;
  A <- mat_exp <$> (Z [+] scale 0.5 S2 [*] (trans <$> (B [%] B))) ;;
  Ok {| post_M := M; post_S := S; post_S2 := S2; post_Z := Z; post_A := A;
        post_Sigma := Some Sigma; post_Omega := None |}.
End Rank.

Definition cpp_optimize_rank (lib : nlopt_library)
  (init_parameters : list (string * SEXP)) (Y X O w : mat)
  (configuration : list (string * SEXP)) : entry_outcome (fit post_locals) :=
  before_optimizer (Rank.prepare init_parameters configuration)
    (fun '(packer, parameters, config) =>
       optimize_then lib parameters config
         (Rank.objective_and_grad packer Y X O w)
         (Rank.post_run packer Y X O w)).

(* ===================================================================== *)
(** * Sparse inverse covariance *)

Module Sparse.
Definition THETA_ID := 0%nat.
Definition M_ID := 1%nat.
Definition S_ID := 2%nat.

Section Closure.
Variables (packer : Packer) (Y X O w Omega : mat).
Open Scope R_scope.

(** The lambda [objective_and_grad] of [cpp_optimize_sparse]
    (lines 666-682), with its local variables as result.  Its mean matrix
    is [exp(Z + 0.5 * S)], as the source has it. *)
Definition objective_and_grad_locals (parameters grad_storage : vec)
  : result locals :=
  Theta <- unpack_mat packer THETA_ID parameters ;;
  M <- unpack_mat packer M_ID parameters ;;
  S <- unpack_mat packer S_ID parameters ;;
  S2 <- S [%] S ;;
  Z <- O [+] X [*] trans Theta [+] M ;;
  A <- mat_exp <$> (Z [+] scale 0.5 S) ;;
  nSigma <- trans M [*] each_col_schur M w
            [+] (diagmat <$> (trans w [*] S2)) ;;
  sum_term <- accu <$>
    (trans w [*] (A [-] Y [%] Z [-] (scale 0.5 <$> mat_log S2))) ;;
  trace_term <- trace <$> (Omega [*] nSigma) ;;
  let objective := sum_term - trace_term in
  g1 <- pack_mat packer THETA_ID grad_storage
          ((trans <$> (A [-] Y)) [*] each_col_schur X w) ;;
  g2 <- pack_mat packer M_ID g1
          (diagmat w [*] (M [*] Omega [+] A [-] Y)) ;;
  g3 <- pack_mat packer S_ID g2
          (diagmat w [*] (each_row_schur S (trans (diagvec Omega))
                          [+] S [%] A [-] pow_m1 S)) ;;
  Ok {| loc_S := S; loc_Z := Z; loc_A := A;
        loc_objective := objective; loc_grad_storage := g3 |}.

(** The lambda itself. *)
Definition objective_and_grad (parameters grad_storage : vec)
  : result (R * vec) :=
  closure_return (objective_and_grad_locals parameters grad_storage).
End Closure.

(** Conversion from R, prepare optimization. *)
Definition prepare (init_parameters configuration : list (string * SEXP))
  : result (Packer * vec * OptimizerConfiguration) :=
  init_Theta <- List_get_mat init_parameters "Theta" ;;
  init_M <- List_get_mat init_parameters "M" ;;
  init_S <- List_get_mat init_parameters "S" ;;
  let packer := make_packer [a_mat init_Theta; a_mat init_M; a_mat init_S] in
  let parameters := arma_vec_new (size packer) in
  parameters <- pack packer THETA_ID parameters (a_mat init_Theta) ;;
  parameters <- pack packer M_ID parameters (a_mat init_M) ;;
  parameters <- pack packer S_ID parameters (a_mat init_S) ;;
  let pack_xtol_abs := fun (packed : vec) (l : list (string * SEXP)) =>
    r_Theta <- List_get l "Theta" ;;
    packed <- pack_double_or_arma packer THETA_ID packed r_Theta ;;
    r_M <- List_get l "M" ;;
    packed <- pack_double_or_arma packer M_ID packed r_M ;;
    r_S <- List_get l "S" ;;
    pack_double_or_arma packer S_ID packed r_S in
  config <- from_r_list configuration (size packer) pack_xtol_abs ;;
  Ok (packer, parameters, config).

(** The step after the optimization. *)
Definition post_run (packer : Packer) (Y X O w : mat) (parameters : vec)
  : result post_locals :=
  Theta <- unpack_mat packer THETA_ID parameters ;;
  M <- unpack_mat packer M_ID parameters ;;
  S <- unpack_mat packer S_ID parameters ;;
  S2 <- S [%] S ;;
  nSigma <- trans M [*] each_col_schur M w
            [+] (diagmat <$> (trans w [*] S2)) ;;
  Sigma <- div_scalar nSigma (accu w) ;;
  Z <- O [+] X [*] trans Theta [+] M ;;
  A <- mat_exp <$> (Z [+] scale 0.5 S2) ;;
  Ok {| post_M := M; post_S := S; post_S2 := S2; post_Z := Z; post_A := A;
        post_Sigma := Some Sigma; post_Omega := None |}.
End Sparse.

Definition cpp_optimize_sparse (lib : nlopt_library)
  (init_parameters : list (string * SEXP)) (Y X O w Omega : mat)
  (configuration : list (string * SEXP)) : entry_outcome (fit post_locals) :=
  before_optimizer (Sparse.prepare init_parameters configuration)
    (fun '(packer, parameters, config) =>
       optimize_then lib parameters config
         (Sparse.objective_and_grad packer Y X O w Omega)
         (Sparse.post_run packer Y X O w)).

(* ===================================================================== *)
(** * VE steps *)

Module VEstepFull.
Definition M_ID := 0%nat.
Definition S_ID := 1%nat.

Section Closure.
Variables (packer : Packer) (Y X O w Theta Omega : mat).
Open Scope R_scope.

(** The lambda [objective_and_grad] of [cpp_optimize_vestep_full]
    (lines 741-755), with its local variables as result. *)
Definition objective_and_grad_locals (parameters grad_storage : vec)
  : result locals :=
  M <- unpack_mat packer M_ID parameters ;;
  S <- unpack_mat packer S_ID parameters ;;
  S2 <- S [%] S ;;
  Z <- O [+] X [*] trans Theta [+] M ;;
  A <- mat_exp <$> (Z [+] scale 0.5 S2) ;;
  nSigma <- trans M [*] diagmat w [*] M
            [+] (diagmat <$> (sum0 <$> each_col_schur S2 w)) ;;
  sum_term <- accu <$>
    (trans w [*] (A [-] Y [%] Z [-] (scale 0.5 <$> mat_log S2))) ;;
  trace_term <- trace <$> (Omega [*] nSigma) ;;
  let objective := sum_term + 0.5 * trace_term in
  g1 <- pack_mat packer M_ID grad_storage
          (diagmat w [*] (M [*] Omega [+] A [-] Y)) ;;
  g2 <- pack_mat packer S_ID g1
          (diagmat w [*] (each_row_schur S (trans (diagvec Omega))
                          [+] S [%] A [-] pow_m1 S)) ;;
  Ok {| loc_S := S; loc_Z := Z; loc_A := A;
        loc_objective := objective; loc_grad_storage := g2 |}.

(** The lambda itself. *)
Definition objective_and_grad (parameters grad_storage : vec)
  : result (R * vec) :=
  closure_return (objective_and_grad_locals parameters grad_storage).
End Closure.

(** Conversion from R, prepare optimization. *)
Definition prepare (init_parameters configuration : list (string * SEXP))
  : result (Packer * vec * OptimizerConfiguration) :=
  init_M <- List_get_mat init_parameters "M" ;;
  init_S <- List_get_mat init_parameters "S" ;;
  let packer := make_packer [a_mat init_M; a_mat init_S] in
  let parameters := arma_vec_new (size packer) in
  parameters <- pack packer M_ID parameters (a_mat init_M) ;;
  parameters <- pack packer S_ID parameters (a_mat init_S) ;;
  let pack_xtol_abs := fun (packed : vec) (l : list (string * SEXP)) =>
    r_M <- List_get l "M" ;;
    packed <- pack_double_or_arma packer M_ID packed r_M ;;
    r_S <- List_get l "S" ;;
    pack_double_or_arma packer S_ID packed r_S in
  config <- from_r_list configuration (size packer) pack_xtol_abs ;;
  Ok (packer, parameters, config).

(** The step after the optimization. *)
Definition post_run (packer : Packer) (Y X O w Theta Omega : mat)
  (parameters : vec) : result post_locals :=
  M <- unpack_mat packer M_ID parameters ;;
  S <- unpack_mat packer S_ID parameters ;;
  S2 <- S [%] S ;;
  Z <- O [+] X [*] trans Theta [+] M ;;
  A <- mat_exp <$> (Z [+] scale 0.5 S2) ;;
  Ok {| post_M := M; post_S := S; post_S2 := S2; post_Z := Z; post_A := A;
        post_Sigma := None; post_Omega := None |}.
End VEstepFull.

Definition cpp_optimize_vestep_full (lib : nlopt_library)
  (init_parameters : list (string * SEXP)) (Y X O w Theta Omega : mat)
  (configuration : list (string * SEXP)) : entry_outcome (fit post_locals) :=
  before_optimizer (VEstepFull.prepare init_parameters configuration)
    (fun '(packer, parameters, config) =>
       optimize_then lib parameters config
         (VEstepFull.objective_and_grad packer Y X O w Theta Omega)
         (VEstepFull.post_run packer Y X O w Theta Omega)).

Module VEstepDiagonal.
Definition M_ID := 0%nat.
Definition S_ID := 1%nat.

Section Closure.
Variables (packer : Packer) (Y X O w Theta Omega : mat).
Open Scope R_scope.

(** The lambda [objective_and_grad] of [cpp_optimize_vestep_diagonal]
    (lines 805-820), with its local variables as result.  Its mean matrix
    is [exp(Z + 0.5 * S)], as the source has it. *)
Definition objective_and_grad_locals (parameters grad_storage : vec)
  : result locals :=
  M <- unpack_mat packer M_ID parameters ;;
  S <- unpack_mat packer S_ID parameters ;;
  S2 <- S [%] S ;;
  Z <- O [+] X [*] trans Theta [+] M ;;
  A <- mat_exp <$> (Z [+] scale 0.5 S) ;;
  let omega2 := diagvec Omega in
  sum_term <- accu <$>
    (trans w [*] (A [-] Y [%] Z [-] (scale 0.5 <$> mat_log S2))) ;;
  quad <- trans w [*] (pow2 M [+] S2) [*] omega2 ;;
  quad_term <- as_scalar quad ;;
  let objective := sum_term + 0.5 * quad_term in
  g1 <- pack_mat packer M_ID grad_storage
          (diagmat w [*] (M [*] Omega [+] A [-] Y)) ;;
  g2 <- pack_mat packer S_ID g1
          (diagmat w [*] (each_row_schur S omega2
                          [+] S [%] A [-] pow_m1 S)) ;;
  Ok {| loc_S := S; loc_Z := Z; loc_A := A;
        loc_objective := objective; loc_grad_storage := g2 |}.

(** The lambda itself. *)
Definition objective_and_grad (parameters grad_storage : vec)
  : result (R * vec) :=
  closure_return (objective_and_grad_locals parameters grad_storage).
End Closure.

(** Conversion from R, prepare optimization. *)
Definition prepare (init_parameters configuration : list (string * SEXP))
  : result (Packer * vec * OptimizerConfiguration) :=
  init_M <- List_get_mat init_parameters "M" ;;
  init_S <- List_get_mat init_parameters "S" ;;
  let packer := make_packer [a_mat init_M; a_mat init_S] in
  let parameters := arma_vec_new (size packer) in
  parameters <- pack packer M_ID parameters (a_mat init_M) ;;
  parameters <- pack packer S_ID parameters (a_mat init_S) ;;
  let pack_xtol_abs := fun (packed : vec) (l : list (string * SEXP)) =>
    r_M <- List_get l "M" ;;
    packed <- pack_double_or_arma packer M_ID packed r_M ;;
    r_S <- List_get l "S" ;;
    pack_double_or_arma packer S_ID packed r_S in
  config <- from_r_list configuration (size packer) pack_xtol_abs ;;
  Ok (packer, parameters, config).

(** The step after the optimization. *)
Definition post_run (packer : Packer) (Y X O w Theta Omega : mat)
  (parameters : vec) : result post_locals :=
  M <- unpack_mat packer M_ID parameters ;;
  S <- unpack_mat packer S_ID parameters ;;
  S2 <- S [%] S ;;
  Z <- O [+] X [*] trans Theta [+] M ;;
  A <- mat_exp <$> (Z [+] scale 0.5 S2) ;;
  Ok {| post_M := M; post_S := S; post_S2 := S2; post_Z := Z; post_A := A;
        post_Sigma := None; post_Omega := None |}.
End VEstepDiagonal.

Definition cpp_optimize_vestep_diagonal (lib : nlopt_library)
  (init_parameters : list (string * SEXP)) (Y X O w Theta Omega : mat)
  (configuration : list (string * SEXP)) : entry_outcome (fit post_locals) :=
  before_optimizer (VEstepDiagonal.prepare init_parameters configuration)
    (fun '(packer, parameters, config) =>
       optimize_then lib parameters config
         (VEstepDiagonal.objective_and_grad packer Y X O w Theta Omega)
         (VEstepDiagonal.post_run packer Y X O w Theta Omega)).

Module VEstepSpherical.
Definition M_ID := 0%nat.
Definition S_ID := 1%nat.

Section Closure.
Variables (packer : Packer) (Y X O w Theta Omega : mat).
Open Scope R_scope.

(** The lambda [objective_and_grad] of [cpp_optimize_vestep_spherical]
    (lines 871-887), with its local variables as result. *)
Definition objective_and_grad_locals (parameters grad_storage : vec)
  : result locals :=
  M <- unpack_mat packer M_ID parameters ;;
  S <- unpack_mat packer S_ID parameters ;;
  S2 <- S [%] S ;;
  Z <- O [+] X [*] trans Theta [+] M ;;
  A <- mat_exp <$> each_col_plus Z (scale 0.5 S2) ;;
  let p := double_of_uword (n_cols Y) in
  n_sigma2 <- lift2 dot w (sum1 (pow2 M) [+] scale p S) ;;
  omega2 <- mat_elem Omega 0 0 ;;
  sum_term <- accu <$> (trans w [*] (A [-] Y [%] Z)) ;;
  log_term <- lift2 dot w (mat_log S2) ;;
  let objective :=
    sum_term - 0.5 * p * log_term + 0.5 * n_sigma2 * omega2 in
  g1 <- pack_mat packer M_ID grad_storage
          (diagmat w [*] (scale_right M omega2 [+] A [-] Y)) ;;
  g2 <- pack_mat packer S_ID g1
          (w [%] (S [%] sum1 A [-] (scale p <$> pow_m1 S)
                  [-] scale_right (scale p S) omega2)) ;;
  Ok {| loc_S := S; loc_Z := Z; loc_A := A;
        loc_objective := objective; loc_grad_storage := g2 |}.

(** The lambda itself. *)
Definition objective_and_grad (parameters grad_storage : vec)
  : result (R * vec) :=
  closure_return (objective_and_grad_locals parameters grad_storage).
End Closure.

(** Conversion from R, prepare optimization. *)
Definition prepare (init_parameters configuration : list (string * SEXP))
  : result (Packer * vec * OptimizerConfiguration) :=
  init_M <- List_get_mat init_parameters "M" ;;
  init_S <- List_get_vec init_parameters "S" ;;
  let packer := make_packer [a_mat init_M; a_vec init_S] in
  let parameters := arma_vec_new (size packer) in
  parameters <- pack packer M_ID parameters (a_mat init_M) ;;
  parameters <- pack packer S_ID parameters (a_vec init_S) ;;
  let pack_xtol_abs := fun (packed : vec) (l : list (string * SEXP)) =>
    r_M <- List_get l "M" ;;
    packed <- pack_double_or_arma packer M_ID packed r_M ;;
    r_S <- List_get l "S" ;;
    pack_double_or_arma packer S_ID packed r_S in
  config <- from_r_list configuration (size packer) pack_xtol_abs ;;
  Ok (packer, parameters, config).

(** The step after the optimization. *)
Definition post_run (packer : Packer) (Y X O w Theta Omega : mat)
  (parameters : vec) : result post_locals :=
  M <- unpack_mat packer M_ID parameters ;;
  S <- unpack_mat packer S_ID parameters ;;
  S2 <- S [%] S ;;
  omega2 <- mat_elem Omega 0 0 ;;
  Z <- O [+] X [*] trans Theta [+] M ;;
  A <- mat_exp <$> each_col_plus Z (scale 0.5 S2) ;;
  Ok {| post_M := M; post_S := S; post_S2 := S2; post_Z := Z; post_A := A;
        post_Sigma := None; post_Omega := None |}.
End VEstepSpherical.

Definition cpp_optimize_vestep_spherical (lib : nlopt_library)
  (init_parameters : list (string * SEXP)) (Y X O w Theta Omega : mat)
  (configuration : list (string * SEXP)) : entry_outcome (fit post_locals) :=
  before_optimizer (VEstepSpherical.prepare init_parameters configuration)
    (fun '(packer, parameters, config) =>
       optimize_then lib parameters config
         (VEstepSpherical.objective_and_grad packer Y X O w Theta Omega)
         (VEstepSpherical.post_run packer Y X O w Theta Omega)).

(* ===================================================================== *)
(** * Vocabulary of the statements *)

(** Sum of the element counts of the values, in unbounded arithmetic. *)
Definition total_n_elem (values : list arma_value) : N :=
  fold_right (fun value acc => (value_n_elem value + acc)%N) 0%N values.

(** Offsets of the groups when the first one starts at [start]. *)
Fixpoint prefix_offsets (start : N) (values : list arma_value) : list N :=
  match values with
  | [] => []
  | value :: rest =>
      start :: prefix_offsets (start + value_n_elem value)%N rest
  end.

(** Two values have the same shape: both vectors of one length, or both
    matrices with the same numbers of rows and columns. *)
Definition same_shape (x y : arma_value) : Prop :=
  match x, y with
  | a_vec u, a_vec v => length u = length v
  | a_mat a, a_mat b => n_rows a = n_rows b /\ n_cols a = n_cols b
  | _, _ => False
  end.

(** The slice [o .. o + n - 1] of a list, and a list with that slice
    replaced. *)
Definition slice (l : list R) (o n : nat) : list R := firstn n (skipn o l).
Definition splice (l : list R) (o n : nat) (x : list R) : list R :=
  firstn o l ++ x ++ skipn (o + n) l.

(** The groups of the internal test: an empty vector, a 4x10 matrix and
    twice a vector of 7 elements. *)
Definition internal_test_values : list arma_value :=
  [a_vec []; a_mat (Mat 4 10 (repeat 0%R 40)); a_vec (repeat 1%R 7);
   a_vec (repeat 1%R 7)].

(** The elements of a value in storage order. *)
Definition vectorise_value (x : arma_value) : vec :=
  match x with a_vec v => v | a_mat m => vectorise m end.

(** [Rcpp::wrap] of either kind of value. *)
Definition Rcpp_wrap (x : arma_value) : SEXP :=
  match x with
  | a_vec v => Rcpp_wrap_vec v
  | a_mat m => Rcpp_wrap_mat m
  end.

Definition unsupported_xtol_abs_message : string :=
  "unsupported config[xtol_abs] type: must be double or list of by-parameter values".

(** The text of the message for an unsupported algorithm name, written
    out. *)
Definition unsupported_algorithm_text (nm : string) : string :=
  ("Unsupported algorithm name: " ++ double_quote ++ nm ++ double_quote
   ++ newline
   ++ "Supported: LBFGS_NOCEDAL LBFGS VAR1 VAR2 TNEWTON TNEWTON_RESTART TNEWTON_PRECOND TNEWTON_PRECOND_RESTART MMA CCSAQ")%string.

(** A stand-in for the external optimizer, used to run the driver on
    concrete inputs: it accepts every setting, asks for the objective at the
    initial point, then takes one gradient step of length [1/2] and stops
    with [NLOPT_MAXEVAL_REACHED]; when the objective is not finite it stops
    at once with [NLOPT_FAILURE]. *)
Definition one_step_nlopt : nlopt_library :=
  {| nlopt_opt := unit;
     nlopt_create := fun _ _ => Some tt;
     nlopt_set_xtol_abs := fun o _ => (NLOPT_SUCCESS, o);
     nlopt_set_xtol_rel := fun o _ => (NLOPT_SUCCESS, o);
     nlopt_set_ftol_abs := fun o _ => (NLOPT_SUCCESS, o);
     nlopt_set_ftol_rel := fun o _ => (NLOPT_SUCCESS, o);
     nlopt_set_maxeval := fun o _ => (NLOPT_SUCCESS, o);
     nlopt_set_maxtime := fun o _ => (NLOPT_SUCCESS, o);
     nlopt_set_min_objective := fun o => (NLOPT_SUCCESS, o);
     nlopt_optimize := fun _ x =>
       Evaluate x (repeat 0%R (length x))
         (fun answer =>
            match answer with
            | Some (value, grad) =>
                Finished NLOPT_MAXEVAL_REACHED
                  (map (fun xg => (fst xg - snd xg / 2)%R) (combine x grad))
                  value
            | None => Finished NLOPT_FAILURE x 0%R
            end) |}.

(** The objective of the internal test: [x^2] in one dimension. *)
Definition f_and_grad (x grad : vec) : result (R * vec) :=
  let v := nth 0 x 0%R in Ok ((v * v)%R, [(2 * v)%R]).

Definition test_config (xtol : vec) : OptimizerConfiguration :=
  {| algorithm := NLOPT_LD_LBFGS; xtol_abs := xtol; xtol_rel := 1%R;
     ftol_abs := 1%R; ftol_rel := 1%R; maxeval := 100; maxtime := 100%R |}.

(** An exported function gave up before it touched the optimizer. *)
Definition rejected_before_optimizer {A : Type} (o : entry_outcome A) : Prop :=
  eo_events o = [] /\ is_ok (eo_result o) = false.

Definition bad_algorithm_configuration : list (string * SEXP) :=
  [("xtol_abs", REALSXP [1%R] None); ("algorithm", STRSXP "NEWTON")]%string.

(** The closure result [r] is a finite value and gradient only if the group
    [S_ID] of the parameters has no zero element. *)
Definition needs_nonzero_S (packer : Packer) (S_ID : nat) (parameters : vec)
  (r : result (R * vec)) : Prop :=
  forall S, unpack_mat packer S_ID parameters = Ok S ->
            is_ok r = true -> Forall (fun x => x <> 0%R) (mem S).

(** ** Concrete inputs: one observation, one response, one covariate *)

Definition ex_Theta : mat := Mat 1 1 [0%R].
Definition ex_M : mat := Mat 1 1 [0%R].
Definition ex_S : mat := Mat 1 1 [2%R].
Definition ex_Y : mat := Mat 1 1 [1%R].
Definition ex_X : mat := Mat 1 1 [1%R].
Definition ex_O : mat := Mat 1 1 [0%R].
Definition ex_w : mat := Mat 1 1 [1%R].
Definition ex_Omega : mat := Mat 1 1 [1%R].

(** The packers of the full fits (Theta, M, S) and of the VE steps (M, S),
    with the packed initial values. *)
Definition ex_packer3 : Packer :=
  make_packer [a_mat ex_Theta; a_mat ex_M; a_mat ex_S].
Definition ex_parameters3 : vec := [0%R; 0%R; 2%R].
Definition ex_packer2 : Packer := make_packer [a_mat ex_M; a_mat ex_S].
Definition ex_parameters2 : vec := [0%R; 2%R].

(** The same with [S = 0]. *)
Definition ex_parameters2_zero : vec := [0%R; 0%R].

(** Stand-ins for [inv_sympd] and [log_det] that know 1x1 matrices only. *)
Definition scalar_solvers : arma_solvers :=
  {| inv_sympd := fun m =>
       match m with
       | Mat 1 1 [x] =>
           if Rpositive x then Ok (Mat 1 1 [(/ x)%R])
           else Throw (arma_runtime_error "inv_sympd(): matrix is singular or not positive definite")
       | _ => Throw (arma_runtime_error "inv_sympd(): not a 1x1 matrix")
       end;
     real_log_det := fun m =>
       match m with
       | Mat 1 1 [x] => log_double (Rabs x)
       | _ => Throw (arma_runtime_error "log_det(): not a 1x1 matrix")
       end |}.





(** A column vector held as [arma::vec]. *)
Definition is_col (w : mat) : Prop :=
  n_cols w = 1%nat /\ length (mem w) = n_rows w.

(** After the optimization, the local [S2] is the element-wise square of
    [S]: never negative, and zero where [S] is zero. *)
Definition S2_is_square_of_S (r : result post_locals) : Prop :=
  forall post, r = Ok post ->
    n_rows (post_S2 post) = n_rows (post_S post) /\
    n_cols (post_S2 post) = n_cols (post_S post) /\
    forall i j, (i < n_rows (post_S post))%nat ->
                (j < n_cols (post_S post))%nat ->
      mat_at (post_S2 post) i j
      = (mat_at (post_S post) i j * mat_at (post_S post) i j)%R /\
      (0 <= mat_at (post_S2 post) i j)%R /\
      (mat_at (post_S post) i j = 0%R -> mat_at (post_S2 post) i j = 0%R).

(** Inputs with [M = 1] and [S = 0], and with [M = 0] and [S = 0]. *)
Definition ex_parameters3_zero_S : vec := [0%R; 1%R; 0%R].
Definition ex_parameters3_zero : vec := [0%R; 0%R; 0%R].

(** Two observations of one response, the second with a negative weight:
    [M = 0], [S = (1, 2)], [w = (2, -1)]. *)
Definition ex2_M : mat := Mat 2 1 [0%R; 0%R].
Definition ex2_S : mat := Mat 2 1 [1%R; 2%R].
Definition ex2_Y : mat := Mat 2 1 [1%R; 1%R].
Definition ex2_X : mat := Mat 2 1 [1%R; 1%R].
Definition ex2_O : mat := Mat 2 1 [0%R; 0%R].
Definition ex2_w_negative : mat := Mat 2 1 [2%R; (-1)%R].
Definition ex2_packer3 : Packer :=
  make_packer [a_mat ex_Theta; a_mat ex2_M; a_mat ex2_S].
Definition ex2_parameters3 : vec := [0%R; 0%R; 0%R; 1%R; 2%R].

(** The mean matrix of a closure that returned, entry by entry:
    [A = exp(Z + 0.5 * V)] for the variance contribution [V] given as a
    function of the entry. *)
Definition mean_matrix_is (V : locals -> nat -> nat -> R) (r : result locals)
  : Prop :=
  forall l, r = Ok l ->
    forall i j, (i < n_rows (loc_A l))%nat -> (j < n_cols (loc_A l))%nat ->
      mat_at (loc_A l) i j = exp (mat_at (loc_Z l) i j + 0.5 * V l i j).

(** [S] squared element-wise; the square of the scalar of the row; the
    element of [S] itself. *)
Definition V_S2 (l : locals) (i j : nat) : R :=
  (mat_at (loc_S l) i j * mat_at (loc_S l) i j)%R.
Definition V_row_S2 (l : locals) (i j : nat) : R :=
  (mat_at (loc_S l) i 0 * mat_at (loc_S l) i 0)%R.
Definition V_S (l : locals) (i j : nat) : R := mat_at (loc_S l) i j.

(** [(S2 * (B % B)')(i, j)] for the loadings [B] of the rank-constrained
    fit. *)
Definition V_rank (B : mat) (l : locals) (i j : nat) : R :=
  big_sum (n_cols (loc_S l))
    (fun k => (mat_at (loc_S l) i k * mat_at (loc_S l) i k
               * (mat_at B j k * mat_at B j k))%R).

(* ===================================================================== *)
(** * Vocabulary of the further properties *)

(** Unpack the groups [Index], [Index + 1], ... ([count] of them), in
    order. *)
Fixpoint unpack_from (packer : Packer) (packed : vec) (Index count : nat)
  : result (list arma_value) :=
  match count with
  | O => Ok []
  | S c =>
      x <- unpack packer Index packed ;;
      rest <- unpack_from packer packed (S Index) c ;;
      Ok (x :: rest)
  end.

(** The storage of a list of values, one after the other. *)
Definition vectorise_all (xs : list arma_value) : vec :=
  concat (map vectorise_value xs).


(** An evaluation of the objective closure, among the events. *)
Definition is_objective (e : event) : bool :=
  match e with ev_objective _ => true | _ => false end.

(** The life of the optimizer handle, as the events of a call show it:
    either none was created, or one was created first and destroyed last,
    with nothing but evaluations of the objective in between. *)
Definition handle_lifecycle (evs : list event) : Prop :=
  evs = [] \/
  exists a n points,
    evs = ev_create a n :: map ev_objective points ++ [ev_destroy].





(** What an exported function lets R see of the optimizer: the handle is
    released, and a fit that is returned reports as its iterations the
    number of evaluations of the objective closure that took place. *)
Definition reports_evaluations {P : Type} (o : entry_outcome (fit P)) : Prop :=
  handle_lifecycle (eo_events o) /\
  forall f, eo_result o = Ok f ->
    eo_events o <> [] /\
    fit_iterations f
    = Z.of_nat (length (filter is_objective (eo_events o))).


(** Pack the values into the groups [Index], [Index + 1], ..., in order:
    the run of [pack] calls by which the exported functions build the
    initial parameters. *)
Fixpoint pack_from (packer : Packer) (Index : nat) (packed : vec)
  (values : list arma_value) : result vec :=
  match values with
  | [] => Ok packed
  | value :: rest =>
      packed' <- pack packer Index packed value ;;
      pack_from packer (S Index) packed' rest
  end.

(** A value whose storage has as many elements as its dimensions say. *)
Definition storage_fits (x : arma_value) : Prop :=
  length (vectorise_value x) = N.to_nat (value_n_elem x).

(** What the preparation of an exported function hands to the driver when
    it started from the initial values [values]: the packer of these
    values, their storage end to end as parameters, from which each group
    unpacks to its initial value, and a configuration whose [xtol_abs] has
    one element per parameter. *)
Definition prepared_from (values : list arma_value)
  (r : result (Packer * vec * OptimizerConfiguration)) : Prop :=
  forall packer parameters config,
    r = Ok (packer, parameters, config) ->
    (total_n_elem values < uword_modulus)%N ->
    packer = make_packer values /\
    parameters = vectorise_all values /\
    N.of_nat (length parameters) = size packer /\
    length (xtol_abs config) = length parameters /\
    (forall i v, nth_error values i = Some v ->
                 unpack packer i parameters = Ok v).


(** An R list of initial values with the three groups of the concrete
    inputs, and a configuration with one tolerance for all parameters. *)
Definition ex_init_parameters : list (string * SEXP) :=
  [("Theta", Rcpp_wrap_mat ex_Theta); ("M", Rcpp_wrap_mat ex_M);
   ("S", Rcpp_wrap_mat ex_S)]%string.

Definition ex_configuration : list (string * SEXP) :=
  [("algorithm", STRSXP "CCSAQ"); ("xtol_abs", REALSXP [1%R] None);
   ("xtol_rel", REALSXP [1%R] None); ("ftol_abs", REALSXP [1%R] None);
   ("ftol_rel", REALSXP [1%R] None); ("maxeval", INTSXP 100);
   ("maxtime", REALSXP [10%R] None)]%string.


(** Two gradient arrays of one length that hold the same first [k]
    elements. *)
Definition agree_upto (k : nat) (g g' : vec) : Prop :=
  length g = length g' /\ firstn k g = firstn k g'.

(** Two runs of [pack] went the same way: the same exception, or arrays of
    the length of [g] that agree up to [k]. *)
Definition same_outcome_upto (k : nat) (g : vec) (r r' : result vec) : Prop :=
  match r, r' with
  | Ok p, Ok p' => length p = length g /\ agree_upto k p p'
  | NonFinite, NonFinite => True
  | Throw e, Throw e' => e = e'
  | _, _ => False
  end.

(** A closure whose result does not depend on what the gradient array of
    the optimizer held before the call: for a gradient array with one
    element per element of [values], every element is overwritten. *)
Definition overwrites_gradient (values : list arma_value)
  (closure : vec -> vec -> result (R * vec)) : Prop :=
  forall parameters g g',
    N.of_nat (length g) = total_n_elem values ->
    length g' = length g ->
    closure parameters g = closure parameters g'.





(* ===================================================================== *)
(** * Log-factorial terms of the log-likelihood *)

Open Scope R_scope.

(** [a.replace(old_value, new_value)], [pow(a, 3)], [a + s], [-a]. *)
Definition replace (a : mat) (old_value new_value : R) : mat :=
  mat_map (fun x => if Req_dec_T x old_value then new_value else x) a.
Definition pow3 (a : mat) : mat := mat_map (fun x => x * x * x) a.
Definition plus_scalar (a : mat) (s : R) : mat := mat_map (fun x => x + s) a.
Definition neg (a : mat) : mat := mat_map Ropp a.

(** [logfact] (lines 15-18): an approximation of [log(y!)], summed over each
    row; [y] is a copy, in which zeros are replaced by ones first. *)
Definition logfact (y : mat) : result mat :=
  let y := replace y 0 1 in
  terms <-
    y [%] mat_log y [-] y
    [+] (polynomial <- (fun m => plus_scalar m (1 / 30)) <$>
                       (scale 8 (pow3 y) [+] scale 4 (pow2 y) [+] y) ;;
         log_polynomial <- mat_log polynomial ;;
         div_scalar log_polynomial 6) ;;
  Ok (sum1 (plus_scalar terms (ln PI / 2))).

(** [ki] (lines 20-23). *)
Definition ki (y : mat) : result mat :=
  let p := n_cols y in
  lf <- logfact y ;;
  Ok (plus_scalar (neg lf)
        (0.5 * (1 + (1 - double_of_uword p) * ln (2 * PI)))).

(** The term of [logfact] for one count [x], and the count a zero is
    replaced by. *)
Definition count_or_one (x : R) : R := if Req_dec_T x 0 then 1 else x.
Definition logfact_term (x : R) : R :=
  x * ln x - x + ln (8 * (x * x * x) + 4 * (x * x) + x + 1 / 30) / 6
  + ln PI / 2.

Close Scope R_scope.


(** [G] is [diagmat(w) * (M * Omega + A - Y)], entry by entry: the row of
    observation [i] is scaled by its weight. *)
Definition m_gradient_formula (M Omega A Y w G : mat) : Prop :=
  n_rows G = n_rows M /\ n_cols G = n_cols M /\
  forall i j, (i < n_rows G)%nat -> (j < n_cols G)%nat ->
    mat_at G i j
    = (mat_at w i 0
       * (big_sum (n_cols M) (fun k => mat_at M i k * mat_at Omega k j)
          + mat_at A i j - mat_at Y i j))%R.

(** When the closure returns, the group [M_ID] of the gradient array it
    leaves holds that matrix, for the [M] of the parameters and the mean
    matrix [A] of the closure. *)
Definition m_gradient_ok (packer : Packer) (M_ID : nat) (parameters : vec)
  (Omega Y w : mat) (r : result locals) : Prop :=
  forall l, r = Ok l ->
    exists M G,
      unpack_mat packer M_ID parameters = Ok M /\
      unpack_mat packer M_ID (loc_grad_storage l) = Ok G /\
      m_gradient_formula M Omega (loc_A l) Y w G.


(** The shapes the VE steps and the sparse fit are called with: [n]
    observations, [p] responses, [d] covariates. *)
Definition conforming (n p d : nat) (M0 S0 Y X O w Theta Omega : mat)
  : Prop :=
  (n_rows M0 = n /\ n_cols M0 = p) /\ (n_rows S0 = n /\ n_cols S0 = p) /\
  (n_rows Y = n /\ n_cols Y = p) /\ (n_rows O = n /\ n_cols O = p) /\
  (n_rows X = n /\ n_cols X = d) /\ (n_rows Theta = p /\ n_cols Theta = d) /\
  (n_rows Omega = p /\ n_cols Omega = p) /\
  (n_rows w = n /\ is_col w).


(** One observation of two responses, for the VE steps: [M = 0],
    [S = (1, 1)], [Omega] the identity. *)
Definition ex_p2_M : mat := Mat 1 2 [0%R; 0%R].
Definition ex_p2_S : mat := Mat 1 2 [1%R; 1%R].
Definition ex_p2_Y : mat := Mat 1 2 [1%R; 1%R].
Definition ex_p2_O : mat := Mat 1 2 [0%R; 0%R].
Definition ex_p2_Theta : mat := Mat 2 1 [0%R; 0%R].
Definition ex_p2_Omega : mat := Mat 2 2 [1%R; 0%R; 0%R; 1%R].
Definition ex_p2_packer2 : Packer :=
  make_packer [a_mat ex_p2_M; a_mat ex_p2_S].
Definition ex_p2_parameters2 : vec := [0%R; 0%R; 1%R; 1%R].

(** No check of sizes or bounds fails in the closure: whatever the values,
    it does not throw when the parameters and the gradient array hold all
    the groups of the packer. *)
Definition never_throws (packer : Packer)
  (closure : vec -> vec -> result (R * vec)) : Prop :=
  forall parameters grad_storage,
    (size packer <= N.of_nat (length parameters))%N ->
    (size packer <= N.of_nat (length grad_storage))%N ->
    forall e, closure parameters grad_storage <> Throw e.


(** The shapes the rank-constrained fit is called with: [n] observations,
    [p] responses, [d] covariates, rank [q]. *)
Definition rank_conforming (n p d q : nat) (T0 B0 M0 S0 Y X O w : mat)
  : Prop :=
  (n_rows T0 = p /\ n_cols T0 = d) /\ (n_rows B0 = p /\ n_cols B0 = q) /\
  (n_rows M0 = n /\ n_cols M0 = q) /\ (n_rows S0 = n /\ n_cols S0 = q) /\
  (n_rows Y = n /\ n_cols Y = p) /\ (n_rows O = n /\ n_cols O = p) /\
  (n_rows X = n /\ n_cols X = d) /\
  (n_rows w = n /\ is_col w).

(** Concrete loadings, and the four groups of the rank-constrained fit. *)
Definition ex_B : mat := Mat 1 1 [1%R].
Definition ex_packer4 : Packer :=
  make_packer [a_mat ex_Theta; a_mat ex_B; a_mat ex_M; a_mat ex_S].
Definition ex_parameters4 : vec := [0%R; 1%R; 0%R; 2%R].


(** The entries [from_r_list] reads from the configuration. *)
Definition configuration_keys : list string :=
  ["xtol_abs"; "algorithm"; "xtol_rel"; "ftol_abs"; "ftol_rel"; "maxeval";
   "maxtime"]%string.


(** A configuration cut short: nothing after the algorithm. *)
Definition ex_incomplete_configuration : list (string * SEXP) :=
  [("xtol_abs", REALSXP [1%R] None); ("algorithm", STRSXP "CCSAQ")]%string.


(** [G] is
    [diagmat(w) * (S.each_row() % diagvec(Omega).t() + S % A - pow(S, -1))],
    entry by entry. *)
Definition s_gradient_formula (S Omega A w G : mat) : Prop :=
  n_rows G = n_rows S /\ n_cols G = n_cols S /\
  forall i j, (i < n_rows G)%nat -> (j < n_cols G)%nat ->
    mat_at G i j
    = (mat_at w i 0
       * (mat_at S i j * mat_at Omega j j + mat_at S i j * mat_at A i j
          - / mat_at S i j))%R.

(** When the closure returns, the group [S_ID] of the gradient array it
    leaves holds that matrix, for the [S] of the parameters and the mean
    matrix [A] of the closure. *)
Definition s_gradient_ok (packer : Packer) (S_ID : nat) (parameters : vec)
  (Omega w : mat) (r : result locals) : Prop :=
  forall l, r = Ok l ->
    exists S G,
      unpack_mat packer S_ID parameters = Ok S /\
      unpack_mat packer S_ID (loc_grad_storage l) = Ok G /\
      s_gradient_formula S Omega (loc_A l) w G.

(* ===================================================================== *)
(* ===================================================================== *)
(** * Properties *)

Lemma bind_ok_inv {A B : Type} (c : result A) (k : A -> result B) (b : B) :
  bind c k = Ok b -> exists a, c = Ok a /\ k a = Ok b.
Proof. destruct c as [a| |e]; simpl; intros H; try discriminate. eauto. Qed.

(** ** Unsigned arithmetic without wrap-around *)

Lemma uword_add_small (a b : N) :
  (a + b < uword_modulus)%N -> uword_add a b = (a + b)%N.
Proof. intros H. unfold uword_add. now apply N.mod_small. Qed.

Lemma uword_mul_small (a b : N) :
  (a * b < uword_modulus)%N -> uword_mul a b = (a * b)%N.
Proof. intros H. unfold uword_mul. now apply N.mod_small. Qed.

(** ** Offsets assigned by [make_packer] *)

Lemma PackedInfo_make_spec (value : arma_value) (o : uword) :
  (o + value_n_elem value < uword_modulus)%N ->
  info_offset (fst (PackedInfo_make value o)) = o /\
  info_n_elem (fst (PackedInfo_make value o)) = value_n_elem value /\
  snd (PackedInfo_make value o) = (o + value_n_elem value)%N.
Proof.
  intros H. destruct value as [v|m]; simpl in *.
  - unfold vec_n_elem. rewrite uword_add_small by exact H. auto.
  - unfold mat_n_rows, mat_n_cols.
    assert (Hm : (N.of_nat (n_rows m) * N.of_nat (n_cols m)
                  < uword_modulus)%N) by lia.
    rewrite (uword_mul_small _ _ Hm), uword_add_small by exact H. auto.
Qed.

Lemma make_elements_spec (values : list arma_value) : forall o : uword,
  (o + total_n_elem values < uword_modulus)%N ->
  map info_offset (fst (make_elements values o)) = prefix_offsets o values /\
  map info_n_elem (fst (make_elements values o)) = map value_n_elem values /\
  snd (make_elements values o) = (o + total_n_elem values)%N.
Proof.
  induction values as [|value rest IH]; intros o H; simpl in *.
  - repeat split. lia.
  - assert (H1 : (o + value_n_elem value < uword_modulus)%N) by lia.
    destruct (PackedInfo_make_spec value o H1) as (Ho & Hn & Hs).
    destruct (PackedInfo_make value o) as [info o'] eqn:E. simpl in *.
    subst o'.
    assert (H2 : (o + value_n_elem value + total_n_elem rest
                  < uword_modulus)%N) by lia.
    destruct (IH _ H2) as (IHo & IHn & IHs).
    destruct (make_elements rest (o + value_n_elem value)%N) as [infos final].
    simpl in *. rewrite Ho, Hn, IHo, IHn, IHs. repeat split. lia.
Qed.

(** ** Slices *)

Lemma nth_error_slice (l : list R) (o n k : nat) :
  nth_error (slice l o n) k = if k <? n then nth_error l (o + k) else None.
Proof. unfold slice. now rewrite nth_error_firstn, nth_error_skipn. Qed.

Lemma length_slice (l : list R) (o n : nat) :
  o + n <= length l -> length (slice l o n) = n.
Proof. intros H. unfold slice. rewrite length_firstn, length_skipn. lia. Qed.

Lemma length_splice (l : list R) (o n : nat) (x : list R) :
  o + n <= length l -> length x = n -> length (splice l o n x) = length l.
Proof.
  intros H Hx. unfold splice.
  rewrite !length_app, length_firstn, length_skipn. lia.
Qed.

Lemma nth_error_splice (l : list R) (o n : nat) (x : list R) (k : nat) :
  o + n <= length l -> length x = n ->
  nth_error (splice l o n x) k =
  if k <? o then nth_error l k
  else if k <? o + n then nth_error x (k - o) else nth_error l k.
Proof.
  intros H Hx. unfold splice.
  assert (Hf : length (firstn o l) = o) by (rewrite length_firstn; lia).
  destruct (Nat.ltb_spec k o) as [Hk|Hk].
  - rewrite nth_error_app1 by lia. rewrite nth_error_firstn.
    destruct (Nat.ltb_spec k o); [reflexivity|lia].
  - rewrite nth_error_app2 by lia. rewrite Hf.
    destruct (Nat.ltb_spec k (o + n)) as [Hk2|Hk2].
    + rewrite nth_error_app1 by lia. reflexivity.
    + rewrite nth_error_app2 by lia. rewrite nth_error_skipn. f_equal. lia.
Qed.

Lemma slice_splice_same (l : list R) (o n : nat) (x : list R) :
  o + n <= length l -> length x = n -> slice (splice l o n x) o n = x.
Proof.
  intros H Hx. apply nth_error_ext. intros k.
  rewrite nth_error_slice, nth_error_splice by assumption.
  destruct (Nat.ltb_spec k n) as [Hk|Hk].
  - destruct (Nat.ltb_spec (o + k) o); [lia|].
    destruct (Nat.ltb_spec (o + k) (o + n)); [|lia].
    f_equal. lia.
  - symmetry. apply nth_error_None. lia.
Qed.

Lemma slice_splice_other (l : list R) (o n : nat) (x : list R) (o' n' : nat) :
  o + n <= length l -> length x = n ->
  o' + n' <= o \/ o + n <= o' ->
  slice (splice l o n x) o' n' = slice l o' n'.
Proof.
  intros H Hx Hd. apply nth_error_ext. intros k.
  rewrite !nth_error_slice, nth_error_splice by assumption.
  destruct (Nat.ltb_spec k n') as [Hk|Hk]; [|reflexivity].
  destruct (Nat.ltb_spec (o' + k) o); [reflexivity|].
  destruct (Nat.ltb_spec (o' + k) (o + n)); [lia|reflexivity].
Qed.

(** The three slice operations, when the slice lies inside the vector. *)

Lemma subvec_ok (packed : vec) (o n : uword) :
  (o + n < uword_modulus)%N -> (o + n <= N.of_nat (length packed))%N ->
  subvec packed o n = Ok (slice packed (N.to_nat o) (N.to_nat n)).
Proof.
  intros Hw Hb. unfold subvec, subvec_in_bounds.
  rewrite uword_add_small by exact Hw.
  destruct (N.leb_spec (o + n) (N.of_nat (length packed))); [reflexivity|lia].
Qed.

Lemma subvec_assign_ok (packed : vec) (o n : uword) (x : vec) :
  (o + n < uword_modulus)%N -> (o + n <= N.of_nat (length packed))%N ->
  N.of_nat (length x) = n ->
  subvec_assign packed o n x
  = Ok (splice packed (N.to_nat o) (N.to_nat n) x).
Proof.
  intros Hw Hb Hx. unfold subvec_assign, subvec_in_bounds.
  rewrite uword_add_small by exact Hw.
  destruct (N.leb_spec (o + n) (N.of_nat (length packed))); [|lia].
  rewrite (proj2 (N.eqb_eq _ _) Hx). reflexivity.
Qed.

Lemma subvec_fill_ok (packed : vec) (o n : uword) (x : R) :
  (o + n < uword_modulus)%N -> (o + n <= N.of_nat (length packed))%N ->
  subvec_fill packed o n x
  = Ok (splice packed (N.to_nat o) (N.to_nat n) (repeat x (N.to_nat n))).
Proof.
  intros Hw Hb. unfold subvec_fill, subvec_in_bounds.
  rewrite uword_add_small by exact Hw.
  destruct (N.leb_spec (o + n) (N.of_nat (length packed))); [reflexivity|lia].
Qed.

(** What a successful slice operation tells. *)

Lemma subvec_inv (packed : vec) (o n : uword) (v : vec) :
  subvec packed o n = Ok v ->
  (uword_add o n <= N.of_nat (length packed))%N /\
  v = slice packed (N.to_nat o) (N.to_nat n).
Proof.
  unfold subvec, subvec_in_bounds.
  destruct (N.leb_spec (uword_add o n) (N.of_nat (length packed)));
    intros E; inversion E. auto.
Qed.

Lemma subvec_assign_inv (packed : vec) (o n : uword) (x packed' : vec) :
  subvec_assign packed o n x = Ok packed' ->
  (uword_add o n <= N.of_nat (length packed))%N /\
  N.of_nat (length x) = n /\
  packed' = splice packed (N.to_nat o) (N.to_nat n) x.
Proof.
  unfold subvec_assign, subvec_in_bounds.
  destruct (N.leb_spec (uword_add o n) (N.of_nat (length packed)));
    [|discriminate].
  destruct (N.eqb_spec (N.of_nat (length x)) n); intros E; inversion E. auto.
Qed.

Lemma total_n_elem_firstn_le (values : list arma_value) (i : nat) (ref : arma_value) :
  nth_error values i = Some ref ->
  (total_n_elem (firstn i values) + value_n_elem ref
   <= total_n_elem values)%N.
Proof.
  revert i. induction values as [|value rest IH]; intros [|i] H; simpl in *;
    try discriminate.
  - inversion H. subst. lia.
  - specialize (IH _ H). lia.
Qed.

Lemma make_elements_nth (values : list arma_value) :
  forall (o : uword) (i : nat) (ref : arma_value),
  (o + total_n_elem values < uword_modulus)%N ->
  nth_error values i = Some ref ->
  nth_error (fst (make_elements values o)) i
  = Some (fst (PackedInfo_make ref (o + total_n_elem (firstn i values))%N)).
Proof.
  induction values as [|value rest IH]; intros o [|i] ref Hw H; simpl in *;
    try discriminate.
  - inversion H; subst. rewrite N.add_0_r.
    destruct (PackedInfo_make ref o) as [info o'].
    destruct (make_elements rest o') as [infos final]. reflexivity.
  - assert (H1 : (o + value_n_elem value < uword_modulus)%N) by lia.
    destruct (PackedInfo_make_spec value o H1) as (_ & _ & Hs).
    destruct (PackedInfo_make value o) as [info o']. simpl in Hs. subst o'.
    assert (H2 : (o + value_n_elem value + total_n_elem rest
                  < uword_modulus)%N) by lia.
    specialize (IH _ i ref H2 H).
    destruct (make_elements rest (o + value_n_elem value)%N) as [infos final].
    simpl in *. rewrite IH. do 3 f_equal. lia.
Qed.

Lemma make_packer_size (values : list arma_value) :
  (total_n_elem values < uword_modulus)%N ->
  size (make_packer values) = total_n_elem values.
Proof.
  intros Hw. unfold make_packer.
  destruct (make_elements_spec values 0%N) as (_ & _ & Hs); [lia|].
  destruct (make_elements values 0%N) as [infos final]. simpl in *. lia.
Qed.

(** The group a packer holds at an index: its offset is the sum of the sizes
    before it, its extent is that of the reference value, and its slice ends
    inside the packed vector. *)
Lemma make_packer_get (values : list arma_value) (i : nat) (ref : arma_value) :
  (total_n_elem values < uword_modulus)%N ->
  nth_error values i = Some ref ->
  let info := fst (PackedInfo_make ref (total_n_elem (firstn i values))) in
  get (make_packer values) i = Ok info /\
  info_offset info = total_n_elem (firstn i values) /\
  info_n_elem info = value_n_elem ref /\
  (info_offset info + info_n_elem info <= size (make_packer values))%N.
Proof.
  intros Hw H info.
  pose proof (total_n_elem_firstn_le values i ref H) as Hle.
  assert (Hi : (total_n_elem (firstn i values) + value_n_elem ref
                < uword_modulus)%N) by lia.
  destruct (PackedInfo_make_spec ref _ Hi) as (Ho & Hn & _).
  fold info in Ho, Hn.
  rewrite make_packer_size by exact Hw. rewrite Ho, Hn.
  repeat split; try assumption.
  unfold get, make_packer.
  pose proof (make_elements_nth values 0%N i ref Hw H) as Hnth.
  destruct (make_elements values 0%N) as [infos final]. simpl in *.
  rewrite Hnth. reflexivity.
Qed.

(** ** C9 *)

(** C9.  For any ordered list of groups whose element counts fit the 64-bit
    [uword], [make_packer] gives group [i] the offset [sum of the sizes of the
    groups before i] and the packer the size [sum of all sizes]; every
    slice, also an empty one, ends inside the packed vector, and unpacking an
    empty group yields an empty value.  Groups of sizes 0, 40 (a 4x10
    matrix), 7, 7 get the offsets 0, 0, 40, 47 and the size 54. *)
Theorem make_packer_offsets (values : list arma_value) :
  (total_n_elem values < uword_modulus)%N ->
  map info_offset (elements (make_packer values)) = prefix_offsets 0 values /\
  size (make_packer values) = total_n_elem values /\
  (forall i ref, nth_error values i = Some ref ->
     exists info,
       get (make_packer values) i = Ok info /\
       info_offset info = total_n_elem (firstn i values) /\
       info_n_elem info = value_n_elem ref /\
       (info_offset info + info_n_elem info <= size (make_packer values))%N) /\
  (forall i ref packed, nth_error values i = Some ref ->
     value_n_elem ref = 0%N ->
     (size (make_packer values) <= N.of_nat (length packed))%N ->
     exists x, unpack (make_packer values) i packed = Ok x /\
               same_shape x ref /\ vectorise_value x = []) /\
  (forall a b, n_rows a = 4 -> n_cols a = 10 -> length b = 7 ->
     let packer := make_packer [a_vec []; a_mat a; a_vec b; a_vec b] in
     map info_offset (elements packer) = [0; 0; 40; 47]%N /\
     size packer = 54%N).
Proof.
  intros Hw. split; [|split; [|split; [|split]]].
  - unfold make_packer.
    destruct (make_elements_spec values 0%N) as (Ho & _ & _); [lia|].
    destruct (make_elements values 0%N) as [infos final]. exact Ho.
  - now apply make_packer_size.
  - intros i ref H. eexists. now apply make_packer_get.
  - intros i ref packed H Hz Hlen.
    destruct (make_packer_get values i ref Hw H) as (Hg & Ho & Hn & Hb).
    unfold unpack. rewrite Hg. simpl.
    pose proof (total_n_elem_firstn_le values i ref H) as Hle.
    destruct ref as [v|m]; simpl in *.
    + unfold VecInfo.unpack. simpl. rewrite subvec_ok.
      * simpl. exists (a_vec (slice packed
                 (N.to_nat (total_n_elem (firstn i values)))
                 (N.to_nat (vec_n_elem v)))).
        unfold vec_n_elem. rewrite Hz. simpl. repeat split.
        destruct v; [reflexivity|discriminate].
      * unfold vec_n_elem. lia.
      * unfold vec_n_elem in *. lia.
    + unfold MatInfo.unpack. simpl.
      unfold mat_n_rows, mat_n_cols in *.
      rewrite uword_mul_small by lia. rewrite subvec_ok by lia.
      simpl. eexists. split; [reflexivity|]. simpl.
      rewrite !Nat2N.id. repeat split. rewrite Hz. reflexivity.
  - intros a b Ha Hc Hb. unfold make_packer. simpl.
    unfold vec_n_elem, mat_n_rows, mat_n_cols. rewrite Ha, Hc, Hb.
    simpl. split; reflexivity.
Qed.

Lemma make_packer_offsets_witness :
  (total_n_elem internal_test_values < uword_modulus)%N /\
  size (make_packer internal_test_values) = 54%N.
Proof.
  assert (H : (total_n_elem internal_test_values < uword_modulus)%N)
    by reflexivity.
  split; [exact H|].
  destruct (make_packer_offsets internal_test_values H)
    as (_ & Hs & _).
  rewrite Hs. reflexivity.
Defined.

(** ** C2 *)

(** Packing a value of the group's shape succeeds and replaces exactly the
    group's slice by the elements of the value. *)
Lemma pack_spec (values : list arma_value) (i : nat) (ref v : arma_value)
  (packed : vec) :
  (total_n_elem values < uword_modulus)%N ->
  nth_error values i = Some ref ->
  same_shape v ref -> value_wf v ->
  (size (make_packer values) <= N.of_nat (length packed))%N ->
  pack (make_packer values) i packed v
  = Ok (splice packed (N.to_nat (total_n_elem (firstn i values)))
          (N.to_nat (value_n_elem ref)) (vectorise_value v)).
Proof.
  intros Hw H Hs Hwf Hlen.
  destruct (make_packer_get values i ref Hw H) as (Hg & Ho & Hn & Hb).
  pose proof (total_n_elem_firstn_le values i ref H) as Hle.
  unfold pack. rewrite Hg. simpl.
  destruct ref as [r|r], v as [v|v]; simpl in *; try contradiction.
  - unfold VecInfo.pack. simpl. unfold vec_n_elem in *.
    apply subvec_assign_ok; lia.
  - unfold MatInfo.pack. simpl. unfold mat_n_rows, mat_n_cols in *.
    destruct Hs as [Hr Hc]. red in Hwf.
    rewrite uword_mul_small by lia.
    apply subvec_assign_ok; try lia.
    unfold vectorise. rewrite Hwf, Hr, Hc. lia.
Qed.

(** Unpacking a group returns its slice, in the shape of the reference
    value. *)
Lemma unpack_spec (values : list arma_value) (i : nat) (ref : arma_value)
  (packed : vec) :
  (total_n_elem values < uword_modulus)%N ->
  nth_error values i = Some ref ->
  (size (make_packer values) <= N.of_nat (length packed))%N ->
  exists x,
    unpack (make_packer values) i packed = Ok x /\
    same_shape x ref /\ value_wf x /\
    vectorise_value x
    = slice packed (N.to_nat (total_n_elem (firstn i values)))
        (N.to_nat (value_n_elem ref)).
Proof.
  intros Hw H Hlen.
  destruct (make_packer_get values i ref Hw H) as (Hg & Ho & Hn & Hb).
  pose proof (total_n_elem_firstn_le values i ref H) as Hle.
  unfold unpack. rewrite Hg. simpl.
  destruct ref as [r|r]; simpl in *.
  - unfold VecInfo.unpack. simpl. unfold vec_n_elem in *.
    rewrite subvec_ok by lia. simpl. eexists. split; [reflexivity|].
    simpl. repeat split. rewrite length_slice; lia.
  - unfold MatInfo.unpack. simpl. unfold mat_n_rows, mat_n_cols in *.
    rewrite uword_mul_small by lia. rewrite subvec_ok by lia. simpl.
    eexists. split; [reflexivity|]. simpl. rewrite !Nat2N.id.
    repeat split. red. simpl. rewrite length_slice; lia.
Qed.

Lemma value_eq_of_shape (x v ref : arma_value) :
  same_shape x ref -> same_shape v ref ->
  vectorise_value x = vectorise_value v -> x = v.
Proof.
  destruct x as [x|[xr xc xm]], v as [v|[vr vc vm]], ref as [r|r];
    simpl; try contradiction; intros Hx Hv E.
  - now subst.
  - destruct Hx, Hv. unfold vectorise in E. simpl in E. subst. reflexivity.
Qed.

Lemma length_vectorise_value (v ref : arma_value) :
  same_shape v ref -> value_wf v ->
  length (vectorise_value v) = N.to_nat (value_n_elem ref).
Proof.
  intros Hs Hwf.
  destruct ref as [r|r], v as [v|v]; simpl in *; try contradiction.
  - lia.
  - destruct Hs as [Hr Hc]. red in Hwf. unfold vectorise.
    rewrite Hwf, Hr, Hc. lia.
Qed.

(** Unpacking a group whose slice holds the elements of a value of the
    group's shape gives that value back. *)
Lemma unpack_of_splice (values : list arma_value) (i : nat)
  (ref v : arma_value) (packed : vec) :
  (total_n_elem values < uword_modulus)%N ->
  nth_error values i = Some ref ->
  same_shape v ref -> value_wf v ->
  (size (make_packer values) <= N.of_nat (length packed))%N ->
  unpack (make_packer values) i
    (splice packed (N.to_nat (total_n_elem (firstn i values)))
       (N.to_nat (value_n_elem ref)) (vectorise_value v))
  = Ok v.
Proof.
  intros Hw H Hs Hwf Hlen.
  pose proof (total_n_elem_firstn_le values i ref H) as Hle.
  pose proof (make_packer_size values Hw) as Hsz.
  pose proof (length_vectorise_value v ref Hs Hwf) as Hv.
  assert (Hl : length (splice packed
                  (N.to_nat (total_n_elem (firstn i values)))
                  (N.to_nat (value_n_elem ref)) (vectorise_value v))
               = length packed) by (apply length_splice; lia).
  destruct (unpack_spec values i ref
              (splice packed (N.to_nat (total_n_elem (firstn i values)))
                 (N.to_nat (value_n_elem ref)) (vectorise_value v)) Hw H)
    as (x & Hu & Hxs & _ & Hx).
  { rewrite Hl. exact Hlen. }
  rewrite Hu. f_equal. apply (value_eq_of_shape x v ref Hxs Hs).
  rewrite Hx. apply slice_splice_same; lia.
Qed.

(** C2.  For a packer built from an ordered list of groups that fits the
    64-bit [uword], for every group index and every well-formed value of that
    group's shape, packing the value into a packed vector and unpacking the
    group again returns that value, for vector and for matrix groups. *)
Theorem unpack_pack_round_trip (values : list arma_value) (i : nat)
  (ref v : arma_value) (packed : vec) :
  (total_n_elem values < uword_modulus)%N ->
  nth_error values i = Some ref ->
  same_shape v ref -> value_wf v ->
  (size (make_packer values) <= N.of_nat (length packed))%N ->
  exists packed',
    pack (make_packer values) i packed v = Ok packed' /\
    length packed' = length packed /\
    unpack (make_packer values) i packed' = Ok v.
Proof.
  intros Hw H Hs Hwf Hlen.
  pose proof (total_n_elem_firstn_le values i ref H) as Hle.
  pose proof (make_packer_size values Hw) as Hsz.
  pose proof (length_vectorise_value v ref Hs Hwf) as Hv.
  exists (splice packed (N.to_nat (total_n_elem (firstn i values)))
            (N.to_nat (value_n_elem ref)) (vectorise_value v)).
  split; [|split].
  - now apply pack_spec.
  - apply length_splice; lia.
  - now apply unpack_of_splice.
Qed.

Lemma unpack_pack_round_trip_witness :
  exists packed',
    pack (make_packer internal_test_values) 1 (repeat 2%R 54)
      (a_mat (Mat 4 10 (repeat 5%R 40))) = Ok packed' /\
    length packed' = 54 /\
    unpack (make_packer internal_test_values) 1 packed'
    = Ok (a_mat (Mat 4 10 (repeat 5%R 40))).
Proof.
  apply (unpack_pack_round_trip internal_test_values 1
           (a_mat (Mat 4 10 (repeat 0%R 40)))).
  - reflexivity.
  - reflexivity.
  - simpl. split; reflexivity.
  - reflexivity.
  - vm_compute. discriminate.
Defined.

(** ** C8 *)

Lemma pack_double_or_arma_scalar (values : list arma_value) (i : nat)
  (ref : arma_value) (packed : vec) (x : R) (dim : option (nat * nat)) :
  (total_n_elem values < uword_modulus)%N ->
  nth_error values i = Some ref ->
  (size (make_packer values) <= N.of_nat (length packed))%N ->
  pack_double_or_arma (make_packer values) i packed (REALSXP [x] dim)
  = Ok (splice packed (N.to_nat (total_n_elem (firstn i values)))
          (N.to_nat (value_n_elem ref))
          (repeat x (N.to_nat (value_n_elem ref)))).
Proof.
  intros Hw H Hlen.
  destruct (make_packer_get values i ref Hw H) as (Hg & Ho & Hn & Hb).
  pose proof (total_n_elem_firstn_le values i ref H) as Hle.
  unfold pack_double_or_arma. rewrite Hg. simpl.
  destruct ref as [r|r]; simpl in *.
  - unfold VecInfo.pack_double_or_arma. simpl. unfold vec_n_elem in *.
    apply subvec_fill_ok; lia.
  - unfold MatInfo.pack_double_or_arma. simpl.
    unfold mat_n_rows, mat_n_cols in *.
    rewrite uword_mul_small by lia. apply subvec_fill_ok; lia.
Qed.

Lemma pack_double_or_arma_structured (values : list arma_value) (i : nat)
  (ref v : arma_value) (packed : vec) :
  (total_n_elem values < uword_modulus)%N ->
  nth_error values i = Some ref ->
  (size (make_packer values) <= N.of_nat (length packed))%N ->
  same_shape v ref -> value_wf v ->
  pack_double_or_arma (make_packer values) i packed (Rcpp_wrap v)
  = Ok (splice packed (N.to_nat (total_n_elem (firstn i values)))
          (N.to_nat (value_n_elem ref)) (vectorise_value v)).
Proof.
  intros Hw H Hlen Hs Hwf.
  assert (Hv : length (vectorise_value v) = N.to_nat (value_n_elem ref)).
  { destruct ref as [r|r], v as [v|v]; simpl in *; try contradiction.
    - lia.
    - destruct Hs as [Hr Hc]. red in Hwf. unfold vectorise.
      rewrite Hwf, Hr, Hc. lia. }
  destruct (Rcpp_is_double (Rcpp_wrap v)) eqn:Hd.
  - (* a single element: the scalar branch writes the same slice *)
    assert (Hx : exists x dim, Rcpp_wrap v = REALSXP [x] dim
                               /\ vectorise_value v = [x]).
    { destruct v as [v|[vr vc vm]]; simpl in *.
      - unfold Rcpp_wrap_vec in *.
        destruct v as [|x [|y v]]; try discriminate.
        exists x, None. split; reflexivity.
      - unfold Rcpp_wrap_mat in *. simpl in *.
        destruct vm as [|x [|y vm]]; try discriminate.
        exists x, (Some (vr, vc)). split; reflexivity. }
    destruct Hx as (x & dim & Hx & Hvx). rewrite Hx.
    rewrite (pack_double_or_arma_scalar values i ref packed x dim Hw H Hlen).
    rewrite Hvx in *. simpl in Hv. rewrite <- Hv. reflexivity.
  - rewrite <- (pack_spec values i ref v packed Hw H Hs Hwf Hlen).
    destruct (make_packer_get values i ref Hw H) as (Hg & _).
    unfold pack_double_or_arma, pack. rewrite Hg. simpl.
    destruct ref as [r|r], v as [v|[vr vc vm]]; try contradiction;
      unfold Rcpp_wrap in *.
    + unfold VecInfo.pack_double_or_arma. rewrite Hd. reflexivity.
    + unfold MatInfo.pack_double_or_arma. rewrite Hd. reflexivity.
Qed.

Lemma from_r_list_xtol_abs_unsupported (r_list : list (string * SEXP))
  (packer_size : uword)
  (pack_xtol_abs : vec -> list (string * SEXP) -> result vec)
  (r_value : SEXP) :
  List_get r_list "xtol_abs" = Ok r_value ->
  Rcpp_is_double r_value = false -> Rcpp_is_List r_value = false ->
  from_r_list r_list packer_size pack_xtol_abs
  = Throw (Rcpp_exception unsupported_xtol_abs_message).
Proof.
  intros Hg Hd Hl. unfold from_r_list. rewrite Hg. simpl.
  rewrite Hd, Hl. reflexivity.
Qed.

(** C8.  For every group of a packer, [pack_double_or_arma] with a single
    double fills the whole slice of the group with it and leaves the rest of
    the packed vector alone; with a structured value of the group's shape it
    copies the value's elements into the slice; and [from_r_list] rejects an
    [xtol_abs] entry that is neither a double nor a list with the
    configuration error of the source. *)
Theorem pack_double_or_arma_spec (values : list arma_value) (i : nat)
  (ref : arma_value) (packed : vec) :
  (total_n_elem values < uword_modulus)%N ->
  nth_error values i = Some ref ->
  (size (make_packer values) <= N.of_nat (length packed))%N ->
  let o := N.to_nat (total_n_elem (firstn i values)) in
  let n := N.to_nat (value_n_elem ref) in
  (forall x dim,
     pack_double_or_arma (make_packer values) i packed (REALSXP [x] dim)
     = Ok (splice packed o n (repeat x n)) /\
     slice (splice packed o n (repeat x n)) o n = repeat x n) /\
  (forall v, same_shape v ref -> value_wf v ->
     pack_double_or_arma (make_packer values) i packed (Rcpp_wrap v)
     = Ok (splice packed o n (vectorise_value v)) /\
     unpack (make_packer values) i (splice packed o n (vectorise_value v))
     = Ok v) /\
  (forall r_list packer_size pack_xtol_abs r_value,
     List_get r_list "xtol_abs" = Ok r_value ->
     Rcpp_is_double r_value = false -> Rcpp_is_List r_value = false ->
     from_r_list r_list packer_size pack_xtol_abs
     = Throw (Rcpp_exception unsupported_xtol_abs_message)).
Proof.
  intros Hw H Hlen o n.
  pose proof (total_n_elem_firstn_le values i ref H) as Hle.
  pose proof (make_packer_size values Hw) as Hsz.
  split; [|split].
  - intros x dim. split.
    + now apply pack_double_or_arma_scalar.
    + apply slice_splice_same; [unfold o, n; lia|apply repeat_length].
  - intros v Hs Hwf. split.
    + now apply pack_double_or_arma_structured.
    + now apply unpack_of_splice.
  - intros. now apply from_r_list_xtol_abs_unsupported with (r_value := r_value).
Qed.

Lemma pack_double_or_arma_spec_witness :
  pack_double_or_arma (make_packer internal_test_values) 2
    (repeat 2%R 54) (REALSXP [0%R] None)
  = Ok (splice (repeat 2%R 54) 40 7 (repeat 0%R 7)).
Proof.
  assert (Hw : (total_n_elem internal_test_values < uword_modulus)%N)
    by reflexivity.
  assert (H : nth_error internal_test_values 2
              = Some (a_vec (repeat 1%R 7))) by reflexivity.
  assert (Hlen : (size (make_packer internal_test_values)
                  <= N.of_nat (length (repeat 2%R 54)))%N)
    by (vm_compute; discriminate).
  exact (proj1 (proj1 (pack_double_or_arma_spec internal_test_values
                         2 _ (repeat 2%R 54) Hw H Hlen) 0%R None)).
Defined.

(** ** C6 *)

Lemma append_assoc (a b c : string) :
  ((a ++ b) ++ c = a ++ (b ++ c))%string.
Proof. induction a as [|ch a IH]; simpl; [reflexivity|now rewrite IH]. Qed.

Lemma unsupported_algorithm_message_text (nm : string) :
  unsupported_algorithm_message nm = unsupported_algorithm_text nm.
Proof.
  unfold unsupported_algorithm_message, unsupported_algorithm_text.
  cbn [fold_left supported_algorithms name].
  repeat rewrite append_assoc. reflexivity.
Qed.

Lemma lookup_algorithm_none (l : list AlgorithmNameAssociation) (nm : string) :
  ~ In nm (map name l) -> lookup_algorithm l nm = None.
Proof.
  induction l as [|a l IH]; simpl; intros H; [reflexivity|].
  destruct (String.eqb_spec nm (name a)) as [E|E].
  - exfalso. apply H. left. now symmetry.
  - apply IH. intros Hin. apply H. now right.
Qed.

Lemma algorithm_from_name_unsupported (nm : string) :
  ~ In nm supported_names ->
  algorithm_from_name nm
  = Throw (Rcpp_exception (unsupported_algorithm_text nm)).
Proof.
  intros H. unfold algorithm_from_name.
  rewrite (lookup_algorithm_none supported_algorithms nm H).
  now rewrite unsupported_algorithm_message_text.
Qed.

Lemma algorithm_from_name_supported (a : AlgorithmNameAssociation) :
  In a supported_algorithms ->
  algorithm_from_name (name a) = Ok (enum_value a).
Proof.
  intros H. unfold supported_algorithms in H. simpl in H.
  repeat (destruct H as [H|H]; [subst a; reflexivity|]).
  contradiction.
Qed.

(** With an unsupported algorithm name [from_r_list] never returns a
    configuration; once the [xtol_abs] entry has been accepted the exception
    is the one of [algorithm_from_name]. *)
Lemma from_r_list_unsupported_algorithm (r_list : list (string * SEXP))
  (packer_size : uword)
  (pack_xtol_abs : vec -> list (string * SEXP) -> result vec) (nm : string) :
  List_get r_list "algorithm" = Ok (STRSXP nm) ->
  ~ In nm supported_names ->
  is_ok (from_r_list r_list packer_size pack_xtol_abs) = false /\
  (forall x dim, List_get r_list "xtol_abs" = Ok (REALSXP [x] dim) ->
     from_r_list r_list packer_size pack_xtol_abs
     = Throw (Rcpp_exception (unsupported_algorithm_text nm))).
Proof.
  intros Ha Hn. pose proof (algorithm_from_name_unsupported nm Hn) as E.
  split.
  - unfold from_r_list.
    destruct (List_get r_list "xtol_abs") as [v| |e]; simpl; try reflexivity.
    match goal with
    | |- is_ok (bind ?c _) = false => destruct c as [t| |e]
    end; simpl; try reflexivity.
    rewrite Ha. simpl. rewrite E. reflexivity.
  - intros x dim Hx. unfold from_r_list. rewrite Hx. simpl.
    rewrite Ha. simpl. rewrite E. reflexivity.
Qed.

Lemma before_optimizer_not_ok {A B : Type} (prepared : result A)
  (k : A -> entry_outcome B) :
  is_ok prepared = false ->
  eo_events (before_optimizer prepared k) = [] /\
  is_ok (eo_result (before_optimizer prepared k)) = false.
Proof. destruct prepared; simpl; intros H; try discriminate; auto. Qed.

Lemma bind_not_ok {A B : Type} (c : result A) (k : A -> result B) :
  (forall a, c = Ok a -> is_ok (k a) = false) -> is_ok (bind c k) = false.
Proof. destruct c; simpl; intros H; auto. Qed.

Ltac prepare_not_ok :=
  repeat (apply bind_not_ok; intros ? _); assumption.

Ltac prepare_fails H :=
  repeat (cbv zeta; apply bind_not_ok; intros ? ?);
  match goal with
  | E : from_r_list _ ?s ?f = Ok _ |- _ =>
      let X := fresh in pose proof (H s f) as X; rewrite E in X; discriminate
  end.

Lemma entry_points_reject (configuration : list (string * SEXP)) :
  (forall s f, is_ok (from_r_list configuration s f) = false) ->
  forall lib la init_parameters Y X O w Theta Omega,
    rejected_before_optimizer
      (cpp_optimize_full lib la init_parameters Y X O w configuration) /\
    rejected_before_optimizer
      (cpp_optimize_spherical lib init_parameters Y X O w configuration) /\
    rejected_before_optimizer
      (cpp_optimize_diagonal lib init_parameters Y X O w configuration) /\
    rejected_before_optimizer
      (cpp_optimize_rank lib init_parameters Y X O w configuration) /\
    rejected_before_optimizer
      (cpp_optimize_sparse lib init_parameters Y X O w Omega configuration) /\
    rejected_before_optimizer
      (cpp_optimize_vestep_full lib init_parameters Y X O w Theta Omega
         configuration) /\
    rejected_before_optimizer
      (cpp_optimize_vestep_diagonal lib init_parameters Y X O w Theta Omega
         configuration) /\
    rejected_before_optimizer
      (cpp_optimize_vestep_spherical lib init_parameters Y X O w Theta Omega
         configuration).
Proof.
  intros H lib la init_parameters Y X O w Theta Omega.
  repeat split;
    try (apply before_optimizer_not_ok;
         first [ unfold Full.prepare | unfold Spherical.prepare
               | unfold Diagonal.prepare | unfold Rank.prepare
               | unfold Sparse.prepare | unfold VEstepFull.prepare
               | unfold VEstepDiagonal.prepare
               | unfold VEstepSpherical.prepare ];
         prepare_fails H).
Qed.

(** C6.  A name outside the supported list makes [algorithm_from_name] throw
    the configuration error whose text quotes the name and lists the
    supported names; a name of the list resolves to its identifier.  A
    configuration with such a name never passes [from_r_list], and every
    exported function then gives up with no event on the optimizer: no
    handle created, no objective evaluated. *)
Theorem algorithm_from_name_spec (nm : string) :
  ~ In nm supported_names ->
  algorithm_from_name nm
  = Throw (Rcpp_exception (unsupported_algorithm_text nm)) /\
  (forall a, In a supported_algorithms ->
     algorithm_from_name (name a) = Ok (enum_value a)) /\
  (forall configuration,
     List_get configuration "algorithm" = Ok (STRSXP nm) ->
     (forall packer_size pack_xtol_abs,
        is_ok (from_r_list configuration packer_size pack_xtol_abs) = false /\
        (forall x dim,
           List_get configuration "xtol_abs" = Ok (REALSXP [x] dim) ->
           from_r_list configuration packer_size pack_xtol_abs
           = Throw (Rcpp_exception (unsupported_algorithm_text nm)))) /\
     (forall lib la init_parameters Y X O w Theta Omega,
        rejected_before_optimizer
          (cpp_optimize_full lib la init_parameters Y X O w configuration) /\
        rejected_before_optimizer
          (cpp_optimize_spherical lib init_parameters Y X O w configuration) /\
        rejected_before_optimizer
          (cpp_optimize_diagonal lib init_parameters Y X O w configuration) /\
        rejected_before_optimizer
          (cpp_optimize_rank lib init_parameters Y X O w configuration) /\
        rejected_before_optimizer
          (cpp_optimize_sparse lib init_parameters Y X O w Omega
             configuration) /\
        rejected_before_optimizer
          (cpp_optimize_vestep_full lib init_parameters Y X O w Theta Omega
             configuration) /\
        rejected_before_optimizer
          (cpp_optimize_vestep_diagonal lib init_parameters Y X O w Theta
             Omega configuration) /\
        rejected_before_optimizer
          (cpp_optimize_vestep_spherical lib init_parameters Y X O w Theta
             Omega configuration))).
Proof.
  intros Hn. split; [|split].
  - now apply algorithm_from_name_unsupported.
  - apply algorithm_from_name_supported.
  - intros configuration Ha. split.
    + intros s f. now apply from_r_list_unsupported_algorithm.
    + apply entry_points_reject. intros s f.
      now apply (from_r_list_unsupported_algorithm configuration s f nm).
Qed.

Lemma algorithm_from_name_spec_witness :
  ~ In "NEWTON"%string supported_names /\
  algorithm_from_name "NEWTON"
  = Throw (Rcpp_exception (unsupported_algorithm_text "NEWTON")).
Proof.
  assert (H : ~ In "NEWTON"%string supported_names).
  { simpl. intros H.
    repeat (destruct H as [H|H]; [discriminate H|]). exact H. }
  split; [exact H|]. exact (proj1 (algorithm_from_name_spec "NEWTON" H)).
Defined.

(** ** C7 *)

(** C7.  When [config.xtol_abs] and [parameters] differ in length, the
    driver throws the configuration error ["config.xtol_abs size"]; nothing
    happened on the optimizer (no handle created, no objective evaluated),
    and the parameters vector is unchanged. *)
Theorem xtol_abs_size_mismatch (lib : nlopt_library) (parameters : vec)
  (config : OptimizerConfiguration)
  (objective_and_grad_fn : vec -> vec -> result (R * vec)) :
  length (xtol_abs config) <> length parameters ->
  minimize_objective_on_parameters lib parameters config objective_and_grad_fn
  = {| out_parameters := parameters;
       out_events := [];
       out_result := Throw (Rcpp_exception "config.xtol_abs size") |}.
Proof.
  intros H. unfold minimize_objective_on_parameters, vec_n_elem.
  destruct (N.eqb_spec (N.of_nat (length (xtol_abs config)))
              (N.of_nat (length parameters))) as [E|E]; simpl.
  - exfalso. apply H. now apply Nat2N.inj.
  - reflexivity.
Qed.

Lemma xtol_abs_size_mismatch_witness :
  minimize_objective_on_parameters one_step_nlopt [42%R]
    (test_config [1%R; 1%R]) f_and_grad
  = {| out_parameters := [42%R];
       out_events := [];
       out_result := Throw (Rcpp_exception "config.xtol_abs size") |}.
Proof.
  apply (xtol_abs_size_mismatch one_step_nlopt [42%R]
           (test_config [1%R; 1%R]) f_and_grad).
  simpl. discriminate.
Defined.

(** ** C4 *)

(** Each call of the callback counts once, whatever the closure and the
    optimizer do. *)
Lemma run_optimizer_counts (run : optimizer_run) :
  forall (data : OptimData) (trace : list vec) r data' trace',
  run_optimizer run data trace = (r, data', trace') ->
  (od_nb_iterations data' - od_nb_iterations data
   = Z.of_nat (length trace') - Z.of_nat (length trace))%Z /\
  (length trace <= length trace')%nat /\
  od_objective_and_grad_fn data' = od_objective_and_grad_fn data.
Proof.
  induction run as [st x minf|x grad k IH]; intros data trace r data' trace' E.
  - simpl in E. inversion E; subst. repeat split; try reflexivity; lia.
  - simpl in E.
    destruct (od_objective_and_grad_fn data x grad) as [[value grad']| |e].
    + apply IH in E. simpl in E. destruct E as (E1 & E2 & E3).
      repeat split; try assumption; lia.
    + apply IH in E. simpl in E. destruct E as (E1 & E2 & E3).
      repeat split; try assumption; lia.
    + inversion E; subst.
      cbn [od_nb_iterations od_objective_and_grad_fn length].
      repeat split; try reflexivity; lia.
Qed.

(** C4.  Once the optimizer has been created and configured, whatever
    status it terminates with (in particular one that is not
    [NLOPT_SUCCESS]), the driver does not throw: it returns that status and
    the final objective value as data, the parameters vector holds the
    optimizer's final point, and the iteration count is the number of times
    the objective closure was evaluated. *)
Theorem optimizer_status_is_data (lib : nlopt_library) (parameters : vec)
  (config : OptimizerConfiguration)
  (objective_and_grad_fn : vec -> vec -> result (R * vec))
  (optimizer optimizer' : nlopt_opt lib)
  (st : nlopt_result) (x : vec) (minf : R) (data' : OptimData)
  (trace : list vec) :
  length (xtol_abs config) = length parameters ->
  nlopt_create lib (algorithm config)
    (unsigned_of_uword (vec_n_elem parameters)) = Some optimizer ->
  configure lib optimizer config = Ok optimizer' ->
  run_optimizer (nlopt_optimize lib optimizer' parameters)
    {| od_nb_iterations := 0;
       od_objective_and_grad_fn := objective_and_grad_fn |} []
  = (Ok (st, x, minf), data', trace) ->
  let out := minimize_objective_on_parameters lib parameters config
               objective_and_grad_fn in
  out_result out
  = Ok {| status := st; objective := minf;
          nb_iterations := Z.of_nat (length trace) |} /\
  out_parameters out = x /\
  out_events out
  = ev_create (algorithm config) (unsigned_of_uword (vec_n_elem parameters))
    :: map ev_objective (rev trace) ++ [ev_destroy] /\
  (Z.of_nat (length (filter (fun e => match e with
                                      | ev_objective _ => true
                                      | _ => false
                                      end) (out_events out)))
   = Z.of_nat (length trace)).
Proof.
  intros Hlen Hc Hconf Hrun out.
  pose proof (run_optimizer_counts _ _ _ _ _ _ Hrun) as (Hn & _ & _).
  simpl in Hn.
  assert (Hout : out = {| out_parameters := x;
            out_events := ev_create (algorithm config)
                            (unsigned_of_uword (vec_n_elem parameters))
                          :: map ev_objective (rev trace) ++ [ev_destroy];
            out_result := Ok {| status := st; objective := minf;
                                nb_iterations := od_nb_iterations data' |} |}).
  { unfold out, minimize_objective_on_parameters, vec_n_elem in *.
    rewrite Hlen, N.eqb_refl. simpl. rewrite Hc, Hconf, Hrun. reflexivity. }
  rewrite Hout. simpl. repeat split.
  - do 2 f_equal. lia.
  - f_equal. rewrite filter_app. simpl. rewrite length_app. simpl.
    rewrite Nat.add_0_r.
    assert (Hf : forall l : list vec,
               filter (fun e => match e with
                                | ev_objective _ => true
                                | _ => false
                                end) (map ev_objective l)
               = map ev_objective l).
    { induction l as [|a l IH]; simpl; [reflexivity|now rewrite IH]. }
    rewrite Hf, length_map, length_rev. reflexivity.
Qed.

Lemma optimizer_status_is_data_witness :
  let out := minimize_objective_on_parameters one_step_nlopt [42%R]
               (test_config [1%R]) f_and_grad in
  out_result out
  = Ok {| status := NLOPT_MAXEVAL_REACHED; objective := (42 * 42)%R;
          nb_iterations := 1 |} /\
  out_parameters out = [(42 - 2 * 42 / 2)%R].
Proof.
  destruct (optimizer_status_is_data one_step_nlopt [42%R]
              (test_config [1%R]) f_and_grad tt tt NLOPT_MAXEVAL_REACHED
              [(42 - 2 * 42 / 2)%R] (42 * 42)%R
              {| od_nb_iterations := 1;
                 od_objective_and_grad_fn := f_and_grad |}
              [[42%R]] eq_refl eq_refl eq_refl eq_refl) as (H1 & H2 & _).
  split; assumption.
Defined.

(** ** Matrices entry by entry *)

Lemma nth_map_seq (g : nat -> R) (n k : nat) :
  (k < n)%nat -> nth k (map g (seq 0 n)) 0%R = g k.
Proof.
  intros H. rewrite (nth_indep _ 0%R (g 0%nat)) by (rewrite length_map, length_seq; lia).
  rewrite (map_nth g (seq 0 n) 0%nat k). now rewrite seq_nth.
Qed.

Lemma mat_at_init (r c : nat) (f : nat -> nat -> R) (i j : nat) :
  (i < r)%nat -> (j < c)%nat -> mat_at (mat_init r c f) i j = f i j.
Proof.
  intros Hi Hj. unfold mat_at, mat_init. simpl.
  rewrite nth_map_seq by nia.
  rewrite Nat.Div0.mod_add, Nat.mod_small by lia.
  rewrite Nat.div_add by lia. rewrite Nat.div_small by lia. reflexivity.
Qed.

Lemma mat_init_wf (r c : nat) (f : nat -> nat -> R) : mat_wf (mat_init r c f).
Proof. unfold mat_wf, mat_init. simpl. now rewrite length_map, length_seq. Qed.

Lemma mat_at_map (f : R -> R) (a : mat) (i j : nat) :
  mat_wf a -> (i < n_rows a)%nat -> (j < n_cols a)%nat ->
  mat_at (mat_map f a) i j = f (mat_at a i j).
Proof.
  intros Hwf Hi Hj. unfold mat_at, mat_map. simpl.
  rewrite (nth_indep _ 0%R (f 0%R)).
  - apply map_nth.
  - rewrite length_map. red in Hwf. rewrite Hwf. nia.
Qed.

Lemma mat_map_wf (f : R -> R) (a : mat) : mat_wf a -> mat_wf (mat_map f a).
Proof. unfold mat_wf, mat_map. simpl. now rewrite length_map. Qed.

Lemma mat_at_mem (P : R -> Prop) (a : mat) (i j : nat) :
  mat_wf a -> Forall P (mem a) ->
  (i < n_rows a)%nat -> (j < n_cols a)%nat -> P (mat_at a i j).
Proof.
  intros Hwf H Hi Hj. rewrite Forall_forall in H. apply H.
  unfold mat_at. apply nth_In. red in Hwf. rewrite Hwf. nia.
Qed.

Lemma big_sum_ext (n : nat) (f g : nat -> R) :
  (forall k, (k < n)%nat -> f k = g k) -> big_sum n f = big_sum n g.
Proof.
  intros H. unfold big_sum. f_equal. apply map_ext_in.
  intros k Hk. apply in_seq in Hk. apply H. lia.
Qed.

Lemma big_sum_S (n : nat) (f : nat -> R) :
  big_sum (S n) f = (big_sum n f + f n)%R.
Proof.
  unfold big_sum. rewrite seq_S, map_app. simpl.
  generalize (map f (seq 0 n)). intros l.
  induction l as [|a l IH]; simpl; [lra|rewrite IH; lra].
Qed.

Lemma big_sum_nonneg (n : nat) (f : nat -> R) :
  (forall k, (k < n)%nat -> (0 <= f k)%R) -> (0 <= big_sum n f)%R.
Proof.
  induction n as [|n IH]; intros H.
  - unfold big_sum. simpl. lra.
  - rewrite big_sum_S. assert (0 <= big_sum n f)%R by (apply IH; auto).
    assert (0 <= f n)%R by (apply H; lia). lra.
Qed.

Lemma accu_big_sum (l : list R) :
  fold_right Rplus 0%R l = big_sum (length l) (fun k => nth k l 0%R).
Proof.
  induction l as [|a l IH] using rev_ind; [reflexivity|].
  rewrite length_app. simpl. rewrite Nat.add_1_r, big_sum_S.
  rewrite fold_right_app. simpl.
  assert (E : forall (l : list R) (x : R),
             fold_right Rplus x l = (fold_right Rplus 0 l + x)%R).
  { clear. induction l as [|b l IH]; intros x; simpl; [lra|].
    rewrite IH. lra. }
  rewrite E, IH. f_equal.
  - apply big_sum_ext. intros k Hk. now rewrite app_nth1.
  - rewrite app_nth2, Nat.sub_diag by lia. simpl. lra.
Qed.

(** ** What a successful operation tells *)

Lemma lift2_ok_inv {A B C : Type} (f : A -> B -> result C)
  (a : result A) (b : result B) (c : C) :
  lift2 f a b = Ok c -> exists x y, a = Ok x /\ b = Ok y /\ f x y = Ok c.
Proof.
  unfold lift2. intros H.
  apply bind_ok_inv in H. destruct H as (x & Hx & H).
  apply bind_ok_inv in H. destruct H as (y & Hy & H). eauto.
Qed.

Lemma fmap_ok_inv {A B : Type} (f : A -> B) (a : result A) (b : B) :
  fmap f a = Ok b -> exists x, a = Ok x /\ b = f x.
Proof.
  unfold fmap. intros H. apply bind_ok_inv in H.
  destruct H as (x & Hx & H). inversion H. eauto.
Qed.

Lemma evaluated_inv (m x : mat) : evaluated m = Ok x -> x = m.
Proof. unfold evaluated. intros H. now inversion H. Qed.

Lemma elementwise_inv (what : string) (op : R -> R -> R) (a b c : mat) :
  elementwise what op a b = Ok c ->
  n_rows b = n_rows a /\ n_cols b = n_cols a /\
  c = mat_init (n_rows a) (n_cols a)
        (fun i j => op (mat_at a i j) (mat_at b i j)).
Proof.
  unfold elementwise, same_size.
  destruct (Nat.eqb_spec (n_rows a) (n_rows b));
    destruct (Nat.eqb_spec (n_cols a) (n_cols b)); simpl;
    intros H; inversion H. auto.
Qed.

Lemma mat_mul_inv (a b c : mat) :
  mat_mul a b = Ok c ->
  n_rows b = n_cols a /\
  c = mat_init (n_rows a) (n_cols b)
        (fun i j => big_sum (n_cols a)
                      (fun k => (mat_at a i k * mat_at b k j)%R)).
Proof.
  unfold mat_mul. destruct (Nat.eqb_spec (n_cols a) (n_rows b));
    intros H; inversion H. auto.
Qed.

Lemma each_col_inv (what : string) (op : R -> R -> R) (a v c : mat) :
  each_col what op a v = Ok c ->
  n_rows v = n_rows a /\ n_cols v = 1%nat /\
  c = mat_init (n_rows a) (n_cols a)
        (fun i j => op (mat_at a i j) (mat_at v i 0)).
Proof.
  unfold each_col. destruct (Nat.eqb_spec (n_rows v) (n_rows a));
    destruct (Nat.eqb_spec (n_cols v) 1); simpl; intros H; inversion H. auto.
Qed.

Lemma forallb_Rnonzero (l : list R) :
  forallb Rnonzero l = true -> Forall (fun x => x <> 0%R) l.
Proof.
  intros H. rewrite forallb_forall in H. apply Forall_forall.
  intros x Hx. specialize (H x Hx). unfold Rnonzero in H.
  destruct (Req_dec_T x 0); [discriminate|assumption].
Qed.

Lemma forallb_Rpositive (l : list R) :
  forallb Rpositive l = true -> Forall (fun x => (0 < x)%R) l.
Proof.
  intros H. rewrite forallb_forall in H. apply Forall_forall.
  intros x Hx. specialize (H x Hx). unfold Rpositive in H.
  destruct (Rlt_dec 0 x); [assumption|discriminate].
Qed.

Lemma pow_m1_inv (a c : mat) :
  pow_m1 a = Ok c -> Forall (fun x => x <> 0%R) (mem a) /\ c = mat_map Rinv a.
Proof.
  unfold pow_m1. destruct (forallb Rnonzero (mem a)) eqn:E;
    intros H; inversion H. split; [now apply forallb_Rnonzero|reflexivity].
Qed.

Lemma mat_log_inv (a c : mat) :
  mat_log a = Ok c ->
  Forall (fun x => (0 < x)%R) (mem a) /\ c = mat_map ln a.
Proof.
  unfold mat_log. destruct (forallb Rpositive (mem a)) eqn:E;
    intros H; inversion H. split; [now apply forallb_Rpositive|reflexivity].
Qed.

Lemma div_double_inv (x y q : R) :
  div_double x y = Ok q -> y <> 0%R /\ q = (x / y)%R.
Proof.
  unfold div_double, Rnonzero. destruct (Req_dec_T y 0);
    intros H; inversion H. auto.
Qed.

Lemma div_scalar_inv (a : mat) (s : R) (c : mat) :
  div_scalar a s = Ok c ->
  s <> 0%R /\ c = mat_map (fun x => (x / s)%R) a.
Proof.
  unfold div_scalar, Rnonzero. destruct (Req_dec_T s 0);
    intros H; inversion H. auto.
Qed.

Lemma dot_inv (a b : mat) (d : R) :
  dot a b = Ok d ->
  length (mem b) = length (mem a) /\
  d = big_sum (length (mem a))
        (fun k => (nth k (mem a) 0 * nth k (mem b) 0)%R).
Proof.
  unfold dot. destruct (Nat.eqb_spec (length (mem a)) (length (mem b)));
    intros H; inversion H. auto.
Qed.

(** ** Taking a successful evaluation apart *)

Ltac ok_step :=
  match goal with
  | H : lift2 _ _ _ = Ok _ |- _ =>
      apply lift2_ok_inv in H; destruct H as (? & ? & ? & ? & H)
  | H : fmap _ _ = Ok _ |- _ =>
      apply fmap_ok_inv in H; destruct H as (? & ? & ?)
  | H : bind _ _ = Ok _ |- _ =>
      apply bind_ok_inv in H; destruct H as (? & ? & H)
  | H : pack_mat _ _ _ _ = Ok _ |- _ => unfold pack_mat in H
  | H : closure_return _ = Ok _ |- _ => unfold closure_return in H
  | H : evaluated _ = Ok _ |- _ => apply evaluated_inv in H
  | H : Ok _ = Ok _ |- _ => inversion H; clear H
  | H : (let _ := _ in _) = Ok _ |- _ => cbv zeta in H
  end.

Ltac ok_inv := repeat ok_step; subst.

Lemma is_ok_true_inv {A : Type} (r : result A) :
  is_ok r = true -> exists a, r = Ok a.
Proof. destruct r; simpl; intros H; try discriminate. eauto. Qed.

(** ** C10 *)

Ltac nonzero_S_from_pow_m1 :=
  match goal with
  | U : unpack_mat ?p ?i ?x = Ok ?S, U' : unpack_mat ?p ?i ?x = Ok ?S',
    P : pow_m1 ?S' = Ok _ |- Forall _ (mem ?S) =>
      rewrite U in U'; inversion U'; subst; exact (proj1 (pow_m1_inv _ _ P))
  end.

Ltac needs_nonzero_S_tac :=
  let S := fresh "S" in let HS := fresh "HS" in let Hok := fresh "Hok" in
  let l := fresh "l" in
  intros S HS Hok; apply is_ok_true_inv in Hok; destruct Hok as (l & Hok);
  ok_inv; nonzero_S_from_pow_m1.

(** C10.  Every objective closure evaluates [log(S2)] and the reciprocal of
    [S] unguarded: whenever a closure returns a finite objective value and
    gradient, no element of the group [S] of the parameters is zero.
    Equivalently, with a zero element in [S] no closure returns a finite
    value and gradient. *)
Theorem closures_need_nonzero_S (la : arma_solvers) (packer : Packer)
  (Y X O w Theta Omega : mat) (w_bar : R) (parameters grad_storage : vec) :
  needs_nonzero_S packer Full.S_ID parameters
    (Full.objective_and_grad la packer Y X O w w_bar parameters grad_storage)
  /\
  needs_nonzero_S packer Spherical.S_ID parameters
    (Spherical.objective_and_grad packer Y X O w w_bar parameters grad_storage)
  /\
  needs_nonzero_S packer Diagonal.S_ID parameters
    (Diagonal.objective_and_grad packer Y X O w w_bar parameters grad_storage)
  /\
  needs_nonzero_S packer Rank.S_ID parameters
    (Rank.objective_and_grad packer Y X O w parameters grad_storage)
  /\
  needs_nonzero_S packer Sparse.S_ID parameters
    (Sparse.objective_and_grad packer Y X O w Omega parameters grad_storage)
  /\
  needs_nonzero_S packer VEstepFull.S_ID parameters
    (VEstepFull.objective_and_grad packer Y X O w Theta Omega parameters
       grad_storage)
  /\
  needs_nonzero_S packer VEstepDiagonal.S_ID parameters
    (VEstepDiagonal.objective_and_grad packer Y X O w Theta Omega parameters
       grad_storage)
  /\
  needs_nonzero_S packer VEstepSpherical.S_ID parameters
    (VEstepSpherical.objective_and_grad packer Y X O w Theta Omega parameters
       grad_storage).
Proof.
  repeat split.
  - unfold Full.objective_and_grad, Full.objective_and_grad_locals.
    needs_nonzero_S_tac.
  - unfold Spherical.objective_and_grad, Spherical.objective_and_grad_locals.
    needs_nonzero_S_tac.
  - unfold Diagonal.objective_and_grad, Diagonal.objective_and_grad_locals.
    needs_nonzero_S_tac.
  - unfold Rank.objective_and_grad, Rank.objective_and_grad_locals.
    needs_nonzero_S_tac.
  - unfold Sparse.objective_and_grad, Sparse.objective_and_grad_locals.
    needs_nonzero_S_tac.
  - unfold VEstepFull.objective_and_grad,
      VEstepFull.objective_and_grad_locals.
    needs_nonzero_S_tac.
  - unfold VEstepDiagonal.objective_and_grad,
      VEstepDiagonal.objective_and_grad_locals.
    needs_nonzero_S_tac.
  - unfold VEstepSpherical.objective_and_grad,
      VEstepSpherical.objective_and_grad_locals.
    needs_nonzero_S_tac.
Qed.

(** ** Evaluating on concrete inputs *)

Lemma Rpositive_true (x : R) : (0 < x)%R -> Rpositive x = true.
Proof.
  intros H. unfold Rpositive. destruct (Rlt_dec 0 x); [reflexivity|contradiction].
Qed.

Lemma Rnonzero_true (x : R) : x <> 0%R -> Rnonzero x = true.
Proof.
  intros H. unfold Rnonzero. destruct (Req_dec_T x 0); [contradiction|reflexivity].
Qed.

Lemma Rnonzero_false (x : R) : x = 0%R -> Rnonzero x = false.
Proof.
  intros H. unfold Rnonzero. destruct (Req_dec_T x 0); [reflexivity|contradiction].
Qed.

Lemma Rpositive_false (x : R) : (x <= 0)%R -> Rpositive x = false.
Proof.
  intros H. unfold Rpositive. destruct (Rlt_dec 0 x); [lra|reflexivity].
Qed.

(** Evaluate everything but the arithmetic of the reals, deciding the tests
    on doubles with [lra]. *)
Ltac eval_cbv :=
  cbv -[Rplus Rmult Rminus Ropp Rinv Rdiv Rabs exp ln IZR INR
        Rpositive Rnonzero].

Ltac eval_arma :=
  eval_cbv;
  repeat (first [ rewrite Rpositive_true by lra
                | rewrite Rnonzero_true by lra
                | rewrite Rnonzero_false by lra
                | rewrite Rpositive_false by lra ]; eval_cbv).

(** The same for closures that convert a number of columns to a double or
    take an absolute value. *)
Ltac eval_closure_cbv :=
  cbv -[Rplus Rmult Rminus Ropp Rinv Rdiv Rabs exp ln IZR
        Rpositive Rnonzero].

Ltac eval_closure :=
  eval_closure_cbv;
  repeat (first [ rewrite Rpositive_true by lra
                | rewrite Rnonzero_true by lra
                | rewrite Rnonzero_false by lra
                | rewrite Rpositive_false by lra
                | rewrite Rabs_right by lra ]; eval_closure_cbv).

(** ** C1 *)

(** C1, at the failing inputs.  With [Z = 0] and [S = 2] the closure of the
    sparse variant and the closure of the diagonal VE step compute the mean
    matrix [A = exp(Z + 0.5 * S)], which is [exp 1], not
    [exp(Z + 0.5 * S^2) = exp 2]. *)
Theorem mean_matrix_of_sparse_and_vestep_diagonal :
  (exists l,
     Sparse.objective_and_grad_locals ex_packer3 ex_Y ex_X ex_O ex_w ex_Omega
       ex_parameters3 [0; 0; 0]%R = Ok l /\
     mat_at (loc_S l) 0 0 = 2%R /\
     mat_at (loc_Z l) 0 0 = 0%R /\
     mat_at (loc_A l) 0 0 = exp (0 + 0.5 * 2) /\
     mat_at (loc_A l) 0 0 <> exp (0 + 0.5 * (2 * 2))) /\
  (exists l,
     VEstepDiagonal.objective_and_grad_locals ex_packer2 ex_Y ex_X ex_O ex_w
       ex_Theta ex_Omega ex_parameters2 [0; 0]%R = Ok l /\
     mat_at (loc_S l) 0 0 = 2%R /\
     mat_at (loc_Z l) 0 0 = 0%R /\
     mat_at (loc_A l) 0 0 = exp (0 + 0.5 * 2) /\
     mat_at (loc_A l) 0 0 <> exp (0 + 0.5 * (2 * 2))).
Proof.
  split.
  - eexists. split; [eval_arma; reflexivity|].
    eval_cbv. repeat split; try lra.
    + f_equal. lra.
    + intros H. apply exp_inv in H. lra.
  - eexists. split; [eval_arma; reflexivity|].
    eval_cbv. repeat split; try lra.
    + f_equal. lra.
    + intros H. apply exp_inv in H. lra.
Qed.

Lemma sparse_closure_on_example :
  unpack_mat ex_packer3 Sparse.S_ID ex_parameters3 = Ok ex_S /\
  is_ok (Sparse.objective_and_grad ex_packer3 ex_Y ex_X ex_O ex_w ex_Omega
           ex_parameters3 [0; 0; 0]%R) = true.
Proof. split; [reflexivity|]. eval_arma. reflexivity. Qed.

(** With [S = 0] the closure leaves the finite doubles. *)
Lemma vestep_full_closure_on_zero_S :
  VEstepFull.objective_and_grad ex_packer2 ex_Y ex_X ex_O ex_w ex_Theta
    ex_Omega ex_parameters2_zero [0; 0]%R = NonFinite.
Proof. eval_arma. reflexivity. Qed.

Lemma closures_need_nonzero_S_witness :
  Forall (fun x => x <> 0%R) (mem ex_S).
Proof.
  destruct (closures_need_nonzero_S scalar_solvers ex_packer3 ex_Y ex_X ex_O
              ex_w ex_Theta ex_Omega 1%R ex_parameters3 [0; 0; 0]%R)
    as (_ & _ & _ & _ & H & _).
  exact (H ex_S (proj1 sparse_closure_on_example)
           (proj2 sparse_closure_on_example)).
Defined.

(** ** Packing several groups into one vector *)

Lemma total_n_elem_firstn_mono (values : list arma_value) (i j : nat)
  (ref : arma_value) :
  nth_error values i = Some ref -> (i < j)%nat ->
  (total_n_elem (firstn i values) + value_n_elem ref
   <= total_n_elem (firstn j values))%N.
Proof.
  revert i j. induction values as [|value rest IH]; intros [|i] [|j] H Hlt;
    simpl in *; try discriminate; try lia.
  - inversion H; subst. lia.
  - assert (Hij : (i < j)%nat) by lia. specialize (IH _ _ H Hij). lia.
Qed.

Lemma make_packer_elements_length (values : list arma_value) :
  length (elements (make_packer values)) = length values.
Proof.
  unfold make_packer.
  assert (H : forall o, length (fst (make_elements values o)) = length values).
  { induction values as [|value rest IH]; intros o; simpl; [reflexivity|].
    destruct (PackedInfo_make value o) as [info o'].
    specialize (IH o'). destruct (make_elements rest o') as [infos final].
    simpl in *. now rewrite IH. }
  specialize (H 0%N). destruct (make_elements values 0%N). exact H.
Qed.

Lemma get_ok_ref (values : list arma_value) (i : nat) (info : PackedInfo) :
  get (make_packer values) i = Ok info -> exists ref, nth_error values i = Some ref.
Proof.
  unfold get. destruct (nth_error (elements (make_packer values)) i) eqn:E;
    [|discriminate].
  intros _. assert (Hi : (i < length values)%nat).
  { rewrite <- make_packer_elements_length. apply nth_error_Some. congruence. }
  destruct (nth_error values i) eqn:E'; [eauto|].
  apply nth_error_None in E'. lia.
Qed.

(** The elements an expression contributes when packed. *)
Lemma pack_inv (values : list arma_value) (i : nat) (packed packed' : vec)
  (expr : arma_value) :
  (total_n_elem values < uword_modulus)%N ->
  pack (make_packer values) i packed expr = Ok packed' ->
  exists ref,
    nth_error values i = Some ref /\
    (total_n_elem (firstn i values) + value_n_elem ref
     <= N.of_nat (length packed))%N /\
    length (vectorise_value expr) = N.to_nat (value_n_elem ref) /\
    packed' = splice packed (N.to_nat (total_n_elem (firstn i values)))
                (N.to_nat (value_n_elem ref)) (vectorise_value expr).
Proof.
  intros Hw H. unfold pack in H. apply bind_ok_inv in H.
  destruct H as (info & Hg & H).
  destruct (get_ok_ref values i info Hg) as (ref & Href).
  destruct (make_packer_get values i ref Hw Href) as (Hg' & Ho & Hn & Hb).
  rewrite Hg' in Hg. inversion Hg; subst info. clear Hg.
  pose proof (total_n_elem_firstn_le values i ref Href) as Hle.
  exists ref. split; [exact Href|].
  assert (Hsmall : (total_n_elem (firstn i values) + value_n_elem ref
                    < uword_modulus)%N) by lia.
  destruct ref as [r|r]; simpl in *.
  - assert (K : forall x, VecInfo.pack
                (VecInfo.mk (total_n_elem (firstn i values)) (vec_n_elem r))
                packed x = Ok packed' ->
              (total_n_elem (firstn i values) + N.of_nat (length r)
               <= N.of_nat (length packed))%N /\
              length x = N.to_nat (N.of_nat (length r)) /\
              packed' = splice packed
                          (N.to_nat (total_n_elem (firstn i values)))
                          (N.to_nat (N.of_nat (length r))) x).
    { intros x Hx. unfold VecInfo.pack in Hx. simpl in Hx.
      apply subvec_assign_inv in Hx. destruct Hx as (Hb' & Hlen & ->).
      unfold vec_n_elem in *. rewrite uword_add_small in Hb' by exact Hsmall.
      repeat split; lia. }
    destruct expr as [v|m].
    + apply K. exact H.
    + destruct (Nat.eqb (n_cols m) 1); [|discriminate]. apply K. exact H.
  - assert (K : forall x, MatInfo.pack
                (MatInfo.mk (total_n_elem (firstn i values)) (mat_n_rows r)
                   (mat_n_cols r)) packed x = Ok packed' ->
              (total_n_elem (firstn i values)
               + N.of_nat (n_rows r) * N.of_nat (n_cols r)
               <= N.of_nat (length packed))%N /\
              length (mem x)
              = N.to_nat (N.of_nat (n_rows r) * N.of_nat (n_cols r)) /\
              packed' = splice packed
                          (N.to_nat (total_n_elem (firstn i values)))
                          (N.to_nat (N.of_nat (n_rows r) * N.of_nat (n_cols r)))
                          (mem x)).
    { intros x Hx. unfold MatInfo.pack in Hx. simpl in Hx.
      unfold mat_n_rows, mat_n_cols in *.
      rewrite uword_mul_small in Hx by lia.
      apply subvec_assign_inv in Hx. destruct Hx as (Hb' & Hlen & ->).
      rewrite uword_add_small in Hb' by exact Hsmall.
      unfold vectorise in *. repeat split; try reflexivity; lia. }
    destruct expr as [v|m]; apply K in H; exact H.
Qed.

(** Packing into one group leaves what the other groups unpack to. *)
Lemma unpack_pack_other (values : list arma_value) (i j : nat)
  (packed packed' : vec) (expr : arma_value) (ref : arma_value) :
  (total_n_elem values < uword_modulus)%N ->
  nth_error values j = Some ref -> i <> j ->
  pack (make_packer values) i packed expr = Ok packed' ->
  unpack (make_packer values) j packed' = unpack (make_packer values) j packed.
Proof.
  intros Hw Hj Hij H.
  destruct (pack_inv values i packed packed' expr Hw H)
    as (refi & Hi & Hb & Hlen & ->).
  pose proof (total_n_elem_firstn_le values i refi Hi) as Hlei.
  pose proof (total_n_elem_firstn_le values j ref Hj) as Hlej.
  destruct (make_packer_get values j ref Hw Hj) as (Hg & Ho & Hn & _).
  assert (Hl : length (splice packed
                  (N.to_nat (total_n_elem (firstn i values)))
                  (N.to_nat (value_n_elem refi)) (vectorise_value expr))
               = length packed) by (apply length_splice; lia).
  assert (Hd : (N.to_nat (total_n_elem (firstn j values))
                + N.to_nat (value_n_elem ref)
                <= N.to_nat (total_n_elem (firstn i values)))%nat \/
               (N.to_nat (total_n_elem (firstn i values))
                + N.to_nat (value_n_elem refi)
                <= N.to_nat (total_n_elem (firstn j values)))%nat).
  { destruct (Nat.lt_ge_cases i j) as [Hlt|Hge].
    - right. pose proof (total_n_elem_firstn_mono values i j refi Hi Hlt). lia.
    - left. assert (Hlt : (j < i)%nat) by lia.
      pose proof (total_n_elem_firstn_mono values j i ref Hj Hlt). lia. }
  unfold unpack. rewrite Hg. simpl.
  destruct ref as [r|r]; simpl in *.
  - unfold VecInfo.unpack, subvec, subvec_in_bounds. simpl.
    rewrite Hl. destruct (_ <=? _)%N; [|reflexivity]. simpl.
    do 2 f_equal. unfold vec_n_elem in *.
    apply (slice_splice_other packed _ _ (vectorise_value expr)); lia.
  - unfold MatInfo.unpack, subvec, subvec_in_bounds. simpl.
    rewrite Hl. destruct (_ <=? _)%N; [|reflexivity]. simpl.
    do 3 f_equal. unfold mat_n_rows, mat_n_cols in *.
    rewrite uword_mul_small by lia.
    apply (slice_splice_other packed _ _ (vectorise_value expr)); lia.
Qed.

(** Unpacking a matrix group right after packing a matrix expression into
    it: the elements of the expression, in the shape of the group. *)
Lemma unpack_pack_same_mat (values : list arma_value) (i : nat)
  (packed packed' : vec) (expr r : mat) :
  (total_n_elem values < uword_modulus)%N ->
  nth_error values i = Some (a_mat r) ->
  pack (make_packer values) i packed (a_mat expr) = Ok packed' ->
  unpack (make_packer values) i packed'
  = Ok (a_mat (Mat (n_rows r) (n_cols r) (mem expr))).
Proof.
  intros Hw Hi H.
  destruct (pack_inv values i packed packed' (a_mat expr) Hw H)
    as (refi & Hi' & Hb & Hlen & ->).
  rewrite Hi in Hi'. inversion Hi'; subst refi. clear Hi'.
  pose proof (total_n_elem_firstn_le values i _ Hi) as Hle.
  destruct (make_packer_get values i _ Hw Hi) as (Hg & Ho & Hn & _).
  simpl in *.
  unfold unpack. rewrite Hg. simpl.
  unfold MatInfo.unpack. simpl. unfold mat_n_rows, mat_n_cols.
  rewrite uword_mul_small by lia.
  rewrite subvec_ok.
  - simpl. rewrite !Nat2N.id. unfold reshape. do 3 f_equal.
    apply slice_splice_same; [lia|exact Hlen].
  - lia.
  - rewrite length_splice; [lia|lia|exact Hlen].
Qed.

(** ** Sizes of the results of operations *)

Lemma n_rows_mat_init r c f : n_rows (mat_init r c f) = r.
Proof. reflexivity. Qed.
Lemma n_cols_mat_init r c f : n_cols (mat_init r c f) = c.
Proof. reflexivity. Qed.
Lemma n_rows_mat_map f a : n_rows (mat_map f a) = n_rows a.
Proof. reflexivity. Qed.
Lemma n_cols_mat_map f a : n_cols (mat_map f a) = n_cols a.
Proof. reflexivity. Qed.
Lemma n_rows_mat_exp a : n_rows (mat_exp a) = n_rows a.
Proof. reflexivity. Qed.
Lemma n_cols_mat_exp a : n_cols (mat_exp a) = n_cols a.
Proof. reflexivity. Qed.
Lemma n_rows_scale s a : n_rows (scale s a) = n_rows a.
Proof. reflexivity. Qed.
Lemma n_cols_scale s a : n_cols (scale s a) = n_cols a.
Proof. reflexivity. Qed.
Lemma n_rows_trans a : n_rows (trans a) = n_cols a.
Proof. reflexivity. Qed.
Lemma n_cols_trans a : n_cols (trans a) = n_rows a.
Proof. reflexivity. Qed.

Create Rewrite HintDb dims.

#[local] Hint Rewrite n_rows_mat_init n_cols_mat_init n_rows_mat_map
  n_cols_mat_map n_rows_mat_exp n_cols_mat_exp n_rows_scale n_cols_scale
  n_rows_trans n_cols_trans : dims.

Ltac op_inv :=
  match goal with
  | H : mat_plus _ _ = Ok _ |- _ =>
      apply elementwise_inv in H; destruct H as (? & ? & ?)
  | H : mat_minus _ _ = Ok _ |- _ =>
      apply elementwise_inv in H; destruct H as (? & ? & ?)
  | H : schur _ _ = Ok _ |- _ =>
      apply elementwise_inv in H; destruct H as (? & ? & ?)
  | H : mat_mul _ _ = Ok _ |- _ =>
      apply mat_mul_inv in H; destruct H as (? & ?)
  | H : each_col_schur _ _ = Ok _ |- _ =>
      apply each_col_inv in H; destruct H as (? & ? & ?)
  | H : each_col_plus _ _ = Ok _ |- _ =>
      apply each_col_inv in H; destruct H as (? & ? & ?)
  end.

(** Solve a goal on sizes from the operations that succeeded. *)
Ltac dims :=
  repeat op_inv; subst; autorewrite with dims in *;
  repeat split; try congruence; try lia.

(** ** C3 *)

Lemma unpack_inv (values : list arma_value) (i : nat) (ref x : arma_value)
  (packed : vec) :
  (total_n_elem values < uword_modulus)%N ->
  nth_error values i = Some ref ->
  unpack (make_packer values) i packed = Ok x -> same_shape x ref.
Proof.
  intros Hw Hi H.
  destruct (make_packer_get values i ref Hw Hi) as (Hg & _).
  unfold unpack in H. rewrite Hg in H. simpl in H.
  destruct ref as [r|r]; simpl in H.
  - apply bind_ok_inv in H. destruct H as (v & Hv & H). inversion H; subst.
    unfold VecInfo.unpack in Hv. simpl in Hv.
    apply subvec_inv in Hv. destruct Hv as (Hb & ->). simpl.
    unfold subvec_in_bounds, vec_n_elem in *.
    pose proof (total_n_elem_firstn_le values i _ Hi) as Hle. simpl in Hle.
    rewrite uword_add_small in Hb by lia.
    rewrite length_slice; lia.
  - apply bind_ok_inv in H. destruct H as (v & Hv & H). inversion H; subst.
    unfold MatInfo.unpack in Hv. simpl in Hv.
    apply bind_ok_inv in Hv. destruct Hv as (s & _ & Hv). inversion Hv.
    simpl. unfold mat_n_rows, mat_n_cols. rewrite !Nat2N.id. auto.
Qed.


(** In a closure that returned, the gradient group of Theta written first is
    still there after the later groups have been packed. *)
Ltac theta_group_kept Hw H0 :=
  repeat match goal with
         | Hp : pack (make_packer ?values) ?i ?g (a_mat _) = Ok ?g'
           |- unpack (make_packer ?values) ?j ?g' = _ =>
             erewrite (unpack_pack_other values i j g g' _ _ Hw H0);
             [ | let E := fresh in intros E; vm_compute in E; discriminate E
               | exact Hp ]
         end;
  reflexivity.

(** An expression evaluated twice has one value. *)
Ltac same_results :=
  repeat match goal with
         | H1 : ?e = Ok _, H2 : ?e = Ok _ |- _ =>
             rewrite H1 in H2; inversion H2; subst; clear H2
         end.



(** ** C5 *)

Lemma square_facts (x : R) :
  (0 <= x * x)%R /\ (x <> 0%R <-> (0 < x * x)%R).
Proof.
  split; [nra|]. split; intros H.
  - destruct (Rtotal_order x 0) as [Hx|[Hx|Hx]]; [nra|contradiction|nra].
  - intros ->. lra.
Qed.

Lemma schur_square (S S2 : mat) :
  schur S S = Ok S2 ->
  n_rows S2 = n_rows S /\ n_cols S2 = n_cols S /\
  forall i j, (i < n_rows S)%nat -> (j < n_cols S)%nat ->
    mat_at S2 i j = (mat_at S i j * mat_at S i j)%R /\
    (0 <= mat_at S2 i j)%R /\
    (mat_at S i j = 0%R -> mat_at S2 i j = 0%R).
Proof.
  intros H. apply elementwise_inv in H. destruct H as (_ & _ & ->).
  autorewrite with dims. split; [reflexivity|]. split; [reflexivity|].
  intros i j Hi Hj. rewrite mat_at_init by assumption.
  split; [reflexivity|]. split; [apply square_facts|].
  intros ->. lra.
Qed.

Ltac S2_is_square_tac :=
  let post := fresh "post" in let H := fresh "H" in
  intros post H; ok_inv; same_results; cbn [post_S post_S2 fst];
  match goal with
  | Hs : schur ?S ?S = Ok ?S2 |- _ => exact (schur_square S S2 Hs)
  end.

Lemma post_run_S2_is_square (la : arma_solvers) (packer : Packer)
  (Y X O w Theta Omega : mat) (w_bar : R) (parameters : vec) :
  S2_is_square_of_S (Full.post_run la packer Y X O w w_bar parameters) /\
  S2_is_square_of_S
    (fst <$> Spherical.post_run packer Y X O w w_bar parameters) /\
  S2_is_square_of_S
    (fst <$> Diagonal.post_run packer Y X O w w_bar parameters) /\
  S2_is_square_of_S (Rank.post_run packer Y X O w parameters) /\
  S2_is_square_of_S (Sparse.post_run packer Y X O w parameters) /\
  S2_is_square_of_S
    (VEstepFull.post_run packer Y X O w Theta Omega parameters) /\
  S2_is_square_of_S
    (VEstepDiagonal.post_run packer Y X O w Theta Omega parameters) /\
  S2_is_square_of_S
    (VEstepSpherical.post_run packer Y X O w Theta Omega parameters).
Proof.
  repeat match goal with |- _ /\ _ => split end.
  - unfold Full.post_run. S2_is_square_tac.
  - unfold Spherical.post_run. S2_is_square_tac.
  - unfold Diagonal.post_run. S2_is_square_tac.
  - unfold Rank.post_run. S2_is_square_tac.
  - unfold Sparse.post_run. S2_is_square_tac.
  - unfold VEstepFull.post_run. S2_is_square_tac.
  - unfold VEstepDiagonal.post_run. S2_is_square_tac.
  - unfold VEstepSpherical.post_run. S2_is_square_tac.
Qed.

Lemma n_rows_sum1 a : n_rows (sum1 a) = n_rows a.
Proof. reflexivity. Qed.
Lemma n_cols_sum1 a : n_cols (sum1 a) = 1%nat.
Proof. reflexivity. Qed.
Lemma n_rows_pow2 a : n_rows (pow2 a) = n_rows a.
Proof. reflexivity. Qed.
Lemma n_cols_pow2 a : n_cols (pow2 a) = n_cols a.
Proof. reflexivity. Qed.

#[local] Hint Rewrite n_rows_sum1 n_cols_sum1 n_rows_pow2 n_cols_pow2 : dims.

Lemma nth_mem_col (v : mat) (i : nat) :
  nth i (mem v) 0%R = mat_at v i 0.
Proof. unfold mat_at. now rewrite Nat.mul_0_l, Nat.add_0_r. Qed.

Lemma nth_nonneg (l : list R) (k : nat) :
  Forall (fun x => (0 <= x)%R) l -> (0 <= nth k l 0)%R.
Proof.
  intros H. destruct (Nat.lt_ge_cases k (length l)) as [Hk|Hk].
  - rewrite Forall_forall in H. apply H. now apply nth_In.
  - rewrite nth_overflow by assumption. lra.
Qed.

Lemma mat_at_pow2_nonneg (M : mat) (i j : nat) :
  (0 <= mat_at (pow2 M) i j)%R.
Proof.
  unfold mat_at, pow2, mat_map. simpl. apply nth_nonneg.
  apply Forall_forall. intros x Hx. apply in_map_iff in Hx.
  destruct Hx as (y & <- & _). nra.
Qed.

Lemma big_sum_pos_exists (n : nat) (f : nat -> R) :
  (forall k, (k < n)%nat -> (0 <= f k)%R) -> big_sum n f <> 0%R ->
  exists k, (k < n)%nat /\ (0 < f k)%R.
Proof.
  induction n as [|n IH]; intros Hf Hs.
  - exfalso. apply Hs. reflexivity.
  - rewrite big_sum_S in Hs.
    assert (Hn : (0 <= f n)%R) by (apply Hf; lia).
    destruct (Rle_lt_or_eq_dec 0 (f n) Hn) as [Hp|Hz].
    + exists n. split; [lia|exact Hp].
    + destruct IH as (k & Hk & Hpk).
      * intros k Hk. apply Hf. lia.
      * intros E. apply Hs. rewrite E, <- Hz. lra.
      * exists k. split; [lia|exact Hpk].
Qed.

(** Non-negative weights whose sum is not zero: the sum is positive and one
    of them is positive. *)
Lemma weights_positive (w : mat) :
  Forall (fun x => (0 <= x)%R) (mem w) -> accu w <> 0%R ->
  (0 < accu w)%R /\
  exists k, (k < length (mem w))%nat /\ (0 < nth k (mem w) 0)%R.
Proof.
  intros Hw Hne. unfold accu in *. rewrite accu_big_sum in *.
  assert (Hf : forall k, (k < length (mem w))%nat -> (0 <= nth k (mem w) 0)%R)
    by (intros; now apply nth_nonneg).
  split.
  - pose proof (big_sum_nonneg _ _ Hf). lra.
  - now apply big_sum_pos_exists.
Qed.

(** The scalar variance of the spherical fit: not negative when the weights
    are not, and not zero once its inverse is finite. *)
Lemma spherical_sigma2_positive (M S S2 v w : mat) (p : nat)
  (n_sigma2 sigma2 inv_sigma2 : R) :
  schur S S = Ok S2 ->
  mat_plus (sum1 (pow2 M)) (scale (double_of_uword p) S2) = Ok v ->
  dot w v = Ok n_sigma2 ->
  div_double n_sigma2 (double_of_uword p * accu w) = Ok sigma2 ->
  div_double 1 sigma2 = Ok inv_sigma2 ->
  Forall (fun x => (0 <= x)%R) (mem w) ->
  (0 < sigma2)%R.
Proof.
  unfold double_of_uword. intros HS2 Hv Hd Hq Hinv Hw.
  apply div_double_inv in Hinv. destruct Hinv as (Hnz & _).
  apply elementwise_inv in HS2. destruct HS2 as (_ & _ & ->).
  apply elementwise_inv in Hv. destruct Hv as (Hr & Hc & ->).
  apply dot_inv in Hd. destruct Hd as (Hlen & ->).
  apply div_double_inv in Hq. destruct Hq as (Hne & ->).
  autorewrite with dims in *.
  assert (Hp : (0 < INR p)%R).
  { pose proof (pos_INR p). destruct (Req_dec (INR p) 0) as [E|E]; [|lra].
    exfalso. apply Hne. rewrite E. lra. }
  assert (Hwne : accu w <> 0%R) by (intros E; apply Hne; rewrite E; lra).
  destruct (weights_positive w Hw Hwne) as (Hbar & _).
  unfold mat_init at 1 in Hlen. simpl in Hlen.
  rewrite length_map, length_seq, Nat.mul_1_r in Hlen.
  match type of Hnz with (?num / ?den)%R <> _ =>
    assert (Hnum : (0 <= num)%R); [|
      assert (Hden : (0 < den)%R) by nra;
      assert (Hq : (0 <= num / den)%R)
        by (apply Rmult_le_pos; [exact Hnum|];
            apply Rlt_le, Rinv_0_lt_compat; exact Hden);
      lra]
  end.
  apply big_sum_nonneg. intros i Hi.
  apply Rmult_le_pos; [now apply nth_nonneg|].
  rewrite nth_mem_col, mat_at_init by lia.
  unfold sum1. rewrite mat_at_init by (autorewrite with dims; lia).
  unfold scale. rewrite mat_at_map;
    [|apply mat_init_wf|autorewrite with dims; lia
     |autorewrite with dims; lia].
  rewrite mat_at_init by lia.
  assert (Hsum : (0 <= big_sum (n_cols (pow2 M))
                         (fun j => mat_at (pow2 M) i j))%R).
  { apply big_sum_nonneg. intros j _. apply mat_at_pow2_nonneg. }
  pose proof (square_facts (mat_at S i 0)) as [Hsq _]. nra.
Qed.

(** The variances of the diagonal fit, one per response: not negative when
    the weights are not, and not zero once their inverses are finite. *)
Lemma diagonal_sigma2_positive (M S S2 sq weighted sigma2 omega2 w : mat) :
  schur S S = Ok S2 ->
  mat_plus (pow2 M) S2 = Ok sq ->
  mat_mul (trans w) sq = Ok weighted ->
  div_scalar weighted (accu w) = Ok sigma2 ->
  pow_m1 (trans sigma2) = Ok omega2 ->
  Forall (fun x => (0 <= x)%R) (mem w) -> is_col w ->
  n_rows sigma2 = 1%nat /\ n_cols sigma2 = n_cols S /\
  forall j, (j < n_cols sigma2)%nat -> (0 < mat_at sigma2 0 j)%R.
Proof.
  intros HS2 Hsq Hm Hq Hinv Hw [Hc Hl].
  apply pow_m1_inv in Hinv. destruct Hinv as (Hnz & _).
  apply elementwise_inv in HS2. destruct HS2 as (_ & _ & ->).
  apply elementwise_inv in Hsq. destruct Hsq as (Hr1 & Hc1 & ->).
  apply mat_mul_inv in Hm. destruct Hm as (Hr2 & ->).
  apply div_scalar_inv in Hq. destruct Hq as (Hne & ->).
  autorewrite with dims in *.
  destruct (weights_positive w Hw Hne) as (Hbar & _).
  split; [exact Hc|]. split; [congruence|].
  intros j Hj.
  match type of Hnz with Forall _ (mem (trans ?s2)) =>
    assert (Hnzj : mat_at (trans s2) j 0 <> 0%R)
      by (apply (mat_at_mem (fun x => x <> 0%R) (trans s2) j 0);
          [apply mat_init_wf|exact Hnz
          |unfold trans; autorewrite with dims; lia
          |unfold trans; autorewrite with dims; lia])
  end.
  unfold trans at 1 in Hnzj.
  rewrite mat_at_init in Hnzj by (autorewrite with dims; lia).
  rewrite mat_at_map in Hnzj |- *;
    try (first [apply mat_init_wf|autorewrite with dims; lia]).
  rewrite mat_at_init in Hnzj |- * by lia.
  match type of Hnzj with (?num / ?den)%R <> _ =>
    assert (Hnum : (0 <= num)%R); [|
      assert (Hq : (0 <= num / den)%R)
        by (apply Rmult_le_pos; [exact Hnum|];
            apply Rlt_le, Rinv_0_lt_compat; exact Hbar);
      lra]
  end.
  apply big_sum_nonneg. intros i Hi.
  apply Rmult_le_pos.
  - unfold trans. rewrite mat_at_init by lia. rewrite <- nth_mem_col.
    now apply nth_nonneg.
  - rewrite !mat_at_init by lia.
    pose proof (mat_at_pow2_nonneg M i j).
    pose proof (square_facts (mat_at S i j)) as [Hsq _]. lra.
Qed.

(** C5, counterexample.  The claim fails at [S = 0].  The diagonal fit
    with [M = 1] and [S = 0] ends with finite outputs and [S2 = 0], which is
    not strictly positive.  With [M = 0] as well, [sigma2] is zero and its
    inverse is not finite, in the spherical and in the diagonal fit.  With
    the weights [(2, -1)], [M = 0] and [S = (1, 2)] the diagonal fit ends
    with finite outputs and [sigma2 = -2]. *)
Lemma variance_zero_for_zero_S :
  (exists post sigma2,
     Diagonal.post_run ex_packer3 ex_Y ex_X ex_O ex_w (accu ex_w)
       ex_parameters3_zero_S = Ok (post, sigma2) /\
     mat_at (post_S post) 0 0 = 0%R /\
     ~ (0 < mat_at (post_S2 post) 0 0)%R) /\
  Spherical.post_run ex_packer3 ex_Y ex_X ex_O ex_w (accu ex_w)
    ex_parameters3_zero = NonFinite /\
  Diagonal.post_run ex_packer3 ex_Y ex_X ex_O ex_w (accu ex_w)
    ex_parameters3_zero = NonFinite /\
  (exists post sigma2,
     Diagonal.post_run ex2_packer3 ex2_Y ex2_X ex2_O ex2_w_negative
       (accu ex2_w_negative) ex2_parameters3 = Ok (post, sigma2) /\
     post_S post = ex2_S /\
     mat_at sigma2 0 0 = (-2)%R /\
     ~ (0 < mat_at sigma2 0 0)%R).
Proof.
  split; [|split; [|split]].
  - eexists. eexists. split; [eval_arma; reflexivity|].
    eval_cbv. split; [reflexivity|]. intros H. lra.
  - eval_closure. reflexivity.
  - eval_arma. reflexivity.
  - eexists. eexists. split; [eval_arma; reflexivity|].
    eval_cbv. split; [reflexivity|]. split; [lra|]. intros H. lra.
Qed.

(** C5, amended.  After the optimization, in every variant, the local [S2]
    is the element-wise square of [S]: it is never negative, whatever the
    sign of [S], and it is zero where [S] is zero.  Whenever the step of the
    spherical fit returns finite values and the weights are not negative,
    its scalar [sigma2] is strictly positive; likewise each element of the
    row [sigma2] of the diagonal fit.  Both are called with the sum of the
    weights for [w_bar]. *)
Theorem variance_from_squared_S (la : arma_solvers) (packer : Packer)
  (Y X O w Theta Omega : mat) (w_bar : R) (parameters : vec) :
  (S2_is_square_of_S (Full.post_run la packer Y X O w w_bar parameters) /\
   S2_is_square_of_S
     (fst <$> Spherical.post_run packer Y X O w w_bar parameters) /\
   S2_is_square_of_S
     (fst <$> Diagonal.post_run packer Y X O w w_bar parameters) /\
   S2_is_square_of_S (Rank.post_run packer Y X O w parameters) /\
   S2_is_square_of_S (Sparse.post_run packer Y X O w parameters) /\
   S2_is_square_of_S
     (VEstepFull.post_run packer Y X O w Theta Omega parameters) /\
   S2_is_square_of_S
     (VEstepDiagonal.post_run packer Y X O w Theta Omega parameters) /\
   S2_is_square_of_S
     (VEstepSpherical.post_run packer Y X O w Theta Omega parameters)) /\
  (forall post sigma2,
     Spherical.post_run packer Y X O w (accu w) parameters
     = Ok (post, sigma2) ->
     Forall (fun x => (0 <= x)%R) (mem w) ->
     (0 < sigma2)%R) /\
  (forall post sigma2,
     Diagonal.post_run packer Y X O w (accu w) parameters
     = Ok (post, sigma2) ->
     Forall (fun x => (0 <= x)%R) (mem w) -> is_col w ->
     n_rows sigma2 = 1%nat /\ n_cols sigma2 = n_cols (post_S post) /\
     forall j, (j < n_cols sigma2)%nat -> (0 < mat_at sigma2 0 j)%R).
Proof.
  split; [apply post_run_S2_is_square|]. split.
  - intros post sigma2 H Hw.
    unfold Spherical.post_run in H. ok_inv. same_results.
    eapply spherical_sigma2_positive; eassumption.
  - intros post sigma2 H Hw Hcol.
    unfold Diagonal.post_run in H. ok_inv. same_results.
    cbn [post_S].
    eapply diagonal_sigma2_positive; eassumption.
Qed.

Lemma variance_from_squared_S_witness :
  (exists post sigma2,
     Spherical.post_run ex_packer3 ex_Y ex_X ex_O ex_w (accu ex_w)
       ex_parameters3 = Ok (post, sigma2) /\
     (0 < sigma2)%R) /\
  (exists post sigma2,
     Diagonal.post_run ex_packer3 ex_Y ex_X ex_O ex_w (accu ex_w)
       ex_parameters3 = Ok (post, sigma2) /\
     (0 < mat_at sigma2 0 0)%R).
Proof.
  assert (Es : exists post sigma2,
             Spherical.post_run ex_packer3 ex_Y ex_X ex_O ex_w (accu ex_w)
               ex_parameters3 = Ok (post, sigma2)).
  { eexists. eexists. eval_closure. reflexivity. }
  assert (Ed : exists post sigma2,
             Diagonal.post_run ex_packer3 ex_Y ex_X ex_O ex_w (accu ex_w)
               ex_parameters3 = Ok (post, sigma2) /\
             n_cols sigma2 = 1%nat).
  { eexists. eexists. split; [eval_arma; reflexivity|reflexivity]. }
  destruct Es as (posts & sigmas & Es).
  destruct Ed as (post & sigma2 & Ed & Hc).
  destruct (variance_from_squared_S scalar_solvers ex_packer3 ex_Y ex_X ex_O
              ex_w ex_Theta ex_Omega (accu ex_w) ex_parameters3)
    as (_ & Hs & Hd).
  assert (Hw : Forall (fun x => (0 <= x)%R) (mem ex_w))
    by (repeat constructor; lra).
  split.
  - exists posts, sigmas. split; [exact Es|]. exact (Hs posts sigmas Es Hw).
  - exists post, sigma2. split; [exact Ed|].
    destruct (Hd post sigma2 Ed Hw) as (_ & _ & Hpos);
      [split; reflexivity|].
    apply Hpos. rewrite Hc. lia.
Defined.

(** ** C3, on the closures *)






(** ** The mean matrix of each closure *)

Lemma mat_at_scale (s : R) (a : mat) (i j : nat) :
  mat_at (scale s a) i j = (s * mat_at a i j)%R.
Proof.
  unfold mat_at, scale, mat_map. simpl.
  replace 0%R with (s * 0)%R at 1 by ring.
  apply (map_nth (fun x => (s * x)%R)).
Qed.

Lemma mat_at_exp_init (r c : nat) (f : nat -> nat -> R) (i j : nat) :
  (i < r)%nat -> (j < c)%nat ->
  mat_at (mat_exp (mat_init r c f)) i j = exp (f i j).
Proof.
  intros Hi Hj. unfold mat_exp.
  rewrite mat_at_map by (try apply mat_init_wf; assumption).
  now rewrite mat_at_init.
Qed.

Lemma big_sum_scal (n : nat) (s : R) (f : nat -> R) :
  big_sum n (fun k => (s * f k)%R) = (s * big_sum n f)%R.
Proof.
  induction n as [|n IH]; [unfold big_sum; simpl; ring|].
  rewrite !big_sum_S, IH. ring.
Qed.

Lemma mean_matrix_elementwise (S S2 Z x : mat) (i j : nat) :
  schur S S = Ok S2 -> mat_plus Z (scale 0.5 S2) = Ok x ->
  (i < n_rows (mat_exp x))%nat -> (j < n_cols (mat_exp x))%nat ->
  mat_at (mat_exp x) i j
  = exp (mat_at Z i j + 0.5 * (mat_at S i j * mat_at S i j)).
Proof.
  intros HS2 Hx. apply elementwise_inv in HS2. destruct HS2 as (_ & _ & ->).
  apply elementwise_inv in Hx. destruct Hx as (Hr & Hc & ->).
  autorewrite with dims in *. intros Hi Hj.
  rewrite mat_at_exp_init by assumption.
  rewrite mat_at_scale, mat_at_init by lia. reflexivity.
Qed.

Lemma mean_matrix_spherical (S S2 Z x : mat) (i j : nat) :
  schur S S = Ok S2 -> each_col_plus Z (scale 0.5 S2) = Ok x ->
  (i < n_rows (mat_exp x))%nat -> (j < n_cols (mat_exp x))%nat ->
  mat_at (mat_exp x) i j
  = exp (mat_at Z i j + 0.5 * (mat_at S i 0 * mat_at S i 0)).
Proof.
  intros HS2 Hx. apply elementwise_inv in HS2. destruct HS2 as (_ & _ & ->).
  apply each_col_inv in Hx. destruct Hx as (Hr & Hc & ->).
  autorewrite with dims in *. intros Hi Hj.
  rewrite mat_at_exp_init by assumption.
  rewrite mat_at_scale, mat_at_init by lia. reflexivity.
Qed.

Lemma mean_matrix_rank (S S2 B B2 V Z x : mat) (i j : nat) :
  schur S S = Ok S2 -> schur B B = Ok B2 ->
  mat_mul (scale 0.5 S2) (trans B2) = Ok V -> mat_plus Z V = Ok x ->
  (i < n_rows (mat_exp x))%nat -> (j < n_cols (mat_exp x))%nat ->
  mat_at (mat_exp x) i j
  = exp (mat_at Z i j
         + 0.5 * big_sum (n_cols S)
                   (fun k => (mat_at S i k * mat_at S i k
                              * (mat_at B j k * mat_at B j k))%R)).
Proof.
  intros HS2 HB2 HV Hx.
  apply elementwise_inv in HS2. destruct HS2 as (_ & _ & ->).
  apply elementwise_inv in HB2. destruct HB2 as (_ & _ & ->).
  apply mat_mul_inv in HV. destruct HV as (Hk & ->).
  apply elementwise_inv in Hx. destruct Hx as (Hr & Hc & ->).
  autorewrite with dims in *. intros Hi Hj.
  rewrite mat_at_exp_init by assumption.
  rewrite mat_at_init by lia. do 2 f_equal.
  rewrite <- big_sum_scal. apply big_sum_ext. intros k Hk'.
  rewrite mat_at_scale. unfold trans.
  rewrite !mat_at_init by (autorewrite with dims; lia). ring.
Qed.

Lemma mean_matrix_from_S (S Z x : mat) (i j : nat) :
  mat_plus Z (scale 0.5 S) = Ok x ->
  (i < n_rows (mat_exp x))%nat -> (j < n_cols (mat_exp x))%nat ->
  mat_at (mat_exp x) i j = exp (mat_at Z i j + 0.5 * mat_at S i j).
Proof.
  intros Hx. apply elementwise_inv in Hx. destruct Hx as (Hr & Hc & ->).
  autorewrite with dims in *. intros Hi Hj.
  rewrite mat_at_exp_init by assumption.
  now rewrite mat_at_scale.
Qed.

Ltac mean_matrix_tac lem :=
  let l := fresh "l" in let H := fresh "H" in
  let i := fresh "i" in let j := fresh "j" in
  intros l H i j; ok_inv; same_results;
  cbn [loc_A loc_Z loc_S]; eapply lem; eassumption.

(** What each closure computes as its mean matrix.  Six closures compute
    [exp(Z + 0.5 * V)] with [V] the variance derived from the square of [S];
    the closures of the sparse variant and of the diagonal VE step take [S]
    itself for [V]. *)
Lemma mean_matrix_of_closures (la : arma_solvers) (packer : Packer)
  (Y X O w Theta Omega : mat) (w_bar : R) (parameters grad_storage : vec) :
  mean_matrix_is V_S2
    (Full.objective_and_grad_locals la packer Y X O w w_bar parameters
       grad_storage) /\
  mean_matrix_is V_row_S2
    (Spherical.objective_and_grad_locals packer Y X O w w_bar parameters
       grad_storage) /\
  mean_matrix_is V_S2
    (Diagonal.objective_and_grad_locals packer Y X O w w_bar parameters
       grad_storage) /\
  (forall B, unpack_mat packer Rank.B_ID parameters = Ok B ->
     mean_matrix_is (V_rank B)
       (Rank.objective_and_grad_locals packer Y X O w parameters
          grad_storage)) /\
  mean_matrix_is V_S2
    (VEstepFull.objective_and_grad_locals packer Y X O w Theta Omega
       parameters grad_storage) /\
  mean_matrix_is V_row_S2
    (VEstepSpherical.objective_and_grad_locals packer Y X O w Theta Omega
       parameters grad_storage) /\
  mean_matrix_is V_S
    (Sparse.objective_and_grad_locals packer Y X O w Omega parameters
       grad_storage) /\
  mean_matrix_is V_S
    (VEstepDiagonal.objective_and_grad_locals packer Y X O w Theta Omega
       parameters grad_storage).
Proof.
  unfold mean_matrix_is, V_S2, V_row_S2, V_S, V_rank.
  repeat match goal with |- _ /\ _ => split end.
  - unfold Full.objective_and_grad_locals.
    mean_matrix_tac mean_matrix_elementwise.
  - unfold Spherical.objective_and_grad_locals.
    mean_matrix_tac mean_matrix_spherical.
  - unfold Diagonal.objective_and_grad_locals.
    mean_matrix_tac mean_matrix_elementwise.
  - intros B HB. unfold Rank.objective_and_grad_locals.
    mean_matrix_tac mean_matrix_rank.
  - unfold VEstepFull.objective_and_grad_locals.
    mean_matrix_tac mean_matrix_elementwise.
  - unfold VEstepSpherical.objective_and_grad_locals.
    mean_matrix_tac mean_matrix_spherical.
  - unfold Sparse.objective_and_grad_locals.
    mean_matrix_tac mean_matrix_from_S.
  - unfold VEstepDiagonal.objective_and_grad_locals.
    mean_matrix_tac mean_matrix_from_S.
Qed.

(* ===================================================================== *)
(** * Further properties of the packer *)

Lemma firstn_add_skipn (A : Type) (m : list A) (a b : nat) :
  firstn (a + b) m = firstn a m ++ firstn b (skipn a m).
Proof.
  revert m. induction a as [|a IH]; intros m; [reflexivity|].
  destruct m as [|x m]; simpl.
  - now rewrite firstn_nil.
  - now rewrite IH.
Qed.

Lemma slice_app (l : list R) (o a b : nat) :
  slice l o (a + b) = slice l o a ++ slice l (o + a) b.
Proof.
  unfold slice. rewrite firstn_add_skipn, skipn_skipn.
  now replace (a + o) with (o + a) by lia.
Qed.

Lemma slice_all (l : list R) : slice l 0 (length l) = l.
Proof. unfold slice. simpl. apply firstn_all. Qed.

Lemma total_n_elem_app (a b : list arma_value) :
  total_n_elem (a ++ b) = (total_n_elem a + total_n_elem b)%N.
Proof. induction a as [|x a IH]; simpl; [reflexivity|]. rewrite IH. lia. Qed.

Lemma unpack_from_suffix (values : list arma_value) (packed : vec) :
  (total_n_elem values < uword_modulus)%N ->
  (size (make_packer values) <= N.of_nat (length packed))%N ->
  forall suf pre, values = pre ++ suf ->
  exists xs,
    unpack_from (make_packer values) packed (length pre) (length suf) = Ok xs /\
    Forall2 same_shape xs suf /\
    vectorise_all xs
    = slice packed (N.to_nat (total_n_elem pre)) (N.to_nat (total_n_elem suf)).
Proof.
  intros Hw Hlen. induction suf as [|ref suf IH]; intros pre E.
  - exists []. simpl. repeat split; constructor.
  - assert (Hnth : nth_error values (length pre) = Some ref).
    { rewrite E, nth_error_app2, Nat.sub_diag by lia. reflexivity. }
    assert (Hpre : firstn (length pre) values = pre).
    { rewrite E, firstn_app, Nat.sub_diag, firstn_all. simpl.
      now rewrite app_nil_r. }
    destruct (unpack_spec values (length pre) ref packed Hw Hnth Hlen)
      as (x & Hu & Hs & _ & Hx).
    rewrite Hpre in Hx.
    destruct (IH (pre ++ [ref])) as (xs & Hxs & Hss & Hc).
    { rewrite <- app_assoc. exact E. }
    rewrite length_app in Hxs. simpl in Hxs. rewrite Nat.add_1_r in Hxs.
    exists (x :: xs). simpl. rewrite Hu. simpl. rewrite Hxs. simpl.
    split; [reflexivity|]. split; [now constructor|].
    unfold vectorise_all in *. simpl. rewrite Hx, Hc.
    rewrite total_n_elem_app. simpl.
    assert (Hfit : (total_n_elem pre + (value_n_elem ref + total_n_elem suf)
                    < uword_modulus)%N).
    { rewrite E, total_n_elem_app in Hw. simpl in Hw. exact Hw. }
    replace (N.to_nat (value_n_elem ref + total_n_elem suf))
      with (N.to_nat (value_n_elem ref) + N.to_nat (total_n_elem suf)) by lia.
    rewrite slice_app. do 2 f_equal. lia.
Qed.

(** X1.  The slices of the groups of a packer are contiguous, disjoint and
    cover the packed vector: unpacking all the groups of a vector of the
    packer's size, in declaration order, gives values of the groups' shapes
    whose storage, put end to end, is the packed vector itself. *)
Theorem groups_cover_packed_vector (values : list arma_value) (packed : vec) :
  (total_n_elem values < uword_modulus)%N ->
  N.of_nat (length packed) = size (make_packer values) ->
  exists xs,
    unpack_from (make_packer values) packed 0 (length values) = Ok xs /\
    Forall2 same_shape xs values /\
    vectorise_all xs = packed.
Proof.
  intros Hw Hlen.
  assert (Hle : (size (make_packer values) <= N.of_nat (length packed))%N)
    by (rewrite Hlen; apply N.le_refl).
  destruct (unpack_from_suffix values packed Hw Hle values [] eq_refl)
    as (xs & Hxs & Hs & Hc).
  exists xs. split; [exact Hxs|]. split; [exact Hs|].
  rewrite Hc. simpl. rewrite make_packer_size in Hlen by exact Hw.
  rewrite <- Hlen, Nat2N.id. apply slice_all.
Qed.

Lemma groups_cover_packed_vector_witness :
  exists xs,
    unpack_from (make_packer internal_test_values) (repeat 3%R 54) 0 4
    = Ok xs /\
    Forall2 same_shape xs internal_test_values /\
    vectorise_all xs = repeat 3%R 54.
Proof.
  apply (groups_cover_packed_vector internal_test_values (repeat 3%R 54));
    reflexivity.
Defined.


(** What [unpack] does on a group of a packer, in full: a bounds check on
    the group's slice, then the slice in the group's shape. *)
Lemma unpack_char (values : list arma_value) (i : nat) (ref : arma_value)
  (packed : vec) :
  (total_n_elem values < uword_modulus)%N ->
  nth_error values i = Some ref ->
  unpack (make_packer values) i packed
  = if (total_n_elem (firstn i values) + value_n_elem ref
        <=? N.of_nat (length packed))%N
    then Ok (match ref with
             | a_vec r =>
                 a_vec (slice packed (N.to_nat (total_n_elem (firstn i values)))
                          (length r))
             | a_mat r =>
                 a_mat (Mat (n_rows r) (n_cols r)
                          (slice packed
                             (N.to_nat (total_n_elem (firstn i values)))
                             (n_rows r * n_cols r)))
             end)
    else Throw (arma_logic_error "subvec(): size out of bounds").
Proof.
  intros Hw H.
  destruct (make_packer_get values i ref Hw H) as (Hg & Ho & Hn & Hb).
  pose proof (total_n_elem_firstn_le values i ref H) as Hle.
  unfold unpack. rewrite Hg. simpl.
  destruct ref as [r|r]; simpl in *.
  - unfold VecInfo.unpack, subvec, subvec_in_bounds. simpl.
    unfold vec_n_elem. rewrite uword_add_small by lia.
    destruct (N.leb_spec (total_n_elem (firstn i values) + N.of_nat (length r))
                (N.of_nat (length packed))); simpl; [|reflexivity].
    rewrite Nat2N.id. reflexivity.
  - unfold MatInfo.unpack, subvec, subvec_in_bounds. simpl.
    unfold mat_n_rows, mat_n_cols.
    rewrite uword_mul_small by lia. rewrite uword_add_small by lia.
    destruct (N.leb_spec (total_n_elem (firstn i values)
                          + N.of_nat (n_rows r) * N.of_nat (n_cols r))
                (N.of_nat (length packed))); simpl; [|reflexivity].
    rewrite !Nat2N.id. unfold reshape, slice. do 4 f_equal. lia.
Qed.

Lemma get_none (values : list arma_value) (i : nat) :
  nth_error values i = None ->
  get (make_packer values) i
  = Throw (arma_logic_error "std::get: no such element").
Proof.
  intros H. unfold get.
  assert (E : nth_error (elements (make_packer values)) i = None).
  { apply nth_error_None. rewrite make_packer_elements_length.
    now apply nth_error_None. }
  now rewrite E.
Qed.

(** X2.  Packing a value into one group writes that group's slice and
    nothing else: the packed vector keeps its length, every other group
    unpacks to what it did before, and the group itself then unpacks to
    the storage of the value that was packed. *)
Theorem pack_writes_only_its_group (values : list arma_value) (i : nat)
  (packed packed' : vec) (expr : arma_value) :
  (total_n_elem values < uword_modulus)%N ->
  pack (make_packer values) i packed expr = Ok packed' ->
  length packed' = length packed /\
  (forall j, j <> i ->
     unpack (make_packer values) j packed'
     = unpack (make_packer values) j packed) /\
  (exists x, unpack (make_packer values) i packed' = Ok x /\
             vectorise_value x = vectorise_value expr).
Proof.
  intros Hw H.
  destruct (pack_inv values i packed packed' expr Hw H)
    as (ref & Hi & Hb & Hlen & E).
  assert (Hl : length packed' = length packed).
  { rewrite E. apply length_splice; [lia|exact Hlen]. }
  split; [exact Hl|]. split.
  - intros j Hj. destruct (nth_error values j) as [refj|] eqn:Ej.
    + apply (unpack_pack_other values i j packed packed' expr refj Hw Ej);
        [congruence|exact H].
    + unfold unpack. now rewrite (get_none values j Ej).
  - rewrite (unpack_char values i ref packed' Hw Hi), Hl.
    destruct (N.leb_spec (total_n_elem (firstn i values) + value_n_elem ref)
                (N.of_nat (length packed))) as [_|C]; [|lia].
    eexists. split; [reflexivity|]. rewrite E.
    destruct ref as [r|r]; simpl in *.
    + rewrite Nat2N.id in Hlen.
      rewrite <- (slice_splice_same packed
                    (N.to_nat (total_n_elem (firstn i values)))
                    (length r) (vectorise_value expr)) at 2; [|lia|exact Hlen].
      now rewrite Nat2N.id.
    + unfold vectorise.
      replace (N.to_nat (N.of_nat (n_rows r) * N.of_nat (n_cols r)))
        with (n_rows r * n_cols r) in * by lia.
      apply slice_splice_same; [lia|exact Hlen].
Qed.

Lemma pack_writes_only_its_group_witness :
  let values := internal_test_values in
  let packed := repeat 0%R 54 in
  let packed' := splice packed 0 40 (repeat 1%R 40) in
  length packed' = length packed /\
  (forall j, j <> 1 ->
     unpack (make_packer values) j packed'
     = unpack (make_packer values) j packed) /\
  (exists x, unpack (make_packer values) 1 packed' = Ok x /\
             vectorise_value x = repeat 1%R 40).
Proof.
  apply (pack_writes_only_its_group internal_test_values 1 (repeat 0%R 54)
           (splice (repeat 0%R 54) 0 40 (repeat 1%R 40))
           (a_mat (Mat 4 10 (repeat 1%R 40)))); reflexivity.
Defined.


Lemma subvec_assign_out_of_bounds (packed : vec) (o n : uword) (x : vec) :
  (o + n < uword_modulus)%N -> (N.of_nat (length packed) < o + n)%N ->
  subvec_assign packed o n x
  = Throw (arma_logic_error "subvec(): size out of bounds").
Proof.
  intros Hs Hb. unfold subvec_assign, subvec_in_bounds.
  rewrite uword_add_small by exact Hs.
  destruct (N.leb_spec (o + n) (N.of_nat (length packed))); [lia|reflexivity].
Qed.

Lemma subvec_assign_wrong_size (packed : vec) (o n : uword) (x : vec) :
  N.of_nat (length x) <> n ->
  exists what, subvec_assign packed o n x = Throw (arma_logic_error what).
Proof.
  intros Hx. unfold subvec_assign.
  destruct (subvec_in_bounds packed o n); [|eexists; reflexivity].
  destruct (N.eqb_spec (N.of_nat (length x)) n); [contradiction|].
  eexists; reflexivity.
Qed.

(** X3.  Neither [unpack] nor [pack] reads or writes past the end of the
    packed vector: on a vector that ends before the end of the group's
    slice, both throw an Armadillo logic error. *)
Theorem short_packed_vector_is_rejected (values : list arma_value) (i : nat)
  (ref expr : arma_value) (packed : vec) :
  (total_n_elem values < uword_modulus)%N ->
  nth_error values i = Some ref ->
  (N.of_nat (length packed)
   < total_n_elem (firstn i values) + value_n_elem ref)%N ->
  (exists what,
     unpack (make_packer values) i packed = Throw (arma_logic_error what)) /\
  (exists what,
     pack (make_packer values) i packed expr = Throw (arma_logic_error what)).
Proof.
  intros Hw H Hshort. split.
  - rewrite (unpack_char values i ref packed Hw H).
    destruct (N.leb_spec (total_n_elem (firstn i values) + value_n_elem ref)
                (N.of_nat (length packed))); [lia|].
    eexists; reflexivity.
  - destruct (make_packer_get values i ref Hw H) as (Hg & Ho & Hn & Hb).
    pose proof (total_n_elem_firstn_le values i ref H) as Hle.
    unfold pack. rewrite Hg. simpl.
    destruct ref as [r|r]; simpl in *.
    + assert (K : forall x, VecInfo.pack
                  (VecInfo.mk (total_n_elem (firstn i values)) (vec_n_elem r))
                  packed x
                = Throw (arma_logic_error "subvec(): size out of bounds")).
      { intros x. unfold VecInfo.pack, vec_n_elem. simpl.
        apply subvec_assign_out_of_bounds; lia. }
      destruct expr as [v|m].
      * eexists. apply K.
      * destruct (Nat.eqb (n_cols m) 1); eexists; [apply K|reflexivity].
    + assert (K : forall x, MatInfo.pack
                  (MatInfo.mk (total_n_elem (firstn i values)) (mat_n_rows r)
                     (mat_n_cols r)) packed x
                = Throw (arma_logic_error "subvec(): size out of bounds")).
      { intros x. unfold MatInfo.pack, mat_n_rows, mat_n_cols. simpl.
        rewrite uword_mul_small by lia.
        apply subvec_assign_out_of_bounds; lia. }
      destruct expr as [v|m]; eexists; apply K.
Qed.

Lemma short_packed_vector_is_rejected_witness :
  (exists what,
     unpack (make_packer internal_test_values) 3 (repeat 0%R 50)
     = Throw (arma_logic_error what)) /\
  (exists what,
     pack (make_packer internal_test_values) 3 (repeat 0%R 50)
       (a_vec (repeat 1%R 7))
     = Throw (arma_logic_error what)).
Proof.
  apply (short_packed_vector_is_rejected internal_test_values 3
           (a_vec (repeat 1%R 7)) (a_vec (repeat 1%R 7)) (repeat 0%R 50));
    reflexivity.
Defined.

(** X4.  [pack] never resizes a group: a value whose number of elements is
    not the one the group was declared with is rejected with an Armadillo
    logic error, whatever the packed vector is. *)
Theorem pack_rejects_wrong_element_count (values : list arma_value) (i : nat)
  (ref expr : arma_value) (packed : vec) :
  (total_n_elem values < uword_modulus)%N ->
  nth_error values i = Some ref ->
  N.of_nat (length (vectorise_value expr)) <> value_n_elem ref ->
  exists what,
    pack (make_packer values) i packed expr = Throw (arma_logic_error what).
Proof.
  intros Hw H Hne.
  destruct (make_packer_get values i ref Hw H) as (Hg & Ho & Hn & Hb).
  pose proof (total_n_elem_firstn_le values i ref H) as Hle.
  unfold pack. rewrite Hg. simpl.
  destruct ref as [r|r]; simpl in *.
  - destruct expr as [v|m]; simpl in Hne.
    + apply subvec_assign_wrong_size. exact Hne.
    + destruct (Nat.eqb (n_cols m) 1); [|eexists; reflexivity].
      apply subvec_assign_wrong_size. exact Hne.
  - unfold MatInfo.pack, mat_n_rows, mat_n_cols. simpl.
    rewrite uword_mul_small by lia.
    destruct expr as [v|m]; apply subvec_assign_wrong_size; exact Hne.
Qed.

Lemma pack_rejects_wrong_element_count_witness :
  exists what,
    pack (make_packer internal_test_values) 1 (repeat 0%R 54)
      (a_mat (Mat 4 9 (repeat 1%R 36)))
    = Throw (arma_logic_error what).
Proof.
  apply (pack_rejects_wrong_element_count internal_test_values 1
           (a_mat (Mat 4 10 (repeat 0%R 40)))
           (a_mat (Mat 4 9 (repeat 1%R 36))) (repeat 0%R 54));
    [reflexivity|reflexivity|discriminate].
Defined.


(* ===================================================================== *)
(** * Further properties of the driver *)




Lemma minimize_handle_lifecycle (lib : nlopt_library) (parameters : vec)
  (config : OptimizerConfiguration)
  (objective_and_grad_fn : vec -> vec -> result (R * vec)) :
  handle_lifecycle
    (out_events (minimize_objective_on_parameters lib parameters config
                   objective_and_grad_fn)).
Proof.
  unfold minimize_objective_on_parameters, handle_lifecycle.
  destruct (negb _); [now left|].
  destruct (nlopt_create lib _ _) as [optimizer|]; [|now left].
  right.
  destruct (configure lib optimizer config) as [optimizer'| |e].
  - destruct (run_optimizer _ _ _) as [[[[[st x] minf]| |e] data'] trace];
      simpl; do 3 eexists; reflexivity.
  - simpl. exists (algorithm config), (unsigned_of_uword (vec_n_elem parameters)), [].
    reflexivity.
  - simpl. exists (algorithm config), (unsigned_of_uword (vec_n_elem parameters)), [].
    reflexivity.
Qed.

(** X5.  The optimizer handle never leaks and is never used after it is
    destroyed: whatever the library, the configuration and the closure do
    (sizes that disagree, a refused creation, a failing setter, a closure
    that throws, any final status), the events of a call of the driver are
    either none at all or a creation, then evaluations of the objective
    only, then one destruction. *)
Theorem driver_releases_the_handle (lib : nlopt_library) (parameters : vec)
  (config : OptimizerConfiguration)
  (objective_and_grad_fn : vec -> vec -> result (R * vec)) :
  handle_lifecycle
    (out_events (minimize_objective_on_parameters lib parameters config
                   objective_and_grad_fn)).
Proof.
  exact (minimize_handle_lifecycle lib parameters config
           objective_and_grad_fn).
Qed.




Lemma filter_objective_events (a : nlopt_algorithm) (n : N)
  (points : list vec) :
  length (filter is_objective
            (ev_create a n :: map ev_objective points ++ [ev_destroy]))
  = length points.
Proof.
  simpl. induction points as [|x points IH]; simpl; [reflexivity|].
  now rewrite IH.
Qed.

Lemma minimize_reports_evaluations (lib : nlopt_library) (parameters : vec)
  (config : OptimizerConfiguration)
  (objective_and_grad_fn : vec -> vec -> result (R * vec))
  (r : OptimizerResult) :
  let out := minimize_objective_on_parameters lib parameters config
               objective_and_grad_fn in
  out_result out = Ok r ->
  out_events out <> [] /\
  nb_iterations r
  = Z.of_nat (length (filter is_objective (out_events out))).
Proof.
  unfold minimize_objective_on_parameters.
  destruct (negb _); [discriminate|].
  destruct (nlopt_create lib _ _) as [optimizer|]; [|discriminate].
  destruct (configure lib optimizer config) as [optimizer'| |e];
    try discriminate.
  destruct (run_optimizer _ _ _) as [[[[[st x] minf]| |e] data'] trace] eqn:E;
    try discriminate.
  cbn [out_result out_events]. intros H. inversion H; subst r. clear H.
  split; [discriminate|].
  rewrite filter_objective_events, length_rev.
  pose proof (run_optimizer_counts _ _ _ _ _ _ E) as (Hn & _ & _).
  cbn [od_nb_iterations length nb_iterations] in *. lia.
Qed.

Lemma optimize_then_reports (P : Type) (lib : nlopt_library)
  (parameters : vec) (config : OptimizerConfiguration)
  (objective_and_grad : vec -> vec -> result (R * vec))
  (post_run : vec -> result P) :
  reports_evaluations
    (optimize_then lib parameters config objective_and_grad post_run).
Proof.
  unfold reports_evaluations, optimize_then. cbn [eo_events eo_result].
  split; [apply minimize_handle_lifecycle|].
  intros f H. apply bind_ok_inv in H. destruct H as (r & Hr & H).
  apply bind_ok_inv in H. destruct H as (post & _ & H).
  inversion H; subst f. cbn [fit_iterations].
  exact (minimize_reports_evaluations lib parameters config
           objective_and_grad r Hr).
Qed.

Lemma before_optimizer_reports (A P : Type) (prepared : result A)
  (k : A -> entry_outcome (fit P)) :
  (forall a, reports_evaluations (k a)) ->
  reports_evaluations (before_optimizer prepared k).
Proof.
  intros Hk. destruct prepared as [a| |e]; simpl; [apply Hk| |];
    (split; [now left|intros f H; discriminate H]).
Qed.

Ltac exported_reports :=
  apply before_optimizer_reports; intros [[packer parameters] config];
  apply optimize_then_reports.

(** X7.  Each of the eight exported functions releases the optimizer handle
    on every way out, also when it throws, and a fit it returns to R
    reports as [iterations] exactly the number of times the objective
    closure was evaluated, with a handle that had been created. *)
Theorem exported_functions_report_evaluations (lib : nlopt_library)
  (la : arma_solvers) (init_parameters configuration : list (string * SEXP))
  (Y X O w Theta Omega : mat) :
  reports_evaluations
    (cpp_optimize_full lib la init_parameters Y X O w configuration) /\
  reports_evaluations
    (cpp_optimize_spherical lib init_parameters Y X O w configuration) /\
  reports_evaluations
    (cpp_optimize_diagonal lib init_parameters Y X O w configuration) /\
  reports_evaluations
    (cpp_optimize_rank lib init_parameters Y X O w configuration) /\
  reports_evaluations
    (cpp_optimize_sparse lib init_parameters Y X O w Omega configuration) /\
  reports_evaluations
    (cpp_optimize_vestep_full lib init_parameters Y X O w Theta Omega
       configuration) /\
  reports_evaluations
    (cpp_optimize_vestep_diagonal lib init_parameters Y X O w Theta Omega
       configuration) /\
  reports_evaluations
    (cpp_optimize_vestep_spherical lib init_parameters Y X O w Theta Omega
       configuration).
Proof.
  repeat match goal with |- _ /\ _ => split end; exported_reports.
Qed.


(* ===================================================================== *)
(** * Further properties of the configuration *)

Lemma algorithm_from_name_ok_inv (nm : string) (a : nlopt_algorithm) :
  algorithm_from_name nm = Ok a -> In nm supported_names.
Proof.
  intros H. destruct (in_dec string_dec nm supported_names) as [Hin|Hout];
    [exact Hin|].
  rewrite (algorithm_from_name_unsupported nm Hout) in H. discriminate H.
Qed.

(** X8.  No two algorithm names are aliases: two names that
    [algorithm_from_name] resolves to the same nlopt algorithm are the same
    name. *)
Theorem algorithm_names_are_not_aliases (nm1 nm2 : string)
  (a : nlopt_algorithm) :
  algorithm_from_name nm1 = Ok a ->
  algorithm_from_name nm2 = Ok a ->
  nm1 = nm2.
Proof.
  intros H1 H2.
  pose proof (algorithm_from_name_ok_inv nm1 a H1) as I1.
  pose proof (algorithm_from_name_ok_inv nm2 a H2) as I2.
  unfold supported_names, supported_algorithms in I1, I2. simpl in I1, I2.
  repeat (destruct I1 as [I1|I1]; [subst nm1; vm_compute in H1|]);
    try contradiction;
    inversion H1; subst a; clear H1;
    repeat (destruct I2 as [I2|I2];
            [subst nm2; vm_compute in H2;
             first [reflexivity | discriminate H2]|]);
    contradiction.
Qed.

Lemma algorithm_names_are_not_aliases_witness :
  "LBFGS"%string = "LBFGS"%string.
Proof.
  apply (algorithm_names_are_not_aliases "LBFGS" "LBFGS" NLOPT_LD_LBFGS);
    reflexivity.
Defined.


(* ===================================================================== *)
(** * The preparation of the exported functions *)

Lemma firstn_splice (l : list R) (o n : nat) (x : list R) :
  o + n <= length l -> length x = n ->
  firstn (o + n) (splice l o n x) = firstn o l ++ x.
Proof.
  intros H Hx. unfold splice.
  assert (Ho : length (firstn o l) = o) by (rewrite length_firstn; lia).
  rewrite firstn_app, Ho. rewrite (firstn_all2 (n := o + n)) by lia.
  replace (o + n - o) with n by lia.
  rewrite firstn_app, Hx, Nat.sub_diag. rewrite (firstn_all2 (n := n)) by lia.
  simpl. now rewrite app_nil_r.
Qed.

Lemma skipn_splice (l : list R) (o n t : nat) (x : list R) :
  o + n <= length l -> length x = n -> o + n <= t ->
  skipn t (splice l o n x) = skipn t l.
Proof.
  intros H Hx Ht. unfold splice.
  assert (Ho : length (firstn o l) = o) by (rewrite length_firstn; lia).
  rewrite skipn_app, Ho. rewrite (skipn_all2 (n := t)) by lia.
  rewrite skipn_app, Hx. rewrite (skipn_all2 (n := t - o)) by lia.
  simpl. rewrite skipn_skipn. f_equal. lia.
Qed.

Lemma vectorise_all_app (a b : list arma_value) :
  vectorise_all (a ++ b) = vectorise_all a ++ vectorise_all b.
Proof. unfold vectorise_all. now rewrite map_app, concat_app. Qed.

Lemma length_vectorise_all (values : list arma_value) :
  Forall storage_fits values ->
  length (vectorise_all values) = N.to_nat (total_n_elem values).
Proof.
  unfold vectorise_all. induction 1 as [|v values Hv _ IH]; [reflexivity|].
  simpl. rewrite length_app, IH, Hv. lia.
Qed.

Lemma pack_from_spec (values : list arma_value) :
  (total_n_elem values < uword_modulus)%N ->
  forall suf pre packed packed',
  values = pre ++ suf ->
  pack_from (make_packer values) (length pre) packed suf = Ok packed' ->
  Forall storage_fits suf /\
  packed' = firstn (N.to_nat (total_n_elem pre)) packed
            ++ vectorise_all suf
            ++ skipn (N.to_nat (total_n_elem values)) packed.
Proof.
  intros Hw. induction suf as [|v suf IH]; intros pre packed packed' E H.
  - simpl in H. inversion H; subst packed'. split; [constructor|].
    rewrite E, app_nil_r. simpl. now rewrite firstn_skipn.
  - simpl in H. apply bind_ok_inv in H. destruct H as (packed1 & Hp & H).
    destruct (pack_inv values (length pre) packed packed1 v Hw Hp)
      as (ref & Href & Hb & Hlen & E1).
    assert (ref = v).
    { rewrite E, nth_error_app2, Nat.sub_diag in Href by lia.
      now inversion Href. }
    subst ref.
    assert (Hpre : firstn (length pre) values = pre).
    { rewrite E, firstn_app, Nat.sub_diag, firstn_all. simpl.
      now rewrite app_nil_r. }
    rewrite Hpre in *.
    destruct (IH (pre ++ [v]) packed1 packed') as (Hall & E2).
    { rewrite <- app_assoc. exact E. }
    { rewrite length_app. simpl. rewrite Nat.add_1_r. exact H. }
    split; [constructor; [exact Hlen|exact Hall]|].
    assert (Ht : (total_n_elem values
                  = total_n_elem pre + (value_n_elem v + total_n_elem suf))%N).
    { rewrite E, total_n_elem_app. reflexivity. }
    rewrite E2, total_n_elem_app. simpl total_n_elem.
    replace (N.to_nat (total_n_elem pre + (value_n_elem v + 0)))
      with (N.to_nat (total_n_elem pre) + N.to_nat (value_n_elem v)) by lia.
    rewrite E1, firstn_splice, skipn_splice by lia.
    unfold vectorise_all. simpl. now rewrite <- !app_assoc.
Qed.

Lemma pack_from_all (values : list arma_value) (packed packed' : vec) :
  (total_n_elem values < uword_modulus)%N ->
  N.of_nat (length packed) = total_n_elem values ->
  pack_from (make_packer values) 0 packed values = Ok packed' ->
  Forall storage_fits values /\ packed' = vectorise_all values.
Proof.
  intros Hw Hlen H.
  destruct (pack_from_spec values Hw values [] packed packed' eq_refl H)
    as (Hall & E).
  split; [exact Hall|]. rewrite E. simpl.
  rewrite skipn_all2 by lia. now rewrite app_nil_r.
Qed.

Lemma unpack_vectorise_all (values : list arma_value) (i : nat)
  (v : arma_value) :
  (total_n_elem values < uword_modulus)%N ->
  Forall storage_fits values ->
  nth_error values i = Some v ->
  unpack (make_packer values) i (vectorise_all values) = Ok v.
Proof.
  intros Hw Hall Hi.
  rewrite (unpack_char values i v (vectorise_all values) Hw Hi).
  pose proof (total_n_elem_firstn_le values i v Hi) as Hle.
  rewrite (length_vectorise_all values Hall).
  destruct (N.leb_spec (total_n_elem (firstn i values) + value_n_elem v)
              (N.of_nat (N.to_nat (total_n_elem values)))) as [_|C]; [|lia].
  destruct (nth_error_split values i Hi) as (pre & suf & E & Hl).
  assert (Hpre : firstn i values = pre).
  { rewrite E, <- Hl, firstn_app, Nat.sub_diag, firstn_all. simpl.
    now rewrite app_nil_r. }
  rewrite Hpre.
  assert (Hfit : Forall storage_fits pre /\ storage_fits v).
  { rewrite E in Hall. apply Forall_app in Hall. destruct Hall as [Ha Hb].
    inversion Hb; subst. now split. }
  destruct Hfit as [Hfpre Hfv]. unfold storage_fits in Hfv.
  assert (Hs : slice (vectorise_all values) (N.to_nat (total_n_elem pre))
                 (N.to_nat (value_n_elem v)) = vectorise_value v).
  { rewrite E, vectorise_all_app. unfold slice.
    rewrite skipn_app, (length_vectorise_all pre Hfpre), Nat.sub_diag.
    rewrite skipn_all2 by (rewrite (length_vectorise_all pre Hfpre); lia).
    simpl. unfold vectorise_all at 1. simpl.
    rewrite firstn_app, Hfv, Nat.sub_diag. simpl.
    rewrite firstn_all2 by lia. now rewrite app_nil_r. }
  f_equal. destruct v as [r|[rr rc rm]]; simpl in *.
  - rewrite Nat2N.id in Hs. now rewrite Hs.
  - replace (N.to_nat (N.of_nat rr * N.of_nat rc)) with (rr * rc) in Hs by lia.
    now rewrite Hs.
Qed.


Lemma subvec_fill_length (packed : vec) (o n : uword) (x : R)
  (packed' : vec) :
  (o + n < uword_modulus)%N ->
  subvec_fill packed o n x = Ok packed' -> length packed' = length packed.
Proof.
  intros Hs H. unfold subvec_fill, subvec_in_bounds in H.
  rewrite uword_add_small in H by exact Hs.
  destruct (N.leb_spec (o + n) (N.of_nat (length packed))); [|discriminate].
  inversion H; subst packed'.
  change (length (splice packed (N.to_nat o) (N.to_nat n)
                    (repeat x (N.to_nat n))) = length packed).
  apply length_splice; [lia|apply repeat_length].
Qed.

Lemma subvec_assign_length (packed : vec) (o n : uword) (x packed' : vec) :
  (o + n < uword_modulus)%N ->
  subvec_assign packed o n x = Ok packed' -> length packed' = length packed.
Proof.
  intros Hs H. apply subvec_assign_inv in H. destruct H as (Hb & Hx & ->).
  rewrite uword_add_small in Hb by exact Hs. apply length_splice; lia.
Qed.

Lemma pack_double_or_arma_length (values : list arma_value) (i : nat)
  (packed packed' : vec) (r_value : SEXP) :
  (total_n_elem values < uword_modulus)%N ->
  pack_double_or_arma (make_packer values) i packed r_value = Ok packed' ->
  length packed' = length packed.
Proof.
  intros Hw H. unfold pack_double_or_arma in H. apply bind_ok_inv in H.
  destruct H as (info & Hg & H).
  destruct (get_ok_ref values i info Hg) as (ref & Href).
  destruct (make_packer_get values i ref Hw Href) as (Hg' & Ho & Hn & Hb).
  rewrite Hg' in Hg. inversion Hg; subst info. clear Hg.
  pose proof (total_n_elem_firstn_le values i ref Href) as Hle.
  destruct ref as [r|r]; simpl in *.
  - unfold VecInfo.pack_double_or_arma in H.
    destruct (Rcpp_is_double r_value);
      apply bind_ok_inv in H; destruct H as (? & _ & H).
    + apply subvec_fill_length in H; [exact H|simpl; unfold vec_n_elem; lia].
    + apply subvec_assign_length in H; [exact H|simpl; unfold vec_n_elem; lia].
  - unfold MatInfo.pack_double_or_arma, MatInfo.pack in H.
    unfold mat_n_rows, mat_n_cols in *. simpl in H.
    rewrite uword_mul_small in H by lia.
    destruct (Rcpp_is_double r_value);
      apply bind_ok_inv in H; destruct H as (? & _ & H).
    + apply subvec_fill_length in H; [exact H|lia].
    + apply subvec_assign_length in H; [exact H|lia].
Qed.

Lemma from_r_list_xtol_abs_length (r_list : list (string * SEXP))
  (packer_size : uword)
  (pack_xtol_abs : vec -> list (string * SEXP) -> result vec)
  (config : OptimizerConfiguration) :
  (forall packed l packed',
     pack_xtol_abs packed l = Ok packed' -> length packed' = length packed) ->
  from_r_list r_list packer_size pack_xtol_abs = Ok config ->
  length (xtol_abs config) = N.to_nat packer_size.
Proof.
  intros Hf H. unfold from_r_list in H.
  apply bind_ok_inv in H. destruct H as (r_value & _ & H).
  apply bind_ok_inv in H. destruct H as (xtol & Hx & H).
  repeat (apply bind_ok_inv in H; destruct H as (? & _ & H)).
  inversion H; subst config. cbn [xtol_abs]. clear H.
  unfold arma_vec_new in Hx.
  destruct (Rcpp_is_double r_value).
  - apply bind_ok_inv in Hx. destruct Hx as (d & _ & Hx).
    inversion Hx. now rewrite !repeat_length.
  - destruct (Rcpp_is_List r_value); [|discriminate].
    apply bind_ok_inv in Hx. destruct Hx as (l & _ & Hx).
    apply Hf in Hx. now rewrite Hx, repeat_length.
Qed.

Lemma prepared_from_packs (values : list arma_value) (parameters : vec)
  (configuration : list (string * SEXP))
  (pack_xtol_abs : vec -> list (string * SEXP) -> result vec)
  (config : OptimizerConfiguration) :
  (total_n_elem values < uword_modulus)%N ->
  pack_from (make_packer values) 0
    (arma_vec_new (size (make_packer values))) values = Ok parameters ->
  from_r_list configuration (size (make_packer values)) pack_xtol_abs
  = Ok config ->
  (forall packed l packed',
     pack_xtol_abs packed l = Ok packed' -> length packed' = length packed) ->
  parameters = vectorise_all values /\
  N.of_nat (length parameters) = size (make_packer values) /\
  length (xtol_abs config) = length parameters /\
  (forall i v, nth_error values i = Some v ->
               unpack (make_packer values) i parameters = Ok v).
Proof.
  intros Hw Hp Hc Hf.
  pose proof (make_packer_size values Hw) as Hs.
  destruct (pack_from_all values
              (arma_vec_new (size (make_packer values))) parameters Hw)
    as (Hall & E); [|exact Hp|].
  { unfold arma_vec_new. rewrite repeat_length, Hs. lia. }
  pose proof (length_vectorise_all values Hall) as Hl.
  pose proof (from_r_list_xtol_abs_length _ _ _ _ Hf Hc) as Hx.
  subst parameters. split; [reflexivity|].
  split; [rewrite Hl, Hs; lia|]. split; [rewrite Hx, Hl, Hs; reflexivity|].
  intros i v Hi. now apply unpack_vectorise_all.
Qed.


Ltac xtol_abs_keeps_length Hw :=
  let Hf := fresh "Hf" in
  intros ? ? ? Hf; cbv beta in Hf;
  repeat match type of Hf with
         | bind _ _ = Ok _ =>
             apply bind_ok_inv in Hf; destruct Hf as (? & ? & Hf)
         end;
  repeat match goal with
         | K : pack_double_or_arma _ _ _ _ = Ok _ |- _ =>
             apply (pack_double_or_arma_length _ _ _ _ _ Hw) in K
         end;
  congruence.

Ltac prepared_from_tac :=
  let H := fresh "H" in let Hw := fresh "Hw" in
  intros ? ? ? H Hw;
  repeat match goal with
         | E : List_get_mat _ _ = Ok _ |- _ => rewrite E in H; clear E
         | E : List_get_vec _ _ = Ok _ |- _ => rewrite E in H; clear E
         end;
  cbn [bind] in H; cbv zeta in H;
  cbv [Full.THETA_ID Full.M_ID Full.S_ID
       Spherical.THETA_ID Spherical.M_ID Spherical.S_ID
       Diagonal.THETA_ID Diagonal.M_ID Diagonal.S_ID
       Rank.THETA_ID Rank.B_ID Rank.M_ID Rank.S_ID
       Sparse.THETA_ID Sparse.M_ID Sparse.S_ID
       VEstepFull.M_ID VEstepFull.S_ID
       VEstepDiagonal.M_ID VEstepDiagonal.S_ID
       VEstepSpherical.M_ID VEstepSpherical.S_ID] in H;
  repeat (apply bind_ok_inv in H; destruct H as (? & ? & H));
  inversion H; subst; clear H;
  split; [reflexivity|];
  eapply prepared_from_packs;
    [ exact Hw
    | cbn [pack_from];
      repeat match goal with
             | E : pack _ _ _ _ = Ok _ |- _ =>
                 rewrite E; clear E; cbn [bind]
             end;
      reflexivity
    | eassumption
    | xtol_abs_keeps_length Hw ].

(** X9.  Whenever the preparation of an exported function returns, from
    initial values whose element counts add up to less than [2^64], the
    packer is the one of the initial values in declaration order, the
    parameters handed to the optimizer are the storage of these values end
    to end (so each group unpacks to its initial value), and [xtol_abs]
    has exactly one element per parameter, whether the configuration gave
    it as one number or as a list by group: the size check of the driver
    cannot fail in an exported function. *)
Theorem preparation_layout (init configuration : list (string * SEXP)) :
  (forall T M S,
     List_get_mat init "Theta" = Ok T -> List_get_mat init "M" = Ok M ->
     List_get_mat init "S" = Ok S ->
     prepared_from [a_mat T; a_mat M; a_mat S]
       (Full.prepare init configuration) /\
     prepared_from [a_mat T; a_mat M; a_mat S]
       (Diagonal.prepare init configuration) /\
     prepared_from [a_mat T; a_mat M; a_mat S]
       (Sparse.prepare init configuration)) /\
  (forall T M S,
     List_get_mat init "Theta" = Ok T -> List_get_mat init "M" = Ok M ->
     List_get_vec init "S" = Ok S ->
     prepared_from [a_mat T; a_mat M; a_vec S]
       (Spherical.prepare init configuration)) /\
  (forall T B M S,
     List_get_mat init "Theta" = Ok T -> List_get_mat init "B" = Ok B ->
     List_get_mat init "M" = Ok M -> List_get_mat init "S" = Ok S ->
     prepared_from [a_mat T; a_mat B; a_mat M; a_mat S]
       (Rank.prepare init configuration)) /\
  (forall M S,
     List_get_mat init "M" = Ok M -> List_get_mat init "S" = Ok S ->
     prepared_from [a_mat M; a_mat S]
       (VEstepFull.prepare init configuration) /\
     prepared_from [a_mat M; a_mat S]
       (VEstepDiagonal.prepare init configuration)) /\
  (forall M S,
     List_get_mat init "M" = Ok M -> List_get_vec init "S" = Ok S ->
     prepared_from [a_mat M; a_vec S]
       (VEstepSpherical.prepare init configuration)).
Proof.
  repeat match goal with |- _ /\ _ => split end; intros;
    repeat match goal with |- _ /\ _ => split end.
  - unfold Full.prepare. prepared_from_tac.
  - unfold Diagonal.prepare. prepared_from_tac.
  - unfold Sparse.prepare. prepared_from_tac.
  - unfold Spherical.prepare. prepared_from_tac.
  - unfold Rank.prepare. prepared_from_tac.
  - unfold VEstepFull.prepare. prepared_from_tac.
  - unfold VEstepDiagonal.prepare. prepared_from_tac.
  - unfold VEstepSpherical.prepare. prepared_from_tac.
Qed.

Lemma preparation_layout_witness :
  exists packer parameters config,
    Full.prepare ex_init_parameters ex_configuration
    = Ok (packer, parameters, config) /\
    parameters = [0; 0; 2]%R /\
    length (xtol_abs config) = 3 /\
    unpack packer 2 parameters = Ok (a_mat ex_S).
Proof.
  destruct (proj1 (preparation_layout ex_init_parameters ex_configuration)
              ex_Theta ex_M ex_S eq_refl eq_refl eq_refl) as (HF & _).
  do 3 eexists. split; [vm_compute; reflexivity|].
  edestruct HF as (_ & Hp & _ & Hx & Hu);
    [vm_compute; reflexivity|vm_compute; reflexivity|].
  split; [exact Hp|]. split; [exact Hx|]. exact (Hu 2 (a_mat ex_S) eq_refl).
Defined.


(* ===================================================================== *)
(** * Further properties of the objective closures *)

(** What [pack] does on a group of a packer, in full. *)
Lemma pack_char (values : list arma_value) (i : nat) (ref expr : arma_value)
  (packed : vec) :
  (total_n_elem values < uword_modulus)%N ->
  nth_error values i = Some ref ->
  pack (make_packer values) i packed expr
  = match ref, expr with
    | a_vec _, a_mat m =>
        if Nat.eqb (n_cols m) 1
        then subvec_assign packed (total_n_elem (firstn i values))
               (value_n_elem ref) (mem m)
        else Throw (arma_logic_error
                      "copy into submatrix: incompatible dimensions")
    | _, _ =>
        subvec_assign packed (total_n_elem (firstn i values))
          (value_n_elem ref) (vectorise_value expr)
    end.
Proof.
  intros Hw H.
  destruct (make_packer_get values i ref Hw H) as (Hg & Ho & Hn & Hb).
  pose proof (total_n_elem_firstn_le values i ref H) as Hle.
  unfold pack. rewrite Hg. simpl.
  destruct ref as [r|r]; simpl in *.
  - destruct expr as [v|m]; [reflexivity|].
    destruct (Nat.eqb (n_cols m) 1); reflexivity.
  - unfold MatInfo.pack, mat_n_rows, mat_n_cols. simpl.
    rewrite uword_mul_small by lia. destruct expr as [v|m]; reflexivity.
Qed.

Lemma subvec_assign_agree (g g' : vec) (o n : uword) (x : vec) :
  (o + n < uword_modulus)%N ->
  agree_upto (N.to_nat o) g g' ->
  same_outcome_upto (N.to_nat (o + n)) g
    (subvec_assign g o n x) (subvec_assign g' o n x).
Proof.
  intros Hs [Hl Hf]. unfold subvec_assign, subvec_in_bounds.
  rewrite uword_add_small by exact Hs. rewrite <- Hl.
  destruct (N.leb_spec (o + n) (N.of_nat (length g))) as [Hb|Hb];
    [|reflexivity].
  destruct (N.eqb_spec (N.of_nat (length x)) n) as [Hx|Hx]; [|reflexivity].
  change (same_outcome_upto (N.to_nat (o + n)) g
            (Ok (splice g (N.to_nat o) (N.to_nat n) x))
            (Ok (splice g' (N.to_nat o) (N.to_nat n) x))).
  simpl. unfold agree_upto.
  rewrite !length_splice by lia.
  replace (N.to_nat (o + n)) with (N.to_nat o + N.to_nat n) by lia.
  rewrite !firstn_splice by lia. rewrite Hf. auto.
Qed.

Lemma total_n_elem_firstn_S (values : list arma_value) (i : nat)
  (ref : arma_value) :
  nth_error values i = Some ref ->
  total_n_elem (firstn (S i) values)
  = (total_n_elem (firstn i values) + value_n_elem ref)%N.
Proof.
  revert i. induction values as [|v values IH]; intros [|i] H;
    try discriminate.
  - simpl in H. inversion H; subst. simpl. lia.
  - simpl in H. apply IH in H. cbn [firstn total_n_elem fold_right] in *.
    unfold total_n_elem in H. lia.
Qed.

Lemma pack_agree (values : list arma_value) (i : nat) (ref expr : arma_value)
  (g g' : vec) :
  (total_n_elem values < uword_modulus)%N ->
  nth_error values i = Some ref ->
  agree_upto (N.to_nat (total_n_elem (firstn i values))) g g' ->
  same_outcome_upto (N.to_nat (total_n_elem (firstn (S i) values))) g
    (pack (make_packer values) i g expr)
    (pack (make_packer values) i g' expr).
Proof.
  intros Hw H Ha.
  pose proof (total_n_elem_firstn_le values i ref H) as Hle.
  rewrite !(pack_char values i ref expr _ Hw H).
  rewrite (total_n_elem_firstn_S values i ref H).
  destruct ref as [r|r], expr as [v|m];
    try (apply subvec_assign_agree; [lia|exact Ha]).
  destruct (Nat.eqb (n_cols m) 1); [|reflexivity].
  apply subvec_assign_agree; [lia|exact Ha].
Qed.

Lemma agree_upto_all (k : nat) (g g' : vec) :
  agree_upto k g g' -> length g <= k -> g = g'.
Proof.
  intros [Hl Hf] Hk.
  rewrite <- (firstn_all2 (n := k) g) by lia.
  rewrite <- (firstn_all2 (n := k) g') by lia. exact Hf.
Qed.


Ltac gradient_step Hw :=
  match goal with
  | |- closure_return (bind ?c _) = closure_return (bind ?c _) =>
      destruct c; cbn [bind]; [ | reflexivity | reflexivity ]
  | |- closure_return (let _ := _ in _) = _ => cbv zeta
  | |- closure_return (bind (pack_mat _ _ _ ?e) _) = _ =>
      lazymatch e with
      | Ok _ => cbn [pack_mat bind]
      | _ => destruct e; [ | reflexivity | reflexivity ]
      end
  | Ha : agree_upto _ ?g ?g'
    |- closure_return (bind (pack (make_packer ?vs) ?i ?g ?e) _)
       = closure_return (bind (pack (make_packer ?vs) ?i ?g' ?e) _) =>
      let K := fresh "K" in
      pose proof (pack_agree vs i _ e g g' Hw eq_refl Ha) as K;
      clear Ha;
      destruct (pack (make_packer vs) i g e),
               (pack (make_packer vs) i g' e);
      cbn [same_outcome_upto] in K; try contradiction;
      [ destruct K as (? & ?); cbn [bind]
      | reflexivity
      | subst; reflexivity ]
  end.

Ltac overwrites_gradient_tac :=
  let Hlen := fresh "Hlen" in let Hlen' := fresh "Hlen'" in
  let Hw := fresh "Hw" in
  intros parameters g g' Hlen Hlen';
  match goal with
  | H : (total_n_elem _ < uword_modulus)%N
    |- context [make_packer ?vs] =>
      assert (Hw : (total_n_elem vs < uword_modulus)%N)
        by (cbn [total_n_elem fold_right] in *; lia)
  end;
  assert (agree_upto (N.to_nat (total_n_elem (firstn 0 (@nil arma_value))))
            g g') by (split; [symmetry; exact Hlen'|reflexivity]);
  cbv [Full.THETA_ID Full.M_ID Full.S_ID
       Spherical.THETA_ID Spherical.M_ID Spherical.S_ID
       Diagonal.THETA_ID Diagonal.M_ID Diagonal.S_ID
       Rank.THETA_ID Rank.B_ID Rank.M_ID Rank.S_ID
       Sparse.THETA_ID Sparse.M_ID Sparse.S_ID
       VEstepFull.M_ID VEstepFull.S_ID
       VEstepDiagonal.M_ID VEstepDiagonal.S_ID
       VEstepSpherical.M_ID VEstepSpherical.S_ID];
  repeat gradient_step Hw;
  match goal with
  | Ha : agree_upto _ ?p ?p' |- _ =>
      apply agree_upto_all in Ha;
      [ subst; reflexivity
      | cbn [firstn total_n_elem fold_right] in *; lia ]
  end.

(** X10.  No closure leaves a stale entry in the gradient array: with the
    packer of the groups the closure works on and a gradient array of the
    packer's size, as the optimizer passes it, what a closure returns
    (finite result, values that are not finite, or exception) does not
    depend on what the array held before the call. *)
Theorem closures_overwrite_gradient (la : arma_solvers)
  (Y X O w Theta Omega : mat) (w_bar : R) (v0 v1 v2 v3 : arma_value) :
  (total_n_elem [v0; v1; v2; v3] < uword_modulus)%N ->
  overwrites_gradient [v0; v1; v2]
    (Full.objective_and_grad la (make_packer [v0; v1; v2]) Y X O w w_bar) /\
  overwrites_gradient [v0; v1; v2]
    (Spherical.objective_and_grad (make_packer [v0; v1; v2]) Y X O w w_bar) /\
  overwrites_gradient [v0; v1; v2]
    (Diagonal.objective_and_grad (make_packer [v0; v1; v2]) Y X O w w_bar) /\
  overwrites_gradient [v0; v1; v2; v3]
    (Rank.objective_and_grad (make_packer [v0; v1; v2; v3]) Y X O w) /\
  overwrites_gradient [v0; v1; v2]
    (Sparse.objective_and_grad (make_packer [v0; v1; v2]) Y X O w Omega) /\
  overwrites_gradient [v0; v1]
    (VEstepFull.objective_and_grad (make_packer [v0; v1]) Y X O w Theta
       Omega) /\
  overwrites_gradient [v0; v1]
    (VEstepDiagonal.objective_and_grad (make_packer [v0; v1]) Y X O w Theta
       Omega) /\
  overwrites_gradient [v0; v1]
    (VEstepSpherical.objective_and_grad (make_packer [v0; v1]) Y X O w Theta
       Omega).
Proof.
  intros Hfit. repeat match goal with |- _ /\ _ => split end.
  - unfold Full.objective_and_grad, Full.objective_and_grad_locals.
    overwrites_gradient_tac.
  - unfold Spherical.objective_and_grad, Spherical.objective_and_grad_locals.
    overwrites_gradient_tac.
  - unfold Diagonal.objective_and_grad, Diagonal.objective_and_grad_locals.
    overwrites_gradient_tac.
  - unfold Rank.objective_and_grad, Rank.objective_and_grad_locals.
    overwrites_gradient_tac.
  - unfold Sparse.objective_and_grad, Sparse.objective_and_grad_locals.
    overwrites_gradient_tac.
  - unfold VEstepFull.objective_and_grad,
      VEstepFull.objective_and_grad_locals.
    overwrites_gradient_tac.
  - unfold VEstepDiagonal.objective_and_grad,
      VEstepDiagonal.objective_and_grad_locals.
    overwrites_gradient_tac.
  - unfold VEstepSpherical.objective_and_grad,
      VEstepSpherical.objective_and_grad_locals.
    overwrites_gradient_tac.
Qed.


Lemma closures_overwrite_gradient_witness :
  Sparse.objective_and_grad ex_packer3 ex_Y ex_X ex_O ex_w ex_Omega
    ex_parameters3 [0; 0; 0]%R
  = Sparse.objective_and_grad ex_packer3 ex_Y ex_X ex_O ex_w ex_Omega
      ex_parameters3 [7; 8; 9]%R.
Proof.
  destruct (closures_overwrite_gradient scalar_solvers ex_Y ex_X ex_O ex_w
              ex_Theta ex_Omega 1%R (a_mat ex_Theta) (a_mat ex_M)
              (a_mat ex_S) (a_mat ex_S))
    as (_ & _ & _ & _ & Hs & _); [vm_compute; reflexivity|].
  apply Hs; reflexivity.
Defined.


Lemma each_row_schur_inv (a v r : mat) :
  each_row_schur a v = Ok r -> n_rows v = 1 /\ n_cols v = n_cols a.
Proof.
  unfold each_row_schur.
  destruct (Nat.eqb_spec (n_rows v) 1), (Nat.eqb_spec (n_cols v) (n_cols a));
    simpl; intros H; try discriminate. now split.
Qed.

Lemma vestep_diagonal_closure_on_example :
  is_ok (VEstepDiagonal.objective_and_grad ex_packer2 ex_Y ex_X ex_O ex_w
           ex_Theta ex_Omega ex_parameters2 [0; 0]%R) = true.
Proof. eval_arma. reflexivity. Qed.



(* ===================================================================== *)
(** * Further properties of the step after the optimization *)

Lemma mat_init_ext (r c : nat) (f g : nat -> nat -> R) :
  (forall i j, (i < r)%nat -> (j < c)%nat -> f i j = g i j) ->
  mat_init r c f = mat_init r c g.
Proof.
  intros H. unfold mat_init. f_equal. apply map_ext_in. intros k Hk.
  apply in_seq in Hk.
  assert (r <> 0)%nat by (intros ->; simpl in Hk; lia).
  apply H.
  - now apply Nat.mod_upper_bound.
  - apply Nat.Div0.div_lt_upper_bound. lia.
Qed.

Lemma mat_map_init (h : R -> R) (r c : nat) (f : nat -> nat -> R) :
  mat_map h (mat_init r c f) = mat_init r c (fun i j => h (f i j)).
Proof. unfold mat_map, mat_init. simpl. now rewrite map_map. Qed.

Lemma big_sum_delta (n i : nat) (f : nat -> R) :
  big_sum n (fun k => if Nat.eqb i k then f k else 0%R)
  = if Nat.ltb i n then f i else 0%R.
Proof.
  induction n as [|n IH]; [reflexivity|].
  rewrite big_sum_S, IH.
  destruct (Nat.ltb_spec i n), (Nat.eqb_spec i n), (Nat.ltb_spec i (S n));
    subst; try lia; ring.
Qed.

Lemma diagmat_row (a : mat) :
  n_rows a = 1 -> mat_wf a ->
  diagmat a
  = mat_init (n_cols a) (n_cols a)
      (fun i j => if Nat.eqb i j then mat_at a 0 i else 0%R).
Proof.
  intros Hr Hwf. unfold diagmat, is_vector. rewrite Hr. simpl.
  red in Hwf. rewrite Hwf, Hr, Nat.mul_1_l.
  apply mat_init_ext. intros i j _ _. destruct (Nat.eqb i j); [|reflexivity].
  unfold mat_at. rewrite Hr. f_equal. lia.
Qed.

Lemma diagmat_col (a : mat) :
  n_cols a = 1 -> mat_wf a ->
  diagmat a
  = mat_init (n_rows a) (n_rows a)
      (fun i j => if Nat.eqb i j then mat_at a i 0 else 0%R).
Proof.
  intros Hc Hwf. unfold diagmat, is_vector. rewrite Hc.
  rewrite Bool.orb_true_r. red in Hwf. rewrite Hwf, Hc, Nat.mul_1_r.
  apply mat_init_ext. intros i j _ _. destruct (Nat.eqb i j); [|reflexivity].
  apply nth_mem_col.
Qed.








(* ===================================================================== *)
(** * The log-factorial terms *)

Lemma elementwise_ok (what : string) (op : R -> R -> R) (a b : mat) :
  n_rows b = n_rows a -> n_cols b = n_cols a ->
  elementwise what op a b
  = Ok (mat_init (n_rows a) (n_cols a)
          (fun i j => op (mat_at a i j) (mat_at b i j))).
Proof.
  intros Hr Hc. unfold elementwise, same_size.
  now rewrite Hr, Hc, !Nat.eqb_refl.
Qed.

Lemma forallb_Rpositive_true (l : list R) :
  Forall (fun x => (0 < x)%R) l -> forallb Rpositive l = true.
Proof.
  induction 1 as [|x l Hx _ IH]; [reflexivity|].
  simpl. rewrite IH, Rpositive_true by exact Hx. reflexivity.
Qed.

Lemma mat_log_ok (a : mat) :
  Forall (fun x => (0 < x)%R) (mem a) -> mat_log a = Ok (mat_map ln a).
Proof. intros H. unfold mat_log. now rewrite forallb_Rpositive_true. Qed.

Lemma mat_log_not_finite (a : mat) :
  ~ Forall (fun x => (0 < x)%R) (mem a) -> mat_log a = NonFinite.
Proof.
  intros H. unfold mat_log.
  destruct (forallb Rpositive (mem a)) eqn:E; [|reflexivity].
  exfalso. apply H. now apply forallb_Rpositive.
Qed.

Lemma Forall_mem_mat_init (P : R -> Prop) (r c : nat) (f : nat -> nat -> R) :
  (forall i j, (i < r)%nat -> (j < c)%nat -> P (f i j)) ->
  Forall P (mem (mat_init r c f)).
Proof.
  intros H. unfold mat_init. simpl. apply Forall_forall. intros x Hx.
  apply in_map_iff in Hx. destruct Hx as (k & <- & Hk). apply in_seq in Hk.
  assert (r <> 0)%nat by (intros ->; simpl in Hk; lia).
  apply H.
  - now apply Nat.mod_upper_bound.
  - apply Nat.Div0.div_lt_upper_bound. lia.
Qed.

Lemma count_or_one_positive (x : R) : (0 <= x)%R -> (0 < count_or_one x)%R.
Proof. intros H. unfold count_or_one. destruct (Req_dec_T x 0); lra. Qed.

Lemma replace_zero_positive (y : mat) :
  Forall (fun x => (0 <= x)%R) (mem y) ->
  Forall (fun x => (0 < x)%R) (mem (replace y 0 1)).
Proof.
  intros H. unfold replace, mat_map. simpl. apply Forall_map.
  eapply Forall_impl; [|exact H]. intros x Hx.
  now apply count_or_one_positive.
Qed.

Lemma replace_zero_not_positive (y : mat) :
  ~ Forall (fun x => (0 <= x)%R) (mem y) ->
  ~ Forall (fun x => (0 < x)%R) (mem (replace y 0 1)).
Proof.
  intros H C. apply H. unfold replace, mat_map in C. simpl in C.
  rewrite Forall_forall in C. apply Forall_forall. intros x Hx.
  pose proof (C _ (in_map (fun x => if Req_dec_T x 0 then 1%R else x)
                     (mem y) x Hx)) as Hpos.
  simpl in Hpos. destruct (Req_dec_T x 0); lra.
Qed.

Lemma polynomial_positive (x : R) :
  (0 < x)%R -> (0 < 8 * (x * x * x) + 4 * (x * x) + x + 1 / 30)%R.
Proof. intros H. nra. Qed.


Lemma mat_at_replace_zero (y : mat) (i j : nat) :
  mat_wf y -> (i < n_rows y)%nat -> (j < n_cols y)%nat ->
  mat_at (replace y 0 1) i j = count_or_one (mat_at y i j).
Proof. intros Hwf Hi Hj. unfold replace. now rewrite mat_at_map. Qed.

Lemma logfact_rows (y : mat) :
  mat_wf y -> Forall (fun x => (0 <= x)%R) (mem y) ->
  exists v,
    logfact y = Ok v /\ mat_wf v /\ n_rows v = n_rows y /\ n_cols v = 1 /\
    forall i, (i < n_rows y)%nat ->
      mat_at v i 0
      = big_sum (n_cols y)
          (fun j => logfact_term (count_or_one (mat_at y i j))).
Proof.
  intros Hwf Hnn. unfold logfact. cbv zeta.
  pose proof (replace_zero_positive y Hnn) as Hpos.
  assert (Hwf' : mat_wf (replace y 0 1)) by (apply mat_map_wf; exact Hwf).
  assert (Hat : forall i j, (i < n_rows y)%nat -> (j < n_cols y)%nat ->
                  (0 < mat_at (replace y 0 1) i j)%R).
  { intros i j Hi Hj.
    apply (mat_at_mem (fun x => (0 < x)%R) _ i j Hwf' Hpos); assumption. }
  assert (Hentry : forall i j, (i < n_rows y)%nat -> (j < n_cols y)%nat ->
            mat_at (replace y 0 1) i j = count_or_one (mat_at y i j)).
  { intros i j Hi Hj. now apply mat_at_replace_zero. }
  assert (Hr : n_rows (replace y 0 1) = n_rows y) by reflexivity.
  assert (Hc : n_cols (replace y 0 1) = n_cols y) by reflexivity.
  generalize dependent (replace y 0 1). intros y' Hpos Hwf' Hat Hentry Hr Hc.
  rewrite (mat_log_ok y' Hpos).
  unfold lift2, fmap, evaluated, schur, mat_minus, mat_plus. cbn [bind].
  repeat (rewrite elementwise_ok by reflexivity; cbn [bind]).
  rewrite mat_log_ok.
  2:{ unfold plus_scalar. rewrite mat_map_init.
      apply Forall_mem_mat_init. intros i j Hi Hj.
      cbn [n_rows n_cols scale pow3 pow2 mat_map mat_init] in Hi, Hj.
      rewrite Hr in Hi. rewrite Hc in Hj.
      cbn [n_rows n_cols scale pow3 pow2 mat_map mat_init].
      rewrite !mat_at_init by lia. rewrite !mat_at_scale.
      unfold pow3, pow2. rewrite !mat_at_map by (try exact Hwf'; lia).
      apply polynomial_positive. now apply Hat. }
  cbn [bind]. unfold div_scalar. rewrite Rnonzero_true by lra. cbn [bind].
  rewrite elementwise_ok by reflexivity. cbn [bind].
  eexists. split; [reflexivity|]. split; [apply mat_init_wf|].
  split; [exact Hr|]. split; [reflexivity|].
  intros i Hi. unfold sum1. rewrite mat_at_init by (cbn; lia).
  cbn [n_rows n_cols plus_scalar mat_map mat_init]. rewrite Hc.
  apply big_sum_ext. intros j Hj.
  unfold plus_scalar, pow3, pow2. autorewrite with dims.
  rewrite ?Hr, ?Hc. rewrite !mat_map_init.
  repeat (rewrite mat_at_init by lia).
  rewrite !mat_at_scale. rewrite !mat_at_map by (try exact Hwf'; lia).
  rewrite (Hentry i j Hi Hj). reflexivity.
Qed.

(** X13.  For a matrix of counts (no negative entry) [logfact] and [ki]
    are finite columns with one element per row of [y]: the element of
    [logfact] is the sum over the row of the approximation of [log(y!)], a
    zero count being counted as a one, and the element of [ki] is its
    opposite plus [0.5 * (1 + (1 - p) * log(2 * pi))] for [p] columns. *)
Theorem logfact_and_ki_of_counts (y : mat) :
  mat_wf y -> Forall (fun x => (0 <= x)%R) (mem y) ->
  exists lf k,
    logfact y = Ok lf /\ ki y = Ok k /\
    n_rows lf = n_rows y /\ n_cols lf = 1 /\
    n_rows k = n_rows y /\ n_cols k = 1 /\
    forall i, (i < n_rows y)%nat ->
      mat_at lf i 0
      = big_sum (n_cols y)
          (fun j => logfact_term (count_or_one (mat_at y i j))) /\
      mat_at k i 0
      = (- mat_at lf i 0
         + 0.5 * (1 + (1 - INR (n_cols y)) * ln (2 * PI)))%R.
Proof.
  intros Hwf Hnn.
  destruct (logfact_rows y Hwf Hnn) as (lf & E & Hlf & Hr & Hc & Hrows).
  exists lf. eexists. split; [exact E|].
  split; [unfold ki; rewrite E; reflexivity|].
  repeat match goal with |- _ /\ _ => split end;
    try assumption; try reflexivity.
  intros i Hi. split; [now apply Hrows|].
  unfold plus_scalar, neg, double_of_uword.
  rewrite !mat_at_map; try reflexivity; try (now apply mat_map_wf);
    try assumption; cbn [n_rows n_cols mat_map]; lia.
Qed.

Lemma logfact_and_ki_of_counts_witness :
  exists lf k,
    logfact ex_Y = Ok lf /\ ki ex_Y = Ok k /\
    n_rows lf = 1 /\ n_cols lf = 1 /\ n_rows k = 1 /\ n_cols k = 1 /\
    forall i, (i < 1)%nat ->
      mat_at lf i 0
      = big_sum 1 (fun j => logfact_term (count_or_one (mat_at ex_Y i j))) /\
      mat_at k i 0
      = (- mat_at lf i 0 + 0.5 * (1 + (1 - INR 1) * ln (2 * PI)))%R.
Proof.
  apply (logfact_and_ki_of_counts ex_Y); [reflexivity|].
  repeat constructor. simpl. lra.
Defined.

(** X14.  A negative entry anywhere in [y] makes [logfact] and [ki] leave
    the finite doubles: the logarithm of the entry is taken unguarded. *)
Theorem logfact_of_negative_count (y : mat) :
  ~ Forall (fun x => (0 <= x)%R) (mem y) ->
  logfact y = NonFinite /\ ki y = NonFinite.
Proof.
  intros H. assert (E : logfact y = NonFinite).
  { unfold logfact. cbv zeta.
    rewrite (mat_log_not_finite _ (replace_zero_not_positive y H)).
    reflexivity. }
  split; [exact E|]. unfold ki. now rewrite E.
Qed.

Lemma logfact_of_negative_count_witness :
  logfact (Mat 1 1 [(-1)%R]) = NonFinite /\
  ki (Mat 1 1 [(-1)%R]) = NonFinite.
Proof.
  apply (logfact_of_negative_count (Mat 1 1 [(-1)%R])).
  intros H. inversion H as [|x l Hx Hl]; subst. simpl in Hx. lra.
Defined.


(* ===================================================================== *)
(** * The gradient with respect to M when Omega is fixed *)

Lemma diagmat_mul_entry (w E : mat) (i j : nat) :
  is_col w -> (i < n_rows w)%nat ->
  big_sum (n_cols (diagmat w))
    (fun k => (mat_at (diagmat w) i k * mat_at E k j)%R)
  = (mat_at w i 0 * mat_at E i j)%R.
Proof.
  intros [Hc Hl] Hi.
  assert (Hwf : mat_wf w) by (red; rewrite Hl, Hc; lia).
  rewrite (diagmat_col w Hc Hwf). cbn [n_cols mat_init].
  transitivity (big_sum (n_rows w)
                  (fun k => if Nat.eqb i k
                            then (mat_at w k 0 * mat_at E k j)%R else 0%R)).
  - apply big_sum_ext. intros k Hk. rewrite mat_at_init by lia.
    destruct (Nat.eqb_spec i k); [subst; reflexivity|ring].
  - rewrite big_sum_delta. destruct (Nat.ltb_spec i (n_rows w)); [|lia].
    reflexivity.
Qed.

(** The common part of the closures that work with a fixed [Omega]. *)
Lemma m_gradient_core (values : list arma_value) (M0 : mat) (M_ID : nat)
  (parameters g_in g_mid g_final : vec)
  (M Omega A Y w MO MOA E gM : mat) :
  (total_n_elem values < uword_modulus)%N ->
  nth_error values M_ID = Some (a_mat M0) ->
  is_col w ->
  unpack_mat (make_packer values) M_ID parameters = Ok M ->
  mat_mul M Omega = Ok MO ->
  mat_plus MO A = Ok MOA ->
  mat_minus MOA Y = Ok E ->
  mat_mul (diagmat w) E = Ok gM ->
  pack (make_packer values) M_ID g_in (a_mat gM) = Ok g_mid ->
  unpack (make_packer values) M_ID g_final
  = unpack (make_packer values) M_ID g_mid ->
  exists G, unpack_mat (make_packer values) M_ID g_final = Ok G /\
            m_gradient_formula M Omega A Y w G.
Proof.
  intros Hw H0 Hcol HM HMO HMOA HE HgM Hp Hu.
  unfold unpack_mat in HM. apply fmap_ok_inv in HM.
  destruct HM as (v & Hv & ->).
  pose proof (unpack_inv values M_ID _ v parameters Hw H0 Hv) as Hshape.
  destruct v as [v|M]; simpl in Hshape; [contradiction|].
  destruct Hshape as [HMr HMc]. cbn [as_mat] in *.
  pose proof (unpack_pack_same_mat values M_ID g_in g_mid gM M0 Hw H0 Hp)
    as Hsame.
  destruct (pack_inv values M_ID g_in g_mid (a_mat gM) Hw Hp)
    as (ref & Href & _ & Hlen & _).
  rewrite H0 in Href. inversion Href; subst ref. clear Href.
  cbn [vectorise_value vectorise value_n_elem] in Hlen.
  destruct Hcol as [Hwc Hwl].
  assert (Hwwf : mat_wf w) by (red; rewrite Hwl, Hwc; lia).
  assert (Hd : n_rows (diagmat w) = n_rows w /\ n_cols (diagmat w) = n_rows w).
  { rewrite (diagmat_col w Hwc Hwwf). split; reflexivity. }
  destruct Hd as [Hdr Hdc].
  apply mat_mul_inv in HMO. destruct HMO as (HO1 & ->).
  apply elementwise_inv in HMOA. destruct HMOA as (HA1 & HA2 & ->).
  apply elementwise_inv in HE. destruct HE as (HY1 & HY2 & ->).
  apply mat_mul_inv in HgM. destruct HgM as (Hg1 & ->).
  autorewrite with dims in *.
  rewrite Hdr in *. rewrite Hdc in Hg1.
  unfold vectorise, mat_init in Hlen. cbn [mem] in Hlen.
  rewrite length_map, length_seq in Hlen.
  exists (Mat (n_rows M0) (n_cols M0)
            (mem (mat_init (n_rows w) (n_cols Omega)
                    (fun i j => big_sum (n_cols (diagmat w))
                       (fun k =>
                          (mat_at (diagmat w) i k
                           * mat_at (mat_init (n_rows M) (n_cols Omega)
                                       (fun i0 j0 =>
                                          (mat_at
                                             (mat_init (n_rows M) (n_cols Omega)
                                                (fun i1 j1 =>
                                                   (mat_at
                                                      (mat_init (n_rows M)
                                                         (n_cols Omega)
                                                         (fun i2 j2 =>
                                                            big_sum (n_cols M)
                                                              (fun k0 =>
                                                                 (mat_at M i2 k0
                                                                  * mat_at Omega k0 j2)%R)))
                                                      i1 j1
                                                    + mat_at A i1 j1)%R))
                                             i0 j0
                                           - mat_at Y i0 j0)%R))
                               k j)%R))))).
  split.
  - unfold unpack_mat. rewrite Hu, Hsame. reflexivity.
  - unfold m_gradient_formula. cbn [n_rows n_cols].
    split; [congruence|]. split; [congruence|].
    intros i j Hi Hj.
    assert (Ec : n_cols Omega = n_cols M0).
    { apply (Nat.mul_cancel_l _ _ (n_rows M0)); [lia|]. nia. }
    assert (Er : n_rows w = n_rows M0) by congruence.
    rewrite <- Er, <- Ec in *.
    change (Mat (n_rows w) (n_cols Omega)
              (mem (mat_init (n_rows w) (n_cols Omega) ?f)))
      with (mat_init (n_rows w) (n_cols Omega) f).
    rewrite mat_at_init by assumption.
    rewrite (diagmat_mul_entry w _ i j (conj Hwc Hwl) Hi).
    rewrite !mat_at_init by lia. reflexivity.
Qed.


Ltac m_gradient_tac Hw H0 Hcol :=
  let l := fresh "l" in let H := fresh "H" in
  intros l H; ok_inv; same_results;
  cbn [loc_A loc_grad_storage];
  match goal with
  | U : unpack_mat (make_packer ?vs) ?i ?params = Ok ?M,
    P : mat_mul ?M ?Om = Ok ?MO,
    Q : mat_plus ?MO ?A = Ok ?MOA,
    R1 : mat_minus ?MOA ?Y = Ok ?E,
    D : mat_mul (diagmat ?w) ?E = Ok ?gM,
    K : pack (make_packer ?vs) ?i ?gin (a_mat ?gM) = Ok ?gmid
    |- _ =>
      exists M;
      cut (forall gfin,
             unpack (make_packer vs) i gfin = unpack (make_packer vs) i gmid ->
             exists G, unpack_mat (make_packer vs) i gfin = Ok G /\
                       m_gradient_formula M Om A Y w G);
      [ let C := fresh "C" in
        intros C;
        match goal with
        | |- exists G, _ /\ unpack_mat _ _ ?gfin = _ /\ _ =>
            destruct (C gfin) as (G & HG & HF);
            [ theta_group_kept Hw H0
            | exists G; split; [exact U|]; split; [exact HG|exact HF] ]
        end
      | intros gfin T;
        exact (m_gradient_core vs _ i params gin gmid gfin M Om A Y w MO MOA
                 E gM Hw H0 Hcol U P Q R1 D K T) ]
  end.

(** X15.  In the closures that work with a fixed [Omega] (sparse fit, full
    and diagonal VE steps), when the closure returns, the group of [M] in
    the gradient array it leaves is [diagmat(w) * (M * Omega + A - Y)]:
    entry [(i, j)] is the weight of observation [i] times
    [(M * Omega)(i, j) + A(i, j) - Y(i, j)], for the [M] of the parameters
    and the mean matrix [A] of the closure, and the later packing of the
    group of [S] does not touch it. *)
Theorem m_gradient (values3 values2 : list arma_value)
  (M3 M2 Y X O w Theta Omega : mat) (parameters grad_storage : vec) :
  (total_n_elem values3 < uword_modulus)%N ->
  nth_error values3 1 = Some (a_mat M3) ->
  (total_n_elem values2 < uword_modulus)%N ->
  nth_error values2 0 = Some (a_mat M2) ->
  is_col w ->
  m_gradient_ok (make_packer values3) Sparse.M_ID parameters Omega Y w
    (Sparse.objective_and_grad_locals (make_packer values3) Y X O w Omega
       parameters grad_storage) /\
  m_gradient_ok (make_packer values2) VEstepFull.M_ID parameters Omega Y w
    (VEstepFull.objective_and_grad_locals (make_packer values2) Y X O w
       Theta Omega parameters grad_storage) /\
  m_gradient_ok (make_packer values2) VEstepDiagonal.M_ID parameters Omega
    Y w
    (VEstepDiagonal.objective_and_grad_locals (make_packer values2) Y X O w
       Theta Omega parameters grad_storage).
Proof.
  intros Hw3 H3 Hw2 H2 Hcol.
  repeat match goal with |- _ /\ _ => split end.
  - unfold Sparse.objective_and_grad_locals. m_gradient_tac Hw3 H3 Hcol.
  - unfold VEstepFull.objective_and_grad_locals. m_gradient_tac Hw2 H2 Hcol.
  - unfold VEstepDiagonal.objective_and_grad_locals.
    m_gradient_tac Hw2 H2 Hcol.
Qed.

Lemma sparse_locals_on_example :
  is_ok (Sparse.objective_and_grad_locals ex_packer3 ex_Y ex_X ex_O ex_w
           ex_Omega ex_parameters3 [0; 0; 0]%R) = true.
Proof. eval_arma. reflexivity. Qed.

Lemma m_gradient_witness :
  exists l M G,
    Sparse.objective_and_grad_locals ex_packer3 ex_Y ex_X ex_O ex_w ex_Omega
      ex_parameters3 [0; 0; 0]%R = Ok l /\
    unpack_mat ex_packer3 Sparse.M_ID ex_parameters3 = Ok M /\
    unpack_mat ex_packer3 Sparse.M_ID (loc_grad_storage l) = Ok G /\
    m_gradient_formula M ex_Omega (loc_A l) ex_Y ex_w G.
Proof.
  destruct (is_ok_true_inv _ sparse_locals_on_example) as (l & E).
  destruct (proj1 (m_gradient [a_mat ex_Theta; a_mat ex_M; a_mat ex_S]
                     [a_mat ex_M; a_mat ex_S] ex_M ex_M ex_Y ex_X ex_O ex_w
                     ex_Theta ex_Omega ex_parameters3 [0; 0; 0]%R
                     eq_refl eq_refl eq_refl eq_refl (conj eq_refl eq_refl))
              l E) as (M & G & HM & HG & HF).
  exists l, M, G. split; [exact E|]. split; [exact HM|].
  split; [exact HG|exact HF].
Defined.


(* ===================================================================== *)
(** * Closures that return *)

Lemma mat_mul_ok (a b : mat) :
  n_cols a = n_rows b ->
  mat_mul a b
  = Ok (mat_init (n_rows a) (n_cols b)
          (fun i j => big_sum (n_cols a)
                        (fun k => (mat_at a i k * mat_at b k j)%R))).
Proof. intros H. unfold mat_mul. now rewrite H, Nat.eqb_refl. Qed.

Lemma each_col_ok (what : string) (op : R -> R -> R) (a v : mat) :
  n_rows v = n_rows a -> n_cols v = 1 ->
  each_col what op a v
  = Ok (mat_init (n_rows a) (n_cols a)
          (fun i j => op (mat_at a i j) (mat_at v i 0))).
Proof. intros Hr Hc. unfold each_col. now rewrite Hr, Hc, !Nat.eqb_refl. Qed.

Lemma each_row_schur_ok (a v : mat) :
  n_rows v = 1 -> n_cols v = n_cols a ->
  each_row_schur a v
  = Ok (mat_init (n_rows a) (n_cols a)
          (fun i j => (mat_at a i j * mat_at v 0 j)%R)).
Proof.
  intros Hr Hc. unfold each_row_schur. now rewrite Hr, Hc, !Nat.eqb_refl.
Qed.

Lemma forallb_Rnonzero_true (l : list R) :
  Forall (fun x => x <> 0%R) l -> forallb Rnonzero l = true.
Proof.
  induction 1 as [|x l Hx _ IH]; [reflexivity|].
  simpl. rewrite IH, Rnonzero_true by exact Hx. reflexivity.
Qed.

Lemma pow_m1_ok (a : mat) :
  Forall (fun x => x <> 0%R) (mem a) -> pow_m1 a = Ok (mat_map Rinv a).
Proof. intros H. unfold pow_m1. now rewrite forallb_Rnonzero_true. Qed.

Lemma square_positive (S : mat) :
  mat_wf S -> Forall (fun x => x <> 0%R) (mem S) ->
  Forall (fun x => (0 < x)%R)
    (mem (mat_init (n_rows S) (n_cols S)
            (fun i j => (mat_at S i j * mat_at S i j)%R))).
Proof.
  intros Hwf H. apply Forall_mem_mat_init. intros i j Hi Hj.
  pose proof (mat_at_mem (fun x => x <> 0%R) S i j Hwf H Hi Hj) as Hnz.
  simpl in Hnz. destruct (square_facts (mat_at S i j)) as [_ [Hpos _]].
  now apply Hpos.
Qed.

Lemma n_rows_diagmat_col (w : mat) :
  is_col w -> n_rows (diagmat w) = n_rows w /\ n_cols (diagmat w) = n_rows w.
Proof.
  intros [Hc Hl].
  assert (Hwf : mat_wf w) by (red; rewrite Hl, Hc; lia).
  rewrite (diagmat_col w Hc Hwf). split; reflexivity.
Qed.

Lemma n_rows_diagmat_row (a : mat) :
  n_rows a = 1 -> mat_wf a ->
  n_rows (diagmat a) = n_cols a /\ n_cols (diagmat a) = n_cols a.
Proof. intros Hr Hwf. rewrite (diagmat_row a Hr Hwf). split; reflexivity. Qed.

Lemma unpack_mat_ok (values : list arma_value) (i : nat) (M0 : mat)
  (packed : vec) :
  (total_n_elem values < uword_modulus)%N ->
  nth_error values i = Some (a_mat M0) ->
  (size (make_packer values) <= N.of_nat (length packed))%N ->
  exists M, unpack_mat (make_packer values) i packed = Ok M /\
            n_rows M = n_rows M0 /\ n_cols M = n_cols M0 /\ mat_wf M.
Proof.
  intros Hw Hi Hlen.
  destruct (unpack_spec values i _ packed Hw Hi Hlen) as (x & Hu & Hs & Hwf & _).
  destruct x as [v|M]; simpl in Hs; [contradiction|].
  exists M. unfold unpack_mat. rewrite Hu. simpl.
  destruct Hs. repeat split; assumption.
Qed.

Lemma pack_mat_ok (values : list arma_value) (i : nat) (M0 : mat)
  (packed : vec) (r c : nat) (f : nat -> nat -> R) :
  (total_n_elem values < uword_modulus)%N ->
  nth_error values i = Some (a_mat M0) ->
  (size (make_packer values) <= N.of_nat (length packed))%N ->
  r = n_rows M0 -> c = n_cols M0 ->
  exists packed',
    pack (make_packer values) i packed (a_mat (mat_init r c f)) = Ok packed' /\
    length packed' = length packed.
Proof.
  intros Hw Hi Hlen -> ->.
  pose proof (pack_spec values i (a_mat M0)
                (a_mat (mat_init (n_rows M0) (n_cols M0) f)) packed Hw Hi
                (conj eq_refl eq_refl) (mat_init_wf _ _ f) Hlen) as Hp.
  eexists. split; [exact Hp|].
  pose proof (total_n_elem_firstn_le values i _ Hi) as Hle.
  pose proof (make_packer_size values Hw) as Hs.
  apply length_splice; [lia|].
  simpl. unfold vectorise, mat_init. simpl.
  rewrite length_map, length_seq. lia.
Qed.


Lemma mat_mul_total (a b : mat) :
  n_cols a = n_rows b ->
  exists m, mat_mul a b = Ok m /\
            n_rows m = n_rows a /\ n_cols m = n_cols b /\ mat_wf m.
Proof.
  intros H. rewrite (mat_mul_ok a b H). eexists. split; [reflexivity|].
  split; [reflexivity|]. split; [reflexivity|apply mat_init_wf].
Qed.

Lemma elementwise_total (what : string) (op : R -> R -> R) (a b : mat) :
  n_rows b = n_rows a -> n_cols b = n_cols a ->
  exists m, elementwise what op a b = Ok m /\
            n_rows m = n_rows a /\ n_cols m = n_cols a /\ mat_wf m.
Proof.
  intros Hr Hc. rewrite (elementwise_ok what op a b Hr Hc).
  eexists. split; [reflexivity|].
  split; [reflexivity|]. split; [reflexivity|apply mat_init_wf].
Qed.

Lemma each_col_total (what : string) (op : R -> R -> R) (a v : mat) :
  n_rows v = n_rows a -> n_cols v = 1 ->
  exists m, each_col what op a v = Ok m /\
            n_rows m = n_rows a /\ n_cols m = n_cols a /\ mat_wf m.
Proof.
  intros Hr Hc. rewrite (each_col_ok what op a v Hr Hc).
  eexists. split; [reflexivity|].
  split; [reflexivity|]. split; [reflexivity|apply mat_init_wf].
Qed.

Lemma each_row_schur_total (a v : mat) :
  n_rows v = 1 -> n_cols v = n_cols a ->
  exists m, each_row_schur a v = Ok m /\
            n_rows m = n_rows a /\ n_cols m = n_cols a /\ mat_wf m.
Proof.
  intros Hr Hc. rewrite (each_row_schur_ok a v Hr Hc).
  eexists. split; [reflexivity|].
  split; [reflexivity|]. split; [reflexivity|apply mat_init_wf].
Qed.

Lemma pack_mat_total (values : list arma_value) (i : nat) (M0 m : mat)
  (packed : vec) :
  (total_n_elem values < uword_modulus)%N ->
  nth_error values i = Some (a_mat M0) ->
  (size (make_packer values) <= N.of_nat (length packed))%N ->
  n_rows m = n_rows M0 -> n_cols m = n_cols M0 -> mat_wf m ->
  exists packed',
    pack (make_packer values) i packed (a_mat m) = Ok packed' /\
    length packed' = length packed.
Proof.
  intros Hw Hi Hlen Hr Hc Hwf.
  pose proof (pack_spec values i (a_mat M0) (a_mat m) packed Hw Hi
                (conj Hr Hc) Hwf Hlen) as Hp.
  eexists. split; [exact Hp|].
  pose proof (total_n_elem_firstn_le values i _ Hi) as Hle.
  pose proof (make_packer_size values Hw) as Hs.
  apply length_splice; [lia|].
  simpl. unfold vectorise. red in Hwf. rewrite Hwf, Hr, Hc. lia.
Qed.

Lemma n_rows_sum0 a : n_rows (sum0 a) = 1%nat.
Proof. reflexivity. Qed.
Lemma n_cols_sum0 a : n_cols (sum0 a) = n_cols a.
Proof. reflexivity. Qed.
Lemma n_rows_diagvec a : n_rows (diagvec a) = Nat.min (n_rows a) (n_cols a).
Proof. reflexivity. Qed.
Lemma n_cols_diagvec a : n_cols (diagvec a) = 1%nat.
Proof. reflexivity. Qed.

Lemma n_rows_minus_scalar a s : n_rows (minus_scalar a s) = n_rows a.
Proof. reflexivity. Qed.
Lemma n_cols_minus_scalar a s : n_cols (minus_scalar a s) = n_cols a.
Proof. reflexivity. Qed.
Lemma n_rows_scale_right a s : n_rows (scale_right a s) = n_rows a.
Proof. reflexivity. Qed.
Lemma n_cols_scale_right a s : n_cols (scale_right a s) = n_cols a.
Proof. reflexivity. Qed.

#[local] Hint Rewrite n_rows_sum0 n_cols_sum0 n_rows_diagvec n_cols_diagvec
  n_rows_minus_scalar n_cols_minus_scalar n_rows_scale_right
  n_cols_scale_right : dims.

Ltac dims_solve :=
  autorewrite with dims in *; first [ reflexivity | congruence | lia ].

(** Run the next Armadillo operation of the goal, keeping of its result
    only the sizes. *)
Ltac run_op :=
  let m := fresh "m" in let E := fresh "E" in
  let Hr := fresh "Hr" in let Hc := fresh "Hc" in let Hwf := fresh "Hwf" in
  match goal with
  | |- context [mat_mul ?a ?b] =>
      destruct (mat_mul_total a b) as (m & E & Hr & Hc & Hwf);
      [ dims_solve | rewrite E; clear E ]
  | |- context [elementwise ?what ?op ?a ?b] =>
      destruct (elementwise_total what op a b) as (m & E & Hr & Hc & Hwf);
      [ dims_solve | dims_solve | rewrite E; clear E ]
  | |- context [each_col ?what ?op ?a ?b] =>
      destruct (each_col_total what op a b) as (m & E & Hr & Hc & Hwf);
      [ dims_solve | dims_solve | rewrite E; clear E ]
  | |- context [each_row_schur ?a ?b] =>
      destruct (each_row_schur_total a b) as (m & E & Hr & Hc & Hwf);
      [ dims_solve | dims_solve | rewrite E; clear E ]
  end;
  cbn [bind].

(** The sizes of [diagmat] of a row. *)
Ltac diag_facts :=
  repeat match goal with
         | |- context [diagmat ?a] =>
             lazymatch goal with
             | _ : n_rows (diagmat a) = _ |- _ => fail
             | _ => idtac
             end;
             let F := fresh "F" in
             assert (F : n_rows (diagmat a) = n_cols a
                         /\ n_cols (diagmat a) = n_cols a)
               by (apply n_rows_diagmat_row;
                   [ dims_solve
                   | first [ assumption | apply mat_init_wf ] ]);
             destruct F
         end.

Ltac run_pack Hw :=
  let g := fresh "g" in let E := fresh "E" in let Hl := fresh "Hl" in
  match goal with
  | |- context [pack (make_packer ?vs) ?i ?packed (a_mat ?m)] =>
      destruct (pack_mat_total vs i _ m packed Hw eq_refl)
        as (g & E & Hl);
      [ lia | dims_solve | dims_solve | assumption
      | rewrite E; clear E; cbn [bind] ]
  end.

Lemma mat_log_cases (a : mat) :
  mat_log a = Ok (mat_map ln a) \/ mat_log a = NonFinite.
Proof. unfold mat_log. destruct (forallb Rpositive (mem a)); auto. Qed.

Lemma pow_m1_cases (a : mat) :
  pow_m1 a = Ok (mat_map Rinv a) \/ pow_m1 a = NonFinite.
Proof. unfold pow_m1. destruct (forallb Rnonzero (mem a)); auto. Qed.

(** Run the next logarithm or reciprocal of the goal, whichever way it
    goes. *)
Ltac run_partial :=
  let E := fresh "E" in
  match goal with
  | |- context [mat_log ?a] =>
      destruct (mat_log_cases a) as [E|E]; rewrite E; clear E
  | |- context [pow_m1 ?a] =>
      destruct (pow_m1_cases a) as [E|E]; rewrite E; clear E
  end;
  cbn [bind].

Ltac closure_never_throws_tac Hw :=
  unfold lift2, fmap, evaluated; cbn [bind];
  unfold schur, mat_plus, mat_minus, each_col_schur;
  repeat first [ run_op | progress diag_facts | run_pack Hw | run_partial ];
  discriminate.


(** X16.  No check of sizes or bounds of Armadillo fails in the closures
    that work with a fixed [Omega]: with matrices of conforming sizes ([n]
    observations, [p] responses, [d] covariates, at least one observation
    and one response) and parameters and a gradient array that hold all
    the groups, the closure of the sparse fit and that of the full VE step
    do not throw, whatever the values. *)
Theorem fixed_omega_closures_do_not_throw (n p d : nat)
  (T0 M0 S0 Y X O w Theta Omega : mat) :
  (total_n_elem [a_mat T0; a_mat M0; a_mat S0] < uword_modulus)%N ->
  0 < n -> 0 < p ->
  conforming n p d M0 S0 Y X O w Theta Omega ->
  n_rows T0 = p /\ n_cols T0 = d ->
  never_throws (make_packer [a_mat T0; a_mat M0; a_mat S0])
    (Sparse.objective_and_grad (make_packer [a_mat T0; a_mat M0; a_mat S0])
       Y X O w Omega) /\
  never_throws (make_packer [a_mat M0; a_mat S0])
    (VEstepFull.objective_and_grad (make_packer [a_mat M0; a_mat S0])
       Y X O w Theta Omega).
Proof.
  intros Hw3 _ _ Hshape [HT0r HT0c].
  assert (Hw2 : (total_n_elem [a_mat M0; a_mat S0] < uword_modulus)%N)
    by (cbn [total_n_elem fold_right] in *; lia).
  destruct Hshape as ((HM0r & HM0c) & (HS0r & HS0c) & (HYr & HYc) & (HOr & HOc)
                      & (HXr & HXc) & (HTr & HTc) & (HOmr & HOmc)
                      & (Hwr & Hcol)).
  destruct (n_rows_diagmat_col w Hcol) as [Hdr Hdc].
  destruct Hcol as [Hwc Hwl].
  split; intros parameters grad_storage Hlp Hlg e.
  - destruct (unpack_mat_ok _ 0 T0 parameters Hw3 eq_refl Hlp)
      as (T & HT & HTr' & HTc' & HTwf).
    destruct (unpack_mat_ok _ 1 M0 parameters Hw3 eq_refl Hlp)
      as (M & HM & HMr & HMc & HMwf).
    destruct (unpack_mat_ok _ 2 S0 parameters Hw3 eq_refl Hlp)
      as (S & HS & HSr & HSc & HSwf).
    unfold Sparse.objective_and_grad, Sparse.objective_and_grad_locals,
      closure_return, pack_mat.
    change Sparse.THETA_ID with 0. change Sparse.M_ID with 1.
    change Sparse.S_ID with 2. rewrite HT, HM, HS.
    closure_never_throws_tac Hw3.
  - destruct (unpack_mat_ok _ 0 M0 parameters Hw2 eq_refl Hlp)
      as (M & HM & HMr & HMc & HMwf).
    destruct (unpack_mat_ok _ 1 S0 parameters Hw2 eq_refl Hlp)
      as (S & HS & HSr & HSc & HSwf).
    unfold VEstepFull.objective_and_grad,
      VEstepFull.objective_and_grad_locals, closure_return, pack_mat.
    change VEstepFull.M_ID with 0. change VEstepFull.S_ID with 1.
    rewrite HM, HS.
    closure_never_throws_tac Hw2.
Qed.

Lemma fixed_omega_closures_on_example :
  is_ok (Sparse.objective_and_grad ex_packer3 ex_Y ex_X ex_O ex_w ex_Omega
           ex_parameters3 [0; 0; 0]%R) = true /\
  is_ok (VEstepFull.objective_and_grad ex_packer2 ex_Y ex_X ex_O ex_w
           ex_Theta ex_Omega ex_parameters2 [0; 0]%R) = true /\
  Sparse.objective_and_grad ex_packer3 ex_Y ex_X ex_O ex_w ex_Omega
    ex_parameters3_zero [0; 0; 0]%R = NonFinite.
Proof.
  repeat match goal with |- _ /\ _ => split end;
    eval_closure; reflexivity.
Qed.

Lemma fixed_omega_closures_do_not_throw_witness :
  (is_ok (Sparse.objective_and_grad ex_packer3 ex_Y ex_X ex_O ex_w ex_Omega
            ex_parameters3 [0; 0; 0]%R) = true /\
   forall e, Sparse.objective_and_grad ex_packer3 ex_Y ex_X ex_O ex_w
               ex_Omega ex_parameters3 [0; 0; 0]%R <> Throw e) /\
  (is_ok (VEstepFull.objective_and_grad ex_packer2 ex_Y ex_X ex_O ex_w
            ex_Theta ex_Omega ex_parameters2 [0; 0]%R) = true /\
   forall e, VEstepFull.objective_and_grad ex_packer2 ex_Y ex_X ex_O ex_w
               ex_Theta ex_Omega ex_parameters2 [0; 0]%R <> Throw e).
Proof.
  destruct fixed_omega_closures_on_example as (Ks & Kv & _).
  destruct (fixed_omega_closures_do_not_throw 1 1 1 ex_Theta ex_M ex_S ex_Y
              ex_X ex_O ex_w ex_Theta ex_Omega) as [Hs Hv].
  - vm_compute. reflexivity.
  - lia.
  - lia.
  - repeat split; reflexivity.
  - split; reflexivity.
  - split; (split; [assumption|]).
    + apply (Hs ex_parameters3 [0; 0; 0]%R);
        vm_compute; discriminate.
    + apply (Hv ex_parameters2 [0; 0]%R);
        vm_compute; discriminate.
Defined.


(** X17.  No check of sizes or bounds of Armadillo fails in the closure of
    the rank-constrained fit: with matrices of conforming sizes ([n]
    observations, [p] responses, [d] covariates, rank [q], with [n] and
    [q] at least one) and parameters and a gradient array that hold the
    four groups, it does not throw, whatever the values. *)
Theorem rank_closure_does_not_throw (n p d q : nat)
  (T0 B0 M0 S0 Y X O w : mat) :
  (total_n_elem [a_mat T0; a_mat B0; a_mat M0; a_mat S0] < uword_modulus)%N ->
  0 < n -> 0 < q ->
  rank_conforming n p d q T0 B0 M0 S0 Y X O w ->
  never_throws
    (make_packer [a_mat T0; a_mat B0; a_mat M0; a_mat S0])
    (Rank.objective_and_grad
       (make_packer [a_mat T0; a_mat B0; a_mat M0; a_mat S0]) Y X O w).
Proof.
  intros Hw _ _ Hshape.
  destruct Hshape as ((HT0r & HT0c) & (HB0r & HB0c) & (HM0r & HM0c)
                      & (HS0r & HS0c) & (HYr & HYc) & (HOr & HOc)
                      & (HXr & HXc) & (Hwr & Hcol)).
  destruct (n_rows_diagmat_col w Hcol) as [Hdr Hdc].
  destruct Hcol as [Hwc Hwl].
  intros parameters grad_storage Hlp Hlg e.
  destruct (unpack_mat_ok _ 0 T0 parameters Hw eq_refl Hlp)
    as (T & HT & HTr & HTc & HTwf).
  destruct (unpack_mat_ok _ 1 B0 parameters Hw eq_refl Hlp)
    as (B & HB & HBr & HBc & HBwf).
  destruct (unpack_mat_ok _ 2 M0 parameters Hw eq_refl Hlp)
    as (M & HM & HMr & HMc & HMwf).
  destruct (unpack_mat_ok _ 3 S0 parameters Hw eq_refl Hlp)
    as (S & HS & HSr & HSc & HSwf).
  unfold Rank.objective_and_grad, Rank.objective_and_grad_locals,
    closure_return, pack_mat.
  change Rank.THETA_ID with 0. change Rank.B_ID with 1.
  change Rank.M_ID with 2. change Rank.S_ID with 3.
  rewrite HT, HB, HM, HS.
  closure_never_throws_tac Hw.
Qed.

Lemma rank_closure_on_example :
  is_ok (Rank.objective_and_grad ex_packer4 ex_Y ex_X ex_O ex_w
           ex_parameters4 [0; 0; 0; 0]%R) = true.
Proof. eval_closure. reflexivity. Qed.

Lemma rank_closure_does_not_throw_witness :
  is_ok (Rank.objective_and_grad ex_packer4 ex_Y ex_X ex_O ex_w
           ex_parameters4 [0; 0; 0; 0]%R) = true /\
  forall e, Rank.objective_and_grad ex_packer4 ex_Y ex_X ex_O ex_w
              ex_parameters4 [0; 0; 0; 0]%R <> Throw e.
Proof.
  split; [exact rank_closure_on_example|].
  apply (rank_closure_does_not_throw 1 1 1 1 ex_Theta ex_B ex_M ex_S ex_Y
           ex_X ex_O ex_w).
  - vm_compute. reflexivity.
  - lia.
  - lia.
  - repeat split; reflexivity.
  - vm_compute. discriminate.
  - vm_compute. discriminate.
Defined.


(* ===================================================================== *)
(** * The closure of the diagonal VE step *)

Lemma each_row_schur_throws (a v : mat) :
  n_rows v <> 1 ->
  exists what, each_row_schur a v = Throw (arma_logic_error what).
Proof.
  intros H. unfold each_row_schur.
  destruct (Nat.eqb_spec (n_rows v) 1); [contradiction|].
  simpl. eexists. reflexivity.
Qed.

Lemma as_scalar_ok (a : mat) :
  mat_wf a -> n_rows a = 1 -> n_cols a = 1 ->
  as_scalar a = Ok (nth 0 (mem a) 0%R).
Proof.
  intros Hwf Hr Hc. unfold as_scalar. red in Hwf.
  rewrite Hwf, Hr, Hc. reflexivity.
Qed.

(** With two responses or more, at least one observation, matrices of
    conforming sizes and no zero in [S], the closure of the diagonal VE step
    comes to [S.each_row() % omega2] and throws there. *)
Lemma vestep_diagonal_closure_throws (n p d : nat)
  (M0 S0 Y X O w Theta Omega : mat) (parameters grad_storage : vec)
  (S : mat) :
  (total_n_elem [a_mat M0; a_mat S0] < uword_modulus)%N ->
  conforming n p d M0 S0 Y X O w Theta Omega ->
  0 < n -> 2 <= p ->
  (size (make_packer [a_mat M0; a_mat S0])
   <= N.of_nat (length parameters))%N ->
  (size (make_packer [a_mat M0; a_mat S0])
   <= N.of_nat (length grad_storage))%N ->
  unpack_mat (make_packer [a_mat M0; a_mat S0]) VEstepDiagonal.S_ID
    parameters = Ok S ->
  Forall (fun x => x <> 0%R) (mem S) ->
  exists what,
    VEstepDiagonal.objective_and_grad (make_packer [a_mat M0; a_mat S0])
      Y X O w Theta Omega parameters grad_storage
    = Throw (arma_logic_error what).
Proof.
  intros Hw Hshape _ Hp Hlp Hlg HS Hnz.
  destruct Hshape as ((HM0r & HM0c) & (HS0r & HS0c) & (HYr & HYc) & (HOr & HOc)
                      & (HXr & HXc) & (HTr & HTc) & (HOmr & HOmc)
                      & (Hwr & Hcol)).
  destruct (n_rows_diagmat_col w Hcol) as [Hdr Hdc].
  destruct Hcol as [Hwc Hwl].
  destruct (unpack_mat_ok _ 0 M0 parameters Hw eq_refl Hlp)
    as (M & HM & HMr & HMc & HMwf).
  destruct (unpack_mat_ok _ 1 S0 parameters Hw eq_refl Hlp)
    as (S' & HS' & HSr & HSc & HSwf).
  change VEstepDiagonal.S_ID with 1 in HS.
  rewrite HS in HS'. inversion HS'; subst S'. clear HS'.
  destruct (each_row_schur_throws S (diagvec Omega)) as (what & Ht).
  { autorewrite with dims. lia. }
  exists what.
  unfold VEstepDiagonal.objective_and_grad,
    VEstepDiagonal.objective_and_grad_locals, closure_return, pack_mat.
  change VEstepDiagonal.M_ID with 0. change VEstepDiagonal.S_ID with 1.
  rewrite HM, HS.
  unfold lift2, fmap, evaluated; cbn [bind].
  unfold schur at 1. rewrite (elementwise_ok _ _ S S eq_refl eq_refl).
  cbn [bind].
  pose proof (square_positive S HSwf Hnz) as Hsq.
  assert (HS2r : n_rows (mat_init (n_rows S) (n_cols S)
                           (fun i j => (mat_at S i j * mat_at S i j)%R))
                 = n_rows S) by reflexivity.
  assert (HS2c : n_cols (mat_init (n_rows S) (n_cols S)
                           (fun i j => (mat_at S i j * mat_at S i j)%R))
                 = n_cols S) by reflexivity.
  pose proof (mat_init_wf (n_rows S) (n_cols S)
                (fun i j => (mat_at S i j * mat_at S i j)%R)) as HS2wf.
  generalize dependent (mat_init (n_rows S) (n_cols S)
                          (fun i j => (mat_at S i j * mat_at S i j)%R)).
  intros S2 Hsq HS2r HS2c HS2wf.
  rewrite ?(mat_log_ok S2 Hsq), ?(pow_m1_ok S Hnz).
  unfold schur, mat_plus, mat_minus, each_col_schur.
  repeat first
    [ run_op | progress diag_facts | run_pack Hw
    | match goal with
      | |- context [as_scalar ?a] =>
          rewrite (as_scalar_ok a) by first [assumption | dims_solve];
          cbn [bind]
      end ].
  rewrite Ht. reflexivity.
Qed.

(** X11.  The closure of the diagonal VE step multiplies each row of [S] by
    [omega2], which is a column ([arma::vec]), where the other closures
    transpose the diagonal first.  Armadillo accepts that for one response
    only.  Whenever the closure returns a value and a gradient, [S] has a
    single column and the diagonal of [Omega] a single element.  With two
    responses or more, at least one observation, matrices of conforming
    sizes, parameters and a gradient array that hold both groups and no
    zero in [S], the closure throws Armadillo's logic error. *)
Theorem vestep_diagonal_closure_needs_one_response
  (Y X O w Theta Omega : mat) :
  (forall packer parameters grad_storage,
     is_ok (VEstepDiagonal.objective_and_grad packer Y X O w Theta Omega
              parameters grad_storage) = true ->
     exists S,
       unpack_mat packer VEstepDiagonal.S_ID parameters = Ok S /\
       n_cols S = 1 /\
       Nat.min (n_rows Omega) (n_cols Omega) = 1) /\
  (forall n p d M0 S0 parameters grad_storage S,
     (total_n_elem [a_mat M0; a_mat S0] < uword_modulus)%N ->
     conforming n p d M0 S0 Y X O w Theta Omega ->
     0 < n -> 2 <= p ->
     (size (make_packer [a_mat M0; a_mat S0])
      <= N.of_nat (length parameters))%N ->
     (size (make_packer [a_mat M0; a_mat S0])
      <= N.of_nat (length grad_storage))%N ->
     unpack_mat (make_packer [a_mat M0; a_mat S0]) VEstepDiagonal.S_ID
       parameters = Ok S ->
     Forall (fun x => x <> 0%R) (mem S) ->
     exists what,
       VEstepDiagonal.objective_and_grad (make_packer [a_mat M0; a_mat S0])
         Y X O w Theta Omega parameters grad_storage
       = Throw (arma_logic_error what)).
Proof.
  split.
  - intros packer parameters grad_storage Hok.
    apply is_ok_true_inv in Hok. destruct Hok as (l & Hok).
    unfold VEstepDiagonal.objective_and_grad,
      VEstepDiagonal.objective_and_grad_locals in Hok.
    ok_inv. same_results.
    match goal with
    | U : unpack_mat _ VEstepDiagonal.S_ID _ = Ok ?S,
      E : each_row_schur ?S (diagvec Omega) = Ok _ |- _ =>
        exists S; apply each_row_schur_inv in E; destruct E as [E1 E2];
        unfold diagvec in E1, E2; cbn [n_rows n_cols mat_init] in E1, E2;
        split; [exact U|]; split; [now symmetry|exact E1]
    end.
  - intros n p d M0 S0 parameters grad_storage S.
    apply vestep_diagonal_closure_throws.
Qed.

Lemma vestep_diagonal_closure_needs_one_response_witness :
  (exists S,
     unpack_mat ex_packer2 VEstepDiagonal.S_ID ex_parameters2 = Ok S /\
     n_cols S = 1 /\
     Nat.min (n_rows ex_Omega) (n_cols ex_Omega) = 1) /\
  (exists what,
     VEstepDiagonal.objective_and_grad ex_p2_packer2 ex_p2_Y ex_X ex_p2_O
       ex_w ex_p2_Theta ex_p2_Omega ex_p2_parameters2 [0; 0; 0; 0]%R
     = Throw (arma_logic_error what)).
Proof.
  split.
  - exact (proj1 (vestep_diagonal_closure_needs_one_response ex_Y ex_X ex_O
                    ex_w ex_Theta ex_Omega)
             ex_packer2 ex_parameters2 [0; 0]%R
             vestep_diagonal_closure_on_example).
  - apply (proj2 (vestep_diagonal_closure_needs_one_response ex_p2_Y ex_X
                    ex_p2_O ex_w ex_p2_Theta ex_p2_Omega)
             1 2 1 ex_p2_M ex_p2_S ex_p2_parameters2 [0; 0; 0; 0]%R
             ex_p2_S).
    + vm_compute. reflexivity.
    + repeat split; reflexivity.
    + lia.
    + lia.
    + vm_compute. discriminate.
    + vm_compute. discriminate.
    + reflexivity.
    + repeat constructor; simpl; lra.
Defined.


(* ===================================================================== *)
(** * Incomplete configurations *)

Lemma from_r_list_reads (r_list : list (string * SEXP)) (packer_size : uword)
  (pack_xtol_abs : vec -> list (string * SEXP) -> result vec)
  (config : OptimizerConfiguration) :
  from_r_list r_list packer_size pack_xtol_abs = Ok config ->
  Forall (fun key => is_ok (List_get r_list key) = true) configuration_keys.
Proof.
  intros H. unfold from_r_list in H.
  repeat match type of H with
         | bind _ _ = Ok _ =>
             apply bind_ok_inv in H; destruct H as (? & ? & H)
         end.
  unfold configuration_keys.
  repeat constructor;
    match goal with
    | E : List_get r_list ?k = Ok _ |- is_ok (List_get r_list ?k) = true =>
        rewrite E; reflexivity
    end.
Qed.

(** X18.  A configuration that lacks one of the seven entries
    ([xtol_abs], [algorithm], [xtol_rel], [ftol_abs], [ftol_rel],
    [maxeval], [maxtime]) is rejected by every exported function before the
    optimizer is touched: the function throws, with no handle created and
    no objective evaluated. *)
Theorem incomplete_configuration_is_rejected
  (configuration : list (string * SEXP)) (key : string) :
  In key configuration_keys ->
  is_ok (List_get configuration key) = false ->
  forall lib la init_parameters Y X O w Theta Omega,
    rejected_before_optimizer
      (cpp_optimize_full lib la init_parameters Y X O w configuration) /\
    rejected_before_optimizer
      (cpp_optimize_spherical lib init_parameters Y X O w configuration) /\
    rejected_before_optimizer
      (cpp_optimize_diagonal lib init_parameters Y X O w configuration) /\
    rejected_before_optimizer
      (cpp_optimize_rank lib init_parameters Y X O w configuration) /\
    rejected_before_optimizer
      (cpp_optimize_sparse lib init_parameters Y X O w Omega
         configuration) /\
    rejected_before_optimizer
      (cpp_optimize_vestep_full lib init_parameters Y X O w Theta Omega
         configuration) /\
    rejected_before_optimizer
      (cpp_optimize_vestep_diagonal lib init_parameters Y X O w Theta Omega
         configuration) /\
    rejected_before_optimizer
      (cpp_optimize_vestep_spherical lib init_parameters Y X O w Theta Omega
         configuration).
Proof.
  intros Hin Hmiss. apply entry_points_reject. intros s f.
  destruct (from_r_list configuration s f) as [config| |e] eqn:E;
    try reflexivity.
  pose proof (from_r_list_reads configuration s f config E) as Hall.
  rewrite Forall_forall in Hall. rewrite (Hall key Hin) in Hmiss.
  discriminate Hmiss.
Qed.

Lemma incomplete_configuration_is_rejected_witness :
  rejected_before_optimizer
    (cpp_optimize_full one_step_nlopt scalar_solvers ex_init_parameters
       ex_Y ex_X ex_O ex_w ex_incomplete_configuration) /\
  rejected_before_optimizer
    (cpp_optimize_vestep_full one_step_nlopt ex_init_parameters
       ex_Y ex_X ex_O ex_w ex_Theta ex_Omega ex_incomplete_configuration).
Proof.
  destruct (incomplete_configuration_is_rejected ex_incomplete_configuration
              "maxtime"%string ltac:(simpl; tauto) eq_refl
              one_step_nlopt scalar_solvers ex_init_parameters
              ex_Y ex_X ex_O ex_w ex_Theta ex_Omega)
    as (Hf & _ & _ & _ & _ & Hv & _).
  split; [exact Hf|exact Hv].
Defined.


(* ===================================================================== *)
(** * The gradient with respect to S when Omega is fixed *)

Lemma unpack_mat_inv (values : list arma_value) (i : nat) (M0 M : mat)
  (packed : vec) :
  (total_n_elem values < uword_modulus)%N ->
  nth_error values i = Some (a_mat M0) ->
  unpack_mat (make_packer values) i packed = Ok M ->
  n_rows M = n_rows M0 /\ n_cols M = n_cols M0 /\ mat_wf M.
Proof.
  intros Hw Hi H. unfold unpack_mat in H. apply fmap_ok_inv in H.
  destruct H as (v & Hv & ->).
  rewrite (unpack_char values i _ packed Hw Hi) in Hv.
  destruct (N.leb_spec (total_n_elem (firstn i values)
                        + value_n_elem (a_mat M0))
              (N.of_nat (length packed))) as [Hb|Hb]; [|discriminate].
  inversion Hv; subst v. cbn [as_mat n_rows n_cols].
  split; [reflexivity|]. split; [reflexivity|].
  red. cbn [mem n_rows n_cols]. apply length_slice.
  simpl in Hb. lia.
Qed.

(** The common part of the closures that work with a fixed [Omega]. *)
Lemma s_gradient_core (values : list arma_value) (S0 : mat) (S_ID : nat)
  (parameters g_in g_mid g_final : vec)
  (S Omega A w R1 SA P1 IS E gS : mat) :
  (total_n_elem values < uword_modulus)%N ->
  nth_error values S_ID = Some (a_mat S0) ->
  is_col w ->
  unpack_mat (make_packer values) S_ID parameters = Ok S ->
  each_row_schur S (trans (diagvec Omega)) = Ok R1 ->
  schur S A = Ok SA ->
  mat_plus R1 SA = Ok P1 ->
  pow_m1 S = Ok IS ->
  mat_minus P1 IS = Ok E ->
  mat_mul (diagmat w) E = Ok gS ->
  pack (make_packer values) S_ID g_in (a_mat gS) = Ok g_mid ->
  unpack (make_packer values) S_ID g_final
  = unpack (make_packer values) S_ID g_mid ->
  exists G, unpack_mat (make_packer values) S_ID g_final = Ok G /\
            s_gradient_formula S Omega A w G.
Proof.
  intros Hw H0 Hcol HS HR1 HSA HP1 HIS HE HgS Hp Hu.
  destruct (unpack_mat_inv values S_ID S0 S parameters Hw H0 HS)
    as (HSr & HSc & HSwf).
  pose proof (unpack_pack_same_mat values S_ID g_in g_mid gS S0 Hw H0 Hp)
    as Hsame.
  destruct (n_rows_diagmat_col w Hcol) as [Hdr Hdc].
  pose proof (each_row_schur_inv _ _ _ HR1) as [Hv1 Hv2].
  rewrite (each_row_schur_ok _ _ Hv1 Hv2) in HR1.
  inversion HR1; subst R1. clear HR1.
  apply elementwise_inv in HSA. destruct HSA as (HA1 & HA2 & ->).
  apply elementwise_inv in HP1. destruct HP1 as (_ & _ & ->).
  apply pow_m1_inv in HIS. destruct HIS as (Hnz & ->).
  apply elementwise_inv in HE. destruct HE as (_ & _ & ->).
  apply mat_mul_inv in HgS. destruct HgS as (Hg1 & ->).
  autorewrite with dims in *. rewrite Hdr, Hdc in *.
  exists (Mat (n_rows S0) (n_cols S0)
            (mem (mat_init (n_rows w) (n_cols S)
                    (fun i j => big_sum (n_rows w)
                       (fun k =>
                          (mat_at (diagmat w) i k
                           * mat_at
                               (mat_init (n_rows S) (n_cols S)
                                  (fun i0 j0 =>
                                     (mat_at
                                        (mat_init (n_rows S) (n_cols S)
                                           (fun i1 j1 =>
                                              (mat_at
                                                 (mat_init (n_rows S) (n_cols S)
                                                    (fun i2 j2 =>
                                                       (mat_at S i2 j2
                                                        * mat_at
                                                            (trans (diagvec Omega))
                                                            0 j2)%R))
                                                 i1 j1
                                               + mat_at
                                                   (mat_init (n_rows S)
                                                      (n_cols S)
                                                      (fun i2 j2 =>
                                                         (mat_at S i2 j2
                                                          * mat_at A i2 j2)%R))
                                                   i1 j1)%R))
                                        i0 j0
                                      - mat_at (mat_map Rinv S) i0 j0)%R))
                               k j)%R))))).
  split.
  - unfold unpack_mat. rewrite Hu, Hsame. reflexivity.
  - unfold s_gradient_formula. cbn [n_rows n_cols].
    split; [congruence|]. split; [congruence|].
    intros i j Hi Hj.
    assert (Er : n_rows w = n_rows S0) by congruence.
    rewrite <- Er, <- HSc in *.
    change (Mat (n_rows w) (n_cols S)
              (mem (mat_init (n_rows w) (n_cols S) ?f)))
      with (mat_init (n_rows w) (n_cols S) f).
    rewrite mat_at_init by assumption.
    rewrite <- Hdc at 1.
    rewrite (diagmat_mul_entry w _ i j Hcol Hi).
    assert (Hi' : (i < n_rows S)%nat) by lia.
    rewrite !mat_at_init by assumption.
    rewrite (mat_at_map Rinv S i j HSwf Hi' Hj).
    unfold trans. autorewrite with dims in *.
    rewrite mat_at_init by lia.
    unfold diagvec. rewrite mat_at_init by lia. reflexivity.
Qed.


Ltac s_gradient_tac Hw H0 Hcol :=
  let l := fresh "l" in let H := fresh "H" in
  intros l H; ok_inv; same_results;
  cbn [loc_A loc_grad_storage];
  match goal with
  | U : unpack_mat (make_packer ?vs) ?i ?params = Ok ?S,
    P : each_row_schur ?S (trans (diagvec ?Om)) = Ok ?R1,
    Q : schur ?S ?A = Ok ?SA,
    Q1 : mat_plus ?R1 ?SA = Ok ?P1,
    I : pow_m1 ?S = Ok ?IS,
    R2 : mat_minus ?P1 ?IS = Ok ?E,
    D : mat_mul (diagmat ?w) ?E = Ok ?gS,
    K : pack (make_packer ?vs) ?i ?gin (a_mat ?gS) = Ok ?gmid
    |- _ =>
      exists S;
      destruct (s_gradient_core vs _ i params gin gmid gmid S Om A w R1 SA P1
                  IS E gS Hw H0 Hcol U P Q Q1 I R2 D K eq_refl)
        as (G & HG & HF);
      exists G; split; [exact U|]; split; [exact HG|exact HF]
  end.

(** X19.  In the closures of the sparse fit and of the full VE step, when
    the closure returns, the group of [S] in the gradient array it leaves
    is [diagmat(w) * (S.each_row() % diagvec(Omega).t() + S % A -
    pow(S, -1))]: entry [(i, j)] is the weight of observation [i] times
    [S(i,j) * Omega(j,j) + S(i,j) * A(i,j) - 1 / S(i,j)], for the [S] of
    the parameters and the mean matrix [A] of the closure. *)
Theorem s_gradient (values3 values2 : list arma_value)
  (S3 S2 Y X O w Theta Omega : mat) (parameters grad_storage : vec) :
  (total_n_elem values3 < uword_modulus)%N ->
  nth_error values3 2 = Some (a_mat S3) ->
  (total_n_elem values2 < uword_modulus)%N ->
  nth_error values2 1 = Some (a_mat S2) ->
  is_col w ->
  s_gradient_ok (make_packer values3) Sparse.S_ID parameters Omega w
    (Sparse.objective_and_grad_locals (make_packer values3) Y X O w Omega
       parameters grad_storage) /\
  s_gradient_ok (make_packer values2) VEstepFull.S_ID parameters Omega w
    (VEstepFull.objective_and_grad_locals (make_packer values2) Y X O w
       Theta Omega parameters grad_storage).
Proof.
  intros Hw3 H3 Hw2 H2 Hcol. split.
  - unfold Sparse.objective_and_grad_locals. s_gradient_tac Hw3 H3 Hcol.
  - unfold VEstepFull.objective_and_grad_locals. s_gradient_tac Hw2 H2 Hcol.
Qed.

Lemma s_gradient_witness :
  exists l S G,
    Sparse.objective_and_grad_locals ex_packer3 ex_Y ex_X ex_O ex_w ex_Omega
      ex_parameters3 [0; 0; 0]%R = Ok l /\
    unpack_mat ex_packer3 Sparse.S_ID ex_parameters3 = Ok S /\
    unpack_mat ex_packer3 Sparse.S_ID (loc_grad_storage l) = Ok G /\
    s_gradient_formula S ex_Omega (loc_A l) ex_w G.
Proof.
  destruct (is_ok_true_inv _ sparse_locals_on_example) as (l & E).
  destruct (proj1 (s_gradient [a_mat ex_Theta; a_mat ex_M; a_mat ex_S]
                     [a_mat ex_M; a_mat ex_S] ex_S ex_S ex_Y ex_X ex_O ex_w
                     ex_Theta ex_Omega ex_parameters3 [0; 0; 0]%R
                     eq_refl eq_refl eq_refl eq_refl (conj eq_refl eq_refl))
              l E) as (S & G & HS & HG & HF).
  exists l, S, G. split; [exact E|]. split; [exact HS|].
  split; [exact HG|exact HF].
Defined.
